(** * WalletTracker: holdings cache, diff engine, subscriptions, health, metrics

    A shallow embedding of [src/services/walletTracker.ts] (class
    [WalletTracker]) and the properties its specification states about it.

    Modelling conventions.
    - [bigint] amounts are [Z]; JS numbers that only ever hold counters or
      millisecond differences are [Z] (subscription ids are [nat]): below
      2^53 a JS number holds such an integer exactly.  The two divisions of
      [getMetrics] are binary64 divisions: each returns the double nearest to
      the exact quotient (ties to even), carried here as the rational number
      that double is.
    - A JS [Map] is an insertion-ordered association list ([omap]): [set] on a
      present key keeps its position, on a fresh key appends; iteration follows
      the list.  A JS [Set] of callbacks is a duplicate-free list in insertion
      order; callbacks are compared by identity, so a callback is a [nat].
    - Async methods are computations in a state-and-exception monad [M]: a
      thrown exception keeps the state mutated so far, as in JS.  The ledger
      connection, the clock, the events emitted through [EventEmitter.emit] and
      the callback invocations are part of the state, so that they can be
      observed.  What the outside world answers during one call is the
      environment record [Env].
    - [emit] appends to the event log.  (Node throws from [emit("error")] when
      no [error] listener is attached; [src/index.ts] attaches listeners for
      all eight events right after construction, and the model assumes so.)
    - Handlers run to completion one after the other; the interleaving of
      in-flight handlers at [await] points is outside this model.
    - [tokenMetadataCache] is never read or written apart from being cleared
      by [shutdown], and is left out. *)

From Stdlib Require Import List String ZArith QArith Qabs Bool Lia Arith.
From Stdlib Require Import Ascii.
From Stdlib Require DecimalString DecimalZ DecimalPos SpecFloat.
Import ListNotations.

Local Open Scope string_scope.
Local Open Scope Z_scope.
Local Open Scope list_scope.

(** ** Data model ([src/types/types.ts]) *)

Record TokenBalance := mkTokenBalance {
  mint : string;
  amount : Z;
  decimals : nat
}.

Record WalletHoldings := mkWalletHoldings {
  address : string;
  tokens : list TokenBalance;
  lastUpdated : Z
}.

Record TokenChange := mkTokenChange {
  change_mint : string;
  oldBalance : Z;
  newBalance : Z;
  timestamp : Z;
  change_decimals : nat
}.

Inductive Status := healthy | degraded | unhealthy.

(** The three messages [checkHealth] can push. *)
Inductive HealthError :=
| StaleData
| SubscriptionMismatch (active expected : nat)
| ConnectionError.

Record HealthStatus := mkHealthStatus {
  status : Status;
  activeSubscriptions : nat;
  cachedWallets : nat;
  lastUpdate : option Z;
  errors : list HealthError
}.

(** ** Insertion-ordered maps with string keys (JS [Map]) *)

Module OMap.

Definition t (V : Type) := list (string * V).

Fixpoint get {V} (k : string) (m : t V) : option V :=
  match m with
  | [] => None
  | (k', v) :: m' => if String.eqb k k' then Some v else get k m'
  end.

Definition has {V} (k : string) (m : t V) : bool :=
  match get k m with Some _ => true | None => false end.

Fixpoint set {V} (k : string) (v : V) (m : t V) : t V :=
  match m with
  | [] => [(k, v)]
  | (k', v') :: m' =>
      if String.eqb k k' then (k, v) :: m' else (k', v') :: set k v m'
  end.

Definition delete {V} (k : string) (m : t V) : t V :=
  filter (fun kv => negb (String.eqb k (fst kv))) m.

Definition keys {V} (m : t V) : list string := map fst m.
Definition values {V} (m : t V) : list V := map snd m.
Definition size {V} (m : t V) : nat := List.length m.

End OMap.

(** ** The diff engine: [detectChanges] *)

(** [previousTokens.find(t => t.mint === m)] *)
Definition find_mint (m : string) (l : list TokenBalance) : option TokenBalance :=
  find (fun t => String.eqb (mint t) m) l.

(** [currentTokens.some(t => t.mint === m)] *)
Definition some_mint (m : string) (l : list TokenBalance) : bool :=
  existsb (fun t => String.eqb (mint t) m) l.

(** Body of the first loop: one current token against the previous snapshot. *)
Definition check_current (previousTokens : list TokenBalance) (ts : Z)
    (changes : list TokenChange) (currentToken : TokenBalance) : list TokenChange :=
  let previousToken := find_mint (mint currentToken) previousTokens in
  let differs :=
    match previousToken with
    | None => true
    | Some p => negb (amount p =? amount currentToken)
    end in
  if differs then
    changes ++
      [ {| change_mint := mint currentToken;
           oldBalance := match previousToken with Some p => amount p | None => 0 end;
           newBalance := amount currentToken;
           timestamp := ts;
           change_decimals := decimals currentToken |} ]
  else changes.

(** Body of the second loop: one previous token against the current snapshot. *)
Definition check_removed (currentTokens : list TokenBalance) (ts : Z)
    (changes : list TokenChange) (previousToken : TokenBalance) : list TokenChange :=
  if negb (some_mint (mint previousToken) currentTokens) then
    changes ++
      [ {| change_mint := mint previousToken;
           oldBalance := amount previousToken;
           newBalance := 0;
           timestamp := ts;
           change_decimals := decimals previousToken |} ]
  else changes.

(** [detectChanges(previousTokens, currentTokens, changes)]: pushes onto
    [changes]; [ts] is the [new Date()] taken on entry. *)
Definition detectChanges (previousTokens currentTokens : list TokenBalance)
    (changes : list TokenChange) (ts : Z) : list TokenChange :=
  let changes := fold_left (check_current previousTokens ts) currentTokens changes in
  fold_left (check_removed currentTokens ts) previousTokens changes.

(** ** Tracker state, connection and observable world *)

(** A registered callback, [(changes: TokenChange[]) => void], by identity. *)
Definition Callback := nat.

(** [handlers.add(callback)] on a JS [Set]. *)
Definition set_add (cb : Callback) (handlers : list Callback) : list Callback :=
  if existsb (Nat.eqb cb) handlers then handlers else handlers ++ [cb].

(** The message templates passed to [emit("error", ...)]. *)
Inductive ErrorSource :=
| FetchingTokenAccounts (walletAddress : string)
| ProcessingWalletUpdate
| SetupSubscription
| RemovingSubscription
| DuringShutdown
| PausingTracking
| ResumingTracking
| RefreshingHoldingsFor (walletAddress : string)
| RefreshingHoldings.

Inductive Event :=
| EvChanges (walletAddress : string) (changes : list TokenChange)
| EvError (src : ErrorSource)
| EvSubscribed (walletAddress : string)
| EvUnsubscribed (walletAddress : string)
| EvPaused
| EvResumed
| EvShutdown
| EvRefreshed.

Inductive Exn :=
| InvalidWalletAddress
| LedgerReadFailed (walletAddress : string)
| WatchOpenFailed (walletAddress : string)
| WatchCancelFailed (subscriptionId : nat)
| CallbackThrew (cb : Callback).

Record State := mkState {
  (* fields of WalletTracker *)
  holdingsCache : OMap.t WalletHoldings;
  subscriptions : OMap.t nat;
  eventHandlers : OMap.t (list Callback);
  updateLatencies : list Z;
  isPaused : bool;
  updateCount : Z;
  errorCount : Z;
  (* the connection: live account-change listeners and its id counter *)
  listeners : list (nat * string);
  nextSubscriptionId : nat;
  (* the observable world *)
  clock : Z;
  emitted : list Event;
  delivered : list (Callback * list TokenChange)
}.

Definition with_holdingsCache (f : OMap.t WalletHoldings -> OMap.t WalletHoldings) (s : State) : State :=
  mkState (f (holdingsCache s)) (subscriptions s) (eventHandlers s) (updateLatencies s)
    (isPaused s) (updateCount s) (errorCount s) (listeners s) (nextSubscriptionId s)
    (clock s) (emitted s) (delivered s).

Definition with_subscriptions (f : OMap.t nat -> OMap.t nat) (s : State) : State :=
  mkState (holdingsCache s) (f (subscriptions s)) (eventHandlers s) (updateLatencies s)
    (isPaused s) (updateCount s) (errorCount s) (listeners s) (nextSubscriptionId s)
    (clock s) (emitted s) (delivered s).

Definition with_eventHandlers (f : OMap.t (list Callback) -> OMap.t (list Callback)) (s : State) : State :=
  mkState (holdingsCache s) (subscriptions s) (f (eventHandlers s)) (updateLatencies s)
    (isPaused s) (updateCount s) (errorCount s) (listeners s) (nextSubscriptionId s)
    (clock s) (emitted s) (delivered s).

Definition with_updateLatencies (f : list Z -> list Z) (s : State) : State :=
  mkState (holdingsCache s) (subscriptions s) (eventHandlers s) (f (updateLatencies s))
    (isPaused s) (updateCount s) (errorCount s) (listeners s) (nextSubscriptionId s)
    (clock s) (emitted s) (delivered s).

Definition with_isPaused (b : bool) (s : State) : State :=
  mkState (holdingsCache s) (subscriptions s) (eventHandlers s) (updateLatencies s)
    b (updateCount s) (errorCount s) (listeners s) (nextSubscriptionId s)
    (clock s) (emitted s) (delivered s).

Definition with_updateCount (f : Z -> Z) (s : State) : State :=
  mkState (holdingsCache s) (subscriptions s) (eventHandlers s) (updateLatencies s)
    (isPaused s) (f (updateCount s)) (errorCount s) (listeners s) (nextSubscriptionId s)
    (clock s) (emitted s) (delivered s).

Definition with_errorCount (f : Z -> Z) (s : State) : State :=
  mkState (holdingsCache s) (subscriptions s) (eventHandlers s) (updateLatencies s)
    (isPaused s) (updateCount s) (f (errorCount s)) (listeners s) (nextSubscriptionId s)
    (clock s) (emitted s) (delivered s).

Definition with_listeners (f : list (nat * string) -> list (nat * string)) (s : State) : State :=
  mkState (holdingsCache s) (subscriptions s) (eventHandlers s) (updateLatencies s)
    (isPaused s) (updateCount s) (errorCount s) (f (listeners s)) (nextSubscriptionId s)
    (clock s) (emitted s) (delivered s).

Definition with_nextSubscriptionId (f : nat -> nat) (s : State) : State :=
  mkState (holdingsCache s) (subscriptions s) (eventHandlers s) (updateLatencies s)
    (isPaused s) (updateCount s) (errorCount s) (listeners s) (f (nextSubscriptionId s))
    (clock s) (emitted s) (delivered s).

Definition with_clock (f : Z -> Z) (s : State) : State :=
  mkState (holdingsCache s) (subscriptions s) (eventHandlers s) (updateLatencies s)
    (isPaused s) (updateCount s) (errorCount s) (listeners s) (nextSubscriptionId s)
    (f (clock s)) (emitted s) (delivered s).

Definition with_emitted (f : list Event -> list Event) (s : State) : State :=
  mkState (holdingsCache s) (subscriptions s) (eventHandlers s) (updateLatencies s)
    (isPaused s) (updateCount s) (errorCount s) (listeners s) (nextSubscriptionId s)
    (clock s) (f (emitted s)) (delivered s).

Definition with_delivered
    (f : list (Callback * list TokenChange) -> list (Callback * list TokenChange))
    (s : State) : State :=
  mkState (holdingsCache s) (subscriptions s) (eventHandlers s) (updateLatencies s)
    (isPaused s) (updateCount s) (errorCount s) (listeners s) (nextSubscriptionId s)
    (clock s) (emitted s) (f (delivered s)).

(** The tracker right after [new WalletTracker(rpcUrl)]; the connection's id
    counter and the clock start wherever the outside world has them. *)
Definition fresh_tracker (firstId : nat) (now : Z) : State :=
  mkState [] [] [] [] false 0 0 [] firstId now [] [].

(** What the outside world answers during one call. *)
Record Env := mkEnv {
  (* [new PublicKey(address)] accepts the string *)
  valid_address : string -> bool;
  (* [getParsedTokenAccountsByOwner], already mapped to balances; [None]: it throws *)
  ledger : string -> option (list TokenBalance);
  (* milliseconds the read takes *)
  read_ms : string -> Z;
  (* [onAccountChange] succeeds for the address *)
  watch_opens : string -> bool;
  (* [removeAccountChangeListener] succeeds for the id *)
  cancel_ok : nat -> bool;
  (* [getSlot] succeeds *)
  probe_ok : bool;
  (* the callback returns normally on the batch (otherwise it throws) *)
  cb_returns : Callback -> list TokenChange -> bool
}.

(** ** State-and-exception monad *)

Inductive Result (A : Type) :=
| Ok (a : A)
| Throw (e : Exn).
Arguments Ok {A} a.
Arguments Throw {A} e.

Definition M (A : Type) := State -> Result A * State.

Definition ret {A} (a : A) : M A := fun s => (Ok a, s).

Definition bind {A B} (m : M A) (f : A -> M B) : M B :=
  fun s => match m s with
           | (Ok a, s') => f a s'
           | (Throw e, s') => (Throw e, s')
           end.

Definition throw {A} (e : Exn) : M A := fun s => (Throw e, s).

(** [try { m } catch (e) { h e }] *)
Definition try_catch {A} (m : M A) (h : Exn -> M A) : M A :=
  fun s => match m s with
           | (Ok a, s') => (Ok a, s')
           | (Throw e, s') => h e s'
           end.

Definition gets {A} (f : State -> A) : M A := fun s => (Ok (f s), s).
Definition modify (f : State -> State) : M unit := fun s => (Ok tt, f s).

Declare Scope tracker_scope.
Delimit Scope tracker_scope with tracker.
Notation "x <- m ;; k" := (bind m (fun x => k))
  (at level 100, m at next level, right associativity) : tracker_scope.
Notation "m ;; k" := (bind m (fun _ => k))
  (at level 100, right associativity) : tracker_scope.
Local Open Scope tracker_scope.

(** [for (const x of xs) { await body(x) }] *)
Fixpoint for_of {A} (xs : list A) (body : A -> M unit) : M unit :=
  match xs with
  | [] => ret tt
  | x :: rest => body x ;; for_of rest body
  end.

Definition run {A} (m : M A) (s : State) : State := snd (m s).

(** ** Primitives: events, callbacks, the connection *)

Definition emit (ev : Event) : M unit :=
  modify (with_emitted (fun log => log ++ [ev])).

(** [handler(changes)]: the callback receives the batch, then returns or throws. *)
Definition invoke (env : Env) (changes : list TokenChange) (handler : Callback) : M unit :=
  modify (with_delivered (fun d => d ++ [(handler, changes)])) ;;
  if cb_returns env handler changes then ret tt else throw (CallbackThrew handler).

(** [new PublicKey(walletAddress)] *)
Definition newPublicKey (env : Env) (walletAddress : string) : M unit :=
  if valid_address env walletAddress then ret tt else throw InvalidWalletAddress.

(** [connection.getParsedTokenAccountsByOwner(pubkey, ...)] followed by the
    [accounts.value.map] that builds the balances. *)
Definition getParsedTokenAccountsByOwner (env : Env) (walletAddress : string)
    : M (list TokenBalance) :=
  modify (with_clock (fun t => t + read_ms env walletAddress)) ;;
  match ledger env walletAddress with
  | Some balances => ret balances
  | None => throw (LedgerReadFailed walletAddress)
  end.

(** [connection.onAccountChange(pubkey, handler, "confirmed")] *)
Definition onAccountChange (env : Env) (walletAddress : string) : M nat :=
  if watch_opens env walletAddress then
    subscriptionId <- gets nextSubscriptionId ;;
    modify (with_nextSubscriptionId S) ;;
    modify (with_listeners (fun l => l ++ [(subscriptionId, walletAddress)])) ;;
    ret subscriptionId
  else throw (WatchOpenFailed walletAddress).

(** [connection.removeAccountChangeListener(id)] *)
Definition removeAccountChangeListener (env : Env) (subscriptionId : nat) : M unit :=
  if cancel_ok env subscriptionId then
    modify (with_listeners (filter (fun w => negb (Nat.eqb (fst w) subscriptionId))))
  else throw (WatchCancelFailed subscriptionId).

(** [connection.getSlot()] *)
Definition getSlot (env : Env) : M unit :=
  if probe_ok env then ret tt else throw (LedgerReadFailed "").

(** ** Methods of [WalletTracker] *)

Definition validateAddress (env : Env) (a : string) : bool := valid_address env a.

Definition getTokenAccounts (env : Env) (walletAddress : string) : M (list TokenBalance) :=
  try_catch
    (newPublicKey env walletAddress ;;
     getParsedTokenAccountsByOwner env walletAddress)
    (fun _ =>
       emit (EvError (FetchingTokenAccounts walletAddress)) ;;
       ret []).

(** The branch of [updateWalletHoldings] taken without previous holdings. *)
Definition all_new (ts : Z) (tokens : list TokenBalance) : list TokenChange :=
  map (fun token =>
         {| change_mint := mint token;
            oldBalance := 0;
            newBalance := amount token;
            timestamp := ts;
            change_decimals := decimals token |}) tokens.

Definition updateWalletHoldings (env : Env) (walletAddress : string) : M (list TokenChange) :=
  tokens' <- getTokenAccounts env walletAddress ;;
  previousHoldings <- gets (fun s => OMap.get walletAddress (holdingsCache s)) ;;
  now <- gets clock ;;
  let currentHoldings :=
    {| address := walletAddress; tokens := tokens'; lastUpdated := now |} in
  let changes :=
    match previousHoldings with
    | Some previous => detectChanges (tokens previous) tokens' [] now
    | None => all_new now tokens'
    end in
  modify (with_holdingsCache (OMap.set walletAddress currentHoldings)) ;;
  ret changes.

(** [handlers?.forEach(handler => handler(changes)); emit("changes", ...)],
    guarded by [changes.length > 0]. *)
Definition dispatch (env : Env) (walletAddress : string) (changes : list TokenChange) : M unit :=
  match changes with
  | [] => ret tt
  | _ :: _ =>
      currentHandlers <- gets (fun s => OMap.get walletAddress (eventHandlers s)) ;;
      match currentHandlers with
      | Some handlers => for_of handlers (invoke env changes)
      | None => ret tt
      end ;;
      emit (EvChanges walletAddress changes)
  end.

(** The handler that [setupWebSocketSubscription] passes to [onAccountChange]. *)
Definition onAccountChange_handler (env : Env) (walletAddress : string) : M unit :=
  try_catch
    (startTime <- gets clock ;;
     changes <- updateWalletHoldings env walletAddress ;;
     endTime <- gets clock ;;
     modify (with_updateLatencies (fun l => l ++ [endTime - startTime])) ;;
     dispatch env walletAddress changes ;;
     modify (with_updateCount Z.succ))
    (fun _ =>
       modify (with_errorCount Z.succ) ;;
       emit (EvError ProcessingWalletUpdate)).

Definition setupWebSocketSubscription (env : Env) (walletAddress : string)
    (callback : Callback) : M unit :=
  if negb (validateAddress env walletAddress) then throw InvalidWalletAddress
  else
    subscribed <- gets (fun s => OMap.has walletAddress (subscriptions s)) ;;
    if subscribed then
      handlers <- gets (fun s => match OMap.get walletAddress (eventHandlers s) with
                                 | Some h => h
                                 | None => []
                                 end) ;;
      modify (with_eventHandlers (OMap.set walletAddress (set_add callback handlers)))
    else
      try_catch
        (newPublicKey env walletAddress ;;
         modify (with_eventHandlers (OMap.set walletAddress [callback])) ;;
         subscriptionId <- onAccountChange env walletAddress ;;
         modify (with_subscriptions (OMap.set walletAddress subscriptionId)) ;;
         _ <- updateWalletHoldings env walletAddress ;;
         emit (EvSubscribed walletAddress))
        (fun e =>
           emit (EvError SetupSubscription) ;;
           throw e).

Definition removeSubscription (env : Env) (walletAddress : string) : M unit :=
  subscriptionId <- gets (fun s => OMap.get walletAddress (subscriptions s)) ;;
  match subscriptionId with
  | None => ret tt
  | Some O => ret tt    (* [!subscriptionId] also holds for the id 0 *)
  | Some id =>
      try_catch
        (removeAccountChangeListener env id ;;
         modify (with_subscriptions (OMap.delete walletAddress)) ;;
         modify (with_eventHandlers (OMap.delete walletAddress)) ;;
         modify (with_holdingsCache (OMap.delete walletAddress)) ;;
         emit (EvUnsubscribed walletAddress))
        (fun e =>
           emit (EvError RemovingSubscription) ;;
           throw e)
  end.

(** [await Promise.all(entries.map(([address, id]) => remove(id)))]: every
    removal is started; the call rejects with the first failure. *)
Definition remove_all (env : Env) (entries : list (string * nat)) : M unit :=
  modify (with_listeners
            (filter (fun w => negb (existsb (fun e => Nat.eqb (snd e) (fst w) && cancel_ok env (snd e))
                                            entries)))) ;;
  match find (fun e => negb (cancel_ok env (snd e))) entries with
  | Some e => throw (WatchCancelFailed (snd e))
  | None => ret tt
  end.

Definition shutdown (env : Env) : M unit :=
  try_catch
    (entries <- gets subscriptions ;;
     remove_all env entries ;;
     modify (with_subscriptions (fun _ => [])) ;;
     modify (with_eventHandlers (fun _ => [])) ;;
     modify (with_holdingsCache (fun _ => [])) ;;
     modify (with_updateLatencies (fun _ => [])) ;;
     emit EvShutdown)
    (fun e =>
       emit (EvError DuringShutdown) ;;
       throw e).

Definition pauseTracking (env : Env) : M unit :=
  paused <- gets isPaused ;;
  if paused then ret tt
  else
    try_catch
      (entries <- gets subscriptions ;;
       for_of entries (fun entry =>
         removeAccountChangeListener env (snd entry) ;;
         modify (with_subscriptions (OMap.delete (fst entry)))) ;;
       modify (with_isPaused true) ;;
       emit EvPaused)
      (fun e =>
         emit (EvError PausingTracking) ;;
         throw e).

(** One round of the outer loop of [resumeTracking]. *)
Definition resubscribe (env : Env) (address : string) : M unit :=
  handlers <- gets (fun s => OMap.get address (eventHandlers s)) ;;
  match handlers with
  | Some hs => for_of hs (setupWebSocketSubscription env address)
  | None => ret tt
  end.

Definition resumeTracking (env : Env) : M unit :=
  paused <- gets isPaused ;;
  if negb paused then ret tt
  else
    try_catch
      (addresses <- gets (fun s => OMap.keys (holdingsCache s)) ;;
       for_of addresses (resubscribe env) ;;
       modify (with_isPaused false) ;;
       emit EvResumed)
      (fun e =>
         emit (EvError ResumingTracking) ;;
         throw e).

(** One element of [refreshPromises]. *)
Definition refresh_one (env : Env) (address : string) : M unit :=
  try_catch
    (changes <- updateWalletHoldings env address ;;
     dispatch env address changes)
    (fun _ => emit (EvError (RefreshingHoldingsFor address))).

(** The per-address refreshes are started together in the source; each one
    touches only its own cache entry, and they are run here in key order. *)
Definition refreshAllHoldings (env : Env) : M unit :=
  try_catch
    (addresses <- gets (fun s => OMap.keys (holdingsCache s)) ;;
     for_of addresses (refresh_one env) ;;
     emit EvRefreshed)
    (fun e =>
       emit (EvError RefreshingHoldings) ;;
       throw e).

(** The connection delivers an account-change notification to the live
    listener [subscriptionId]. *)
Definition notify (env : Env) (subscriptionId : nat) : M unit :=
  live <- gets (fun s => find (fun w => Nat.eqb (fst w) subscriptionId) (listeners s)) ;;
  match live with
  | Some w => onAccountChange_handler env (snd w)
  | None => ret tt
  end.

(** Staleness threshold of [checkHealth], in milliseconds. *)
Definition STALE_AFTER_MS : Z := 5 * 60 * 1000.

(** Body of the scan over [holdingsCache.values()]. *)
Definition newest (lastUpdate : option Z) (holdings : WalletHoldings) : option Z :=
  match lastUpdate with
  | None => Some (lastUpdated holdings)
  | Some lu =>
      if lu <? lastUpdated holdings then Some (lastUpdated holdings) else Some lu
  end.

(** [checkHealth]: it mutates nothing; [Date.now()] is the clock.  The three
    checks share one [try] block whose first statement is the probe, and the
    [catch] pushes the connection error. *)
Definition checkHealth (env : Env) (s : State) : HealthStatus :=
  let '(lastUpdate, errors) :=
    if probe_ok env then
      let lastUpdate := fold_left newest (OMap.values (holdingsCache s)) None in
      let errors : list HealthError := [] in
      let errors :=
        match lastUpdate with
        | Some lu =>
            if STALE_AFTER_MS <? clock s - lu then errors ++ [StaleData] else errors
        | None => errors
        end in
      let activeSubscriptions := OMap.size (subscriptions s) in
      let expectedSubscriptions := OMap.size (eventHandlers s) in
      let errors :=
        if negb (Nat.eqb activeSubscriptions expectedSubscriptions)
        then errors ++ [SubscriptionMismatch activeSubscriptions expectedSubscriptions]
        else errors in
      (lastUpdate, errors)
    else (None, [ConnectionError]) in
  {| status :=
       if Nat.eqb (List.length errors) 0 then healthy
       else if Nat.ltb (List.length errors) 2 then degraded
       else unhealthy;
     activeSubscriptions := OMap.size (subscriptions s);
     cachedWallets := OMap.size (holdingsCache s);
     lastUpdate := lastUpdate;
     errors := errors |}.

(** Division of JS numbers.  [a / b] on binary64 values is the double nearest
    to the exact quotient, ties going to the even significand. *)

(** The integer nearest to [a / b], ties to even, for [0 < b]. *)
Definition round_half_even (a b : Z) : Z :=
  let q := a / b in
  let r := a mod b in
  if 2 * r <? b then q
  else if b <? 2 * r then q + 1
  else if Z.even q then q else q + 1.

(** The exponent [e] with [2^e <= n / d < 2^(e+1)], for positive [n] and [d]. *)
Definition quotient_exponent (n d : Z) : Z :=
  let k := Z.log2 n - Z.log2 d in
  if n * 2 ^ Z.max 0 (- k) <? d * 2 ^ Z.max 0 k then k - 1 else k.

(** The double nearest to [n / d] for positive [n] and [d]: the quotient is
    scaled into [2^52, 2^53), rounded to an integer significand of 53 bits,
    and scaled back.  (A quotient of two integers below 2^53 lies between
    2^-53 and 2^53, far inside the exponent range of binary64.) *)
Definition nearest_binary64 (n d : Z) : Q :=
  let sh := 52 - quotient_exponent n d in
  let m := round_half_even (n * 2 ^ Z.max 0 sh) (d * 2 ^ Z.max 0 (- sh)) in
  (inject_Z (m * 2 ^ Z.max 0 (- sh)) / inject_Z (2 ^ Z.max 0 sh))%Q.

(** The JS number [n / d] for integer-valued [n] and [d] with [0 < d]; both
    divisions of [getMetrics] are guarded by that test. *)
Definition js_div (n d : Z) : Q :=
  match n with
  | 0 => 0%Q
  | Z.pos _ => nearest_binary64 n d
  | Z.neg _ => (- nearest_binary64 (- n) d)%Q
  end.

Record Metrics := mkMetrics {
  updateLatency : Q;
  successRate : Q;
  metrics_errorCount : Z;
  totalUpdates : Z;
  metrics_activeSubscriptions : nat
}.

(** [getMetrics]; the samples are whole milliseconds, which [reduce] adds up
    exactly. *)
Definition getMetrics (s : State) : Metrics :=
  let avgLatency : Q :=
    if Nat.ltb 0 (List.length (updateLatencies s)) then
      js_div (fold_left (fun a b => (a + b)%Z) (updateLatencies s) 0%Z)
             (Z.of_nat (List.length (updateLatencies s)))
    else 0%Q in
  {| updateLatency := avgLatency;
     successRate :=
       if 0 <? updateCount s
       then js_div (updateCount s - errorCount s) (updateCount s)
       else 1%Q;
     metrics_errorCount := errorCount s;
     totalUpdates := updateCount s;
     metrics_activeSubscriptions := OMap.size (subscriptions s) |}.

(** ** Operations as a transition system *)

Inductive Op :=
| OpSubscribe (walletAddress : string) (callback : Callback)
| OpUnsubscribe (walletAddress : string)
| OpRefresh (walletAddress : string)
| OpNotify (subscriptionId : nat)
| OpPause
| OpResume
| OpRefreshAll
| OpShutdown.

Definition exec (env : Env) (op : Op) (s : State) : State :=
  match op with
  | OpSubscribe a cb => run (setupWebSocketSubscription env a cb) s
  | OpUnsubscribe a => run (removeSubscription env a) s
  | OpRefresh a => run (updateWalletHoldings env a) s
  | OpNotify id => run (notify env id) s
  | OpPause => run (pauseTracking env) s
  | OpResume => run (resumeTracking env) s
  | OpRefreshAll => run (refreshAllHoldings env) s
  | OpShutdown => run (shutdown env) s
  end.

(** ** Specification-side notions *)

(** The live watches the connection holds for an address. *)
Definition watches_of (a : string) (s : State) : list (nat * string) :=
  filter (fun w => String.eqb (snd w) a) (listeners s).

(** Consistency of the tracker with its connection. *)
Record wf (valid : string -> bool) (s : State) : Prop := mkWf {
  wf_recorded :
    forall id a, In (id, a) (listeners s) -> OMap.get a (subscriptions s) = Some id;
  wf_below :
    forall id a, In (id, a) (listeners s) -> (id < nextSubscriptionId s)%nat;
  wf_ids : NoDup (map fst (listeners s));
  wf_keys : NoDup (OMap.keys (subscriptions s));
  wf_handlers :
    forall a hs, OMap.get a (eventHandlers s) = Some hs ->
                 NoDup hs /\ hs <> [] /\ valid a = true
}.

(** What the specification calls the mint's state in a snapshot pair. *)
Definition changed (old new : list TokenBalance) (m : string) : bool :=
  match find_mint m old, find_mint m new with
  | None, None => false
  | Some p, Some c => negb (amount p =? amount c)
  | _, _ => true
  end.

Definition entries_for (m : string) (changes : list TokenChange) : list TokenChange :=
  filter (fun c => String.eqb (change_mint c) m) changes.

(** Entries pushed by the first loop of [detectChanges], and by the second. *)
Definition opened_or_moved (old : list TokenBalance) (ts : Z)
    (l : list TokenBalance) : list TokenChange :=
  flat_map (check_current old ts []) l.

Definition closed (new : list TokenBalance) (ts : Z)
    (l : list TokenBalance) : list TokenChange :=
  flat_map (check_removed new ts []) l.

(** Arithmetic mean as the specification words it: sum of the samples over
    their number. *)
Fixpoint total (samples : list Z) : Z :=
  match samples with
  | [] => 0
  | x :: rest => x + total rest
  end.

Definition mean (samples : list Z) : Q :=
  match samples with
  | [] => 0%Q
  | _ :: _ => (inject_Z (total samples) / inject_Z (Z.of_nat (List.length samples)))%Q
  end.

(** The rational a finite binary64 value of the Standard Library's
    [SpecFloat] stands for, and its division applied to two integers. *)
Definition rational_of_float (f : SpecFloat.spec_float) : option Q :=
  match f with
  | SpecFloat.S754_zero _ => Some 0%Q
  | SpecFloat.S754_finite sign m e =>
      let v := if 0 <=? e then inject_Z (Z.pos m * 2 ^ e)
               else (Z.pos m # Z.to_pos (2 ^ (- e)))%Q in
      Some (if sign then (- v)%Q else v)
  | _ => None
  end.

Definition binary64_div (n d : Z) : option Q :=
  rational_of_float
    (SpecFloat.SFdiv 53 1024
       (SpecFloat.binary_normalize 53 1024 n 0 false)
       (SpecFloat.binary_normalize 53 1024 d 0 false)).

Definition same_quotient (n d : Z) : bool :=
  match binary64_div n d with
  | Some q => Qeq_bool q (js_div n d)
  | None => false
  end.

(** What a read amounts to under the recovery policy of [getTokenAccounts]. *)
Definition read_failed (env : Env) (a : string) : bool :=
  if valid_address env a then
    match ledger env a with Some _ => false | None => true end
  else true.

Definition read_tokens (env : Env) (a : string) : list TokenBalance :=
  if valid_address env a then
    match ledger env a with Some l => l | None => [] end
  else [].

Definition read_time (env : Env) (a : string) (t : Z) : Z :=
  if valid_address env a then t + read_ms env a else t.

(** The change list a refresh computes against the cache. *)
Definition diff_against (previous : option WalletHoldings) (current : list TokenBalance)
    (ts : Z) : list TokenChange :=
  match previous with
  | Some p => detectChanges (tokens p) current [] ts
  | None => all_new ts current
  end.
(** The most recent [lastUpdated] among snapshots, as a maximum. *)
Definition most_recent (l : list WalletHoldings) : option Z :=
  match l with
  | [] => None
  | h :: rest => Some (fold_right Z.max (lastUpdated h) (map lastUpdated rest))
  end.

Definition is_stale (s : State) : bool :=
  match most_recent (OMap.values (holdingsCache s)) with
  | Some lu => STALE_AFTER_MS <? clock s - lu
  | None => false
  end.

Definition counts_differ (s : State) : bool :=
  negb (Nat.eqb (OMap.size (subscriptions s)) (OMap.size (eventHandlers s))).

Definition classify (n : nat) : Status :=
  match n with
  | O => healthy
  | S O => degraded
  | S (S _) => unhealthy
  end.

(** The effect of one read on the world. *)
Definition read_events (env : Env) (a : string) : list Event :=
  if read_failed env a then [EvError (FetchingTokenAccounts a)] else [].

Definition after_read (env : Env) (a : string) (s : State) : State :=
  with_emitted (fun log => log ++ read_events env a) (with_clock (read_time env a) s).

(** The snapshot a refresh stores, its change list, and the state it leaves. *)
Definition snapshot_of (env : Env) (a : string) (s : State) : WalletHoldings :=
  {| address := a;
     tokens := read_tokens env a;
     lastUpdated := read_time env a (clock s) |}.

Definition refresh_changes (env : Env) (a : string) (s : State) : list TokenChange :=
  diff_against (OMap.get a (holdingsCache s)) (read_tokens env a) (read_time env a (clock s)).

Definition after_refresh (env : Env) (a : string) (s : State) : State :=
  with_holdingsCache (OMap.set a (snapshot_of env a s)) (after_read env a s).

(** The state right after a first [subscribe] has opened its watch. *)
Definition watch_opened (a : string) (cb : Callback) (s : State) : State :=
  with_subscriptions (OMap.set a (nextSubscriptionId s))
    (with_listeners (fun l => l ++ [(nextSubscriptionId s, a)])
       (with_nextSubscriptionId S
          (with_eventHandlers (OMap.set a [cb]) s))).

(** The callback set of an address, empty when there is none. *)
Definition handlers_of (a : string) (s : State) : list Callback :=
  match OMap.get a (eventHandlers s) with
  | Some hs => hs
  | None => []
  end.

Definition deliveries (changes : list TokenChange) (hs : list Callback)
    : list (Callback * list TokenChange) :=
  map (fun h => (h, changes)) hs.

(** The first callback that throws on a batch, and the callbacks reached by
    [forEach] before it stops. *)
Definition first_thrower (env : Env) (changes : list TokenChange) (hs : list Callback)
    : option Callback :=
  find (fun h => negb (cb_returns env h changes)) hs.

Fixpoint served (env : Env) (changes : list TokenChange) (hs : list Callback)
    : list Callback :=
  match hs with
  | [] => []
  | h :: rest => if cb_returns env h changes then h :: served env changes rest else [h]
  end.

(** The cache holds for [a] what the ledger answered in [env]. *)
Definition refreshed (env : Env) (a : string) (s : State) : Prop :=
  exists t, OMap.get a (holdingsCache s) =
            Some {| address := a; tokens := read_tokens env a; lastUpdated := t |}.

(** A computation keeps a state predicate, whether it returns or throws. *)
Definition preserves {A} (P : State -> Prop) (m : M A) : Prop :=
  forall s, P s -> P (snd (m s)).

(** The state in which the notification handler dispatches: refreshed, with
    the latency sample appended. *)
Definition timed (env : Env) (a : string) (s : State) : State :=
  with_updateLatencies (fun l => l ++ [read_time env a (clock s) - clock s])
    (after_refresh env a s).

(** The entry reporting a fully closed position. *)
Definition closing (ts : Z) (p : TokenBalance) : TokenChange :=
  {| change_mint := mint p;
     oldBalance := amount p;
     newBalance := 0;
     timestamp := ts;
     change_decimals := decimals p |}.

(** The state [removeSubscription] leaves when it had a handle to cancel. *)
Definition unsubscribed (a : string) (id : nat) (s : State) : State :=
  with_emitted (fun log => log ++ [EvUnsubscribed a])
    (with_holdingsCache (OMap.delete a)
       (with_eventHandlers (OMap.delete a)
          (with_subscriptions (OMap.delete a)
             (with_listeners (filter (fun w => negb (Nat.eqb (fst w) id))) s)))).

(** Runs of operations, each in the world of its moment. *)
Fixpoint run_trace (tr : list (Env * Op)) (s : State) : State :=
  match tr with
  | [] => s
  | (env, op) :: rest => run_trace rest (exec env op s)
  end.

(** The loop of [pauseTracking] over a remaining list of entries, when every
    cancellation succeeds. *)
Definition cancel_all (entries : list (string * nat)) (s : State) : State :=
  with_subscriptions
    (fun m => fold_left (fun m e => OMap.delete (fst e) m) entries m)
    (with_listeners
       (fun l => fold_left
                   (fun l e => filter (fun w => negb (Nat.eqb (fst w) (snd e))) l)
                   entries l)
       s).

(** The state a successful [pauseTracking] leaves. *)
Definition paused_state (s : State) : State :=
  with_emitted (fun log => log ++ [EvPaused])
    (with_isPaused true
       (with_subscriptions (fun _ => [])
          (with_listeners (fun _ => []) s))).

Definition mem (a : string) (l : list string) : bool := existsb (String.eqb a) l.

(** What the outer loop of [resumeTracking] achieves over [addrs]: callback
    sets, pause flag and cached addresses are as before; an address gets a
    watch iff it had one or is visited and has callbacks; the cache entry of
    an address is refreshed iff a watch was opened for it. *)
Definition resumed_from (env : Env) (addrs : list string) (s s' : State) : Prop :=
  wf (valid_address env) s' /\
  eventHandlers s' = eventHandlers s /\
  isPaused s' = isPaused s /\
  OMap.keys (holdingsCache s') = OMap.keys (holdingsCache s) /\
  (forall b, OMap.has b (subscriptions s') =
             OMap.has b (subscriptions s) || (mem b addrs && OMap.has b (eventHandlers s))) /\
  (forall b, if negb (OMap.has b (subscriptions s)) && mem b addrs
                && OMap.has b (eventHandlers s)
             then refreshed env b s'
             else OMap.get b (holdingsCache s') = OMap.get b (holdingsCache s)).

(** Fixtures for the concrete scenarios. *)
Module Fixtures.

(** A world in which every call succeeds and every read takes 10 ms. *)
Definition calm (l : string -> option (list TokenBalance)) : Env :=
  mkEnv (fun _ => true) l (fun _ => 10) (fun _ => true) (fun _ => true) true
        (fun _ _ => true).

(** The same world with the ledger unreachable. *)
Definition offline : Env :=
  mkEnv (fun _ => true) (fun _ => None) (fun _ => 10) (fun _ => true) (fun _ => true) false
        (fun _ _ => true).

(** The same world in which callback 1 throws on every batch. *)
Definition cb1_throws (l : string -> option (list TokenBalance)) : Env :=
  mkEnv (fun _ => true) l (fun _ => 10) (fun _ => true) (fun _ => true) true
        (fun cb _ => negb (Nat.eqb cb 1)).

Definition holds (a : string) (l : list TokenBalance) (a' : string)
    : option (list TokenBalance) :=
  if String.eqb a a' then Some l else Some [].

Definition X1000 : list TokenBalance := [mkTokenBalance "X" 1000 6].
Definition X1500 : list TokenBalance := [mkTokenBalance "X" 1500 6].

End Fixtures.

(** ** Read-only queries of [WalletTracker] *)

(** [getBalance(walletAddress, tokenMint)]: [undefined] is [None]. *)
Definition getBalance (s : State) (walletAddress tokenMint : string) : option Z :=
  match OMap.get walletAddress (holdingsCache s) with
  | None => None
  | Some holdings => option_map amount (find_mint tokenMint (tokens holdings))
  end.

(** [new Set(l)] on strings: first occurrences, in order. *)
Definition set_of (l : list string) : list string :=
  fold_left (fun acc x => if mem x acc then acc else acc ++ [x]) l [].

Record WalletStats := mkWalletStats {
  totalTokens : nat;
  uniqueMints : nat;
  lastUpdateAge : Z;
  hasActivity : bool
}.

(** [getWalletStats(address)]; [Date.now()] is the clock. *)
Definition getWalletStats (s : State) (a : string) : option WalletStats :=
  match OMap.get a (holdingsCache s) with
  | None => None
  | Some holdings =>
      Some {| totalTokens := List.length (tokens holdings);
              uniqueMints := List.length (set_of (map mint (tokens holdings)));
              lastUpdateAge := clock s - lastUpdated holdings;
              hasActivity := existsb (fun t => 0 <? amount t) (tokens holdings) |}
  end.

(** ** The application around the tracker ([src/index.ts]) *)

(** [await new Promise(resolve => setTimeout(resolve, ms))] *)
Definition sleep (ms : Z) : M unit := modify (with_clock (fun t => t + ms)).

(** [WalletTrackingApp.handleUnhealthyState]: pause, wait, resume, refresh;
    a failure is logged and swallowed.  The three tracker calls each meet the
    world of their moment. *)
Definition handleUnhealthyState (envPause envResume envRefresh : Env) : M unit :=
  try_catch
    (pauseTracking envPause ;;
     sleep 5000 ;;
     resumeTracking envResume ;;
     refreshAllHoldings envRefresh)
    (fun _ => ret tt).

(** One firing of the interval set up by [setupHealthCheck]. *)
Definition healthCheckTick (shutdownRequested : bool)
    (envHealth envPause envResume envRefresh : Env) : M unit :=
  if shutdownRequested then ret tt
  else
    try_catch
      (health <- gets (checkHealth envHealth) ;;
       match status health with
       | healthy => ret tt
       | degraded => ret tt
       | unhealthy => handleUnhealthyState envPause envResume envRefresh
       end)
      (fun _ => ret tt).

(** The formatter local to [WalletTrackingApp.handleTokenChanges].  A bigint
    prints as its decimal digits, with a minus sign in front when negative. *)
Definition bigint_toString (z : Z) : string :=
  DecimalString.NilZero.string_of_int (Z.to_int z).

(** [c.repeat(n)] for a one-character string. *)
Fixpoint repeat_char (c : ascii) (n : nat) : string :=
  match n with
  | O => EmptyString
  | S k => String c (repeat_char c k)
  end.

(** [s.padStart(targetLength, c)]: nothing is added to a string that is
    already long enough. *)
Definition padStart (targetLength : nat) (c : ascii) (s : string) : string :=
  String.append (repeat_char c (targetLength - String.length s)) s.

(** [s.slice(i, j)] and [s.slice(i)] at indices that are not negative; both
    stop at the end of the string. *)
Definition slice (i j : nat) (s : string) : string := substring i (j - i) s.

Definition slice_from (i : nat) (s : string) : string :=
  substring i (String.length s - i) s.

(** [formatAmount(amount, decimals)]; [decimalPoint] is never negative, the
    padded string being longer than [decimals]. *)
Definition formatAmount (amount : Z) (decimals : nat) : string :=
  let amountStr := padStart (decimals + 1) "0" (bigint_toString amount) in
  let decimalPoint := (String.length amountStr - decimals)%nat in
  let beforeDecimal :=
    match slice 0 decimalPoint amountStr with
    | EmptyString => "0"%string
    | b => b
    end in
  let afterDecimal := slice_from decimalPoint amountStr in
  String.append beforeDecimal (String "." afterDecimal).

(** ** Configuration helpers ([src/config/config.ts]) *)

Record Wallet := mkWallet {
  wallet_name : string;
  wallet_address : string;
  wallet_emoji : string;
  wallet_tags : list string
}.

(** The helpers read the module constant [config.wallets]; it is their
    first argument here. *)
Definition getWalletByAddress (wallets : list Wallet) (a : string) : option Wallet :=
  find (fun wallet => String.eqb (wallet_address wallet) a) wallets.

Definition getAllWalletAddresses (wallets : list Wallet) : list string :=
  map wallet_address wallets.

Definition getUniqueWallets (wallets : list Wallet) : list Wallet :=
  OMap.values
    (fold_left
       (fun uniqueWallets wallet =>
          if negb (OMap.has (wallet_address wallet) uniqueWallets)
          then OMap.set (wallet_address wallet) wallet uniqueWallets
          else uniqueWallets)
       wallets []).

(** Body of the [forEach] of [validateWallets] over the pair
    ([addresses], [duplicates]). *)
Definition validate_step (acc : list string * list string) (wallet : Wallet)
    : list string * list string :=
  let addresses := fst acc in
  let duplicates := snd acc in
  let duplicates :=
    if mem (wallet_address wallet) addresses
    then duplicates ++ [wallet_address wallet]
    else duplicates in
  let addresses :=
    if mem (wallet_address wallet) addresses
    then addresses
    else addresses ++ [wallet_address wallet] in
  (addresses, duplicates).

Definition duplicate_addresses (wallets : list Wallet) : list string :=
  snd (fold_left validate_step wallets ([], [])).

Definition validateWallets (wallets : list Wallet) : bool :=
  Nat.eqb (List.length (duplicate_addresses wallets)) 0.

(** The duplicate test of [WalletTrackingApp.initialize]:
    [uniqueAddresses.size !== config.wallets.length]. *)
Definition initialize_sees_duplicates (wallets : list Wallet) : bool :=
  negb (Nat.eqb (List.length (set_of (map wallet_address wallets))) (List.length wallets)).

(** ** The retry loop of [SwapService.executeSwap] *)

(** What the [catch] block finds under [logs] on the value it caught. *)
Inductive ErrorLogs :=
| NoLogs
    (* not an [Error], or an [Error] without a [logs] property *)
| UnreadableLogs
    (* a [logs] property on which [logs.some(log => log.includes(...))]
       itself throws: [undefined], [null], not an array, or an array holding
       a non-string before any matching entry *)
| Logs (insufficientFunds : bool).
    (* an array of strings; whether one mentions insufficient funds *)

(** What one pass through the [try] block comes to.  Its body is network
    traffic; the loop only looks at how it ended. *)
Inductive AttemptOutcome :=
| Landed (txid : string)
    (* [return txid] is reached *)
| ConfirmationFailed (err : string)
    (* [confirmation?.value?.err] is set *)
| Threw (logs : ErrorLogs) (expired : bool) (message : string).
    (* an exception: its logs, whether its message mentions an exceeded block
       height or a confirmation timeout, and the message *)

Inductive SwapResult :=
| SwapSent (txid : string)
| InsufficientFundsForSwap
| LogsTypeError
    (* the [TypeError] raised by [logs.some] inside the [catch] block; nothing
       catches it *)
| SwapExecutionFailed (message : string)
| MaxRetriesExceeded.

Record SwapRun := mkSwapRun {
  swap_result : SwapResult;
  swap_attempts : nat;        (* passes through the [try] block *)
  swap_waits : list Z         (* the [setTimeout] delays awaited, in ms *)
}.

Definition MAX_RETRIES : nat := 3.

(** The [while (attempt < MAX_RETRIES)] loop; [fuel] bounds the iterations of
    the model, [outcome attempt] is how the pass numbered [attempt] ends. *)
Fixpoint swap_loop (fuel : nat) (outcome : nat -> AttemptOutcome)
    (attempt passes : nat) (waits : list Z) : option SwapRun :=
  match fuel with
  | O => None
  | S fuel' =>
      if Nat.ltb attempt MAX_RETRIES then
        match outcome attempt with
        | Landed txid => Some (mkSwapRun (SwapSent txid) (S passes) waits)
        | ConfirmationFailed err =>
            if Nat.ltb attempt (MAX_RETRIES - 1) then
              swap_loop fuel' outcome (S attempt) (S passes) (waits ++ [1000])
            else
              (* the throw is caught by the [catch] below it, which can no
                 longer retry *)
              Some (mkSwapRun
                      (SwapExecutionFailed (String.append "Transaction failed: " err))
                      (S passes) waits)
        | Threw UnreadableLogs _ _ =>
            Some (mkSwapRun LogsTypeError (S passes) waits)
        | Threw (Logs true) _ _ =>
            Some (mkSwapRun InsufficientFundsForSwap (S passes) waits)
        | Threw _ expired message =>
            if expired && Nat.ltb attempt (MAX_RETRIES - 1) then
              swap_loop fuel' outcome (S attempt) (S passes) waits
            else if Nat.ltb attempt (MAX_RETRIES - 1) then
              swap_loop fuel' outcome (S attempt) (S passes)
                        (waits ++ [2 ^ Z.of_nat (S attempt) * 1000])
            else
              Some (mkSwapRun (SwapExecutionFailed message) (S passes) waits)
        end
      else Some (mkSwapRun MaxRetriesExceeded passes waits)
  end.

Definition executeSwap (outcome : nat -> AttemptOutcome) : option SwapRun :=
  swap_loop (S MAX_RETRIES) outcome 0 0 [].

(** ** Further specification-side notions *)

(** A balance as a consumer of change events reads it: 0 when nothing is held. *)
Definition balance_or_0 (b : option Z) : Z :=
  match b with Some z => z | None => 0 end.

(** The counters and the sample list fit together. *)
Definition metrics_ok (s : State) : Prop :=
  0 <= updateCount s /\ 0 <= errorCount s /\
  Z.of_nat (List.length (updateLatencies s)) <= updateCount s + errorCount s.

(** Nothing has been handed to a callback and no change batch emitted beyond
    what [d] and [log] record. *)
Definition quiet_since (d : list (Callback * list TokenChange)) (log : list Event)
    (s : State) : Prop :=
  delivered s = d /\
  forall a batch, In (EvChanges a batch) (emitted s) -> In (EvChanges a batch) log.

(** Every cached snapshot holds what the ledger answers in [env]. *)
Definition in_sync (env : Env) (s : State) : Prop :=
  forall a h, OMap.get a (holdingsCache s) = Some h -> tokens h = read_tokens env a.

(** A pass the loop of [executeSwap] may retry after. *)
Definition retryable (o : AttemptOutcome) : bool :=
  match o with
  | Landed _ => false
  | ConfirmationFailed _ => true
  | Threw NoLogs _ _ => true
  | Threw (Logs false) _ _ => true
  | Threw _ _ _ => false
  end.

(** The delay the loop of [executeSwap] awaits after the pass numbered [j]
    when it retries. *)
Definition wait_after (j : nat) (o : AttemptOutcome) : list Z :=
  match o with
  | ConfirmationFailed _ => [1000]
  | Threw NoLogs false _ => [2 ^ Z.of_nat (S j) * 1000]
  | Threw (Logs false) false _ => [2 ^ Z.of_nat (S j) * 1000]
  | _ => []
  end.

Fixpoint sum_waits (l : list Z) : Z :=
  match l with
  | [] => 0
  | x :: rest => x + sum_waits rest
  end.

(** ** Facts about insertion-ordered maps *)

Module OMapFacts.
Import OMap.

Section Facts.
Context {V : Type}.
Implicit Types (m : OMap.t V) (k : string) (v : V).

Lemma get_set_eq k v m : get k (set k v m) = Some v.
Proof.
  induction m as [|[k' v'] m IH]; simpl.
  - now rewrite String.eqb_refl.
  - destruct (String.eqb k k') eqn:E; simpl; rewrite ?E, ?String.eqb_refl; auto.
Qed.

Lemma get_set_ne k k' v m : k <> k' -> get k' (set k v m) = get k' m.
Proof.
  intros Hne. induction m as [|[k0 v0] m IH]; simpl.
  - destruct (String.eqb k' k) eqn:E; auto.
    apply String.eqb_eq in E. congruence.
  - destruct (String.eqb k k0) eqn:E; simpl.
    + apply String.eqb_eq in E. subst k0.
      destruct (String.eqb k' k) eqn:E'; auto.
      apply String.eqb_eq in E'. congruence.
    + destruct (String.eqb k' k0); auto.
Qed.

Lemma get_delete_eq k m : get k (delete k m) = None.
Proof.
  induction m as [|[k' v'] m IH]; simpl; auto.
  destruct (String.eqb k k') eqn:E; simpl; auto. now rewrite E.
Qed.

Lemma get_delete_ne k k' m : k <> k' -> get k' (delete k m) = get k' m.
Proof.
  intros Hne. induction m as [|[k0 v0] m IH]; simpl; auto.
  destruct (String.eqb k k0) eqn:E; simpl.
  - apply String.eqb_eq in E. subst k0.
    destruct (String.eqb k' k) eqn:E'; auto.
    apply String.eqb_eq in E'. congruence.
  - now rewrite IH.
Qed.

Lemma set_same k v m : get k m = Some v -> set k v m = m.
Proof.
  induction m as [|[k' v'] m IH]; simpl; try discriminate.
  destruct (String.eqb k k') eqn:E.
  - apply String.eqb_eq in E. intros [= ->]. now subst.
  - intros H. now rewrite IH.
Qed.

Lemma set_set k v v' m : set k v (set k v' m) = set k v m.
Proof.
  induction m as [|[k0 v0] m IH]; simpl.
  - now rewrite String.eqb_refl.
  - destruct (String.eqb k k0) eqn:E; simpl; rewrite ?E, ?String.eqb_refl; auto.
    now rewrite IH.
Qed.

Lemma keys_set_present k v m : has k m = true -> keys (set k v m) = keys m.
Proof.
  unfold has, keys. induction m as [|[k0 v0] m IH]; simpl; try discriminate.
  destruct (String.eqb k k0) eqn:E; simpl.
  - apply String.eqb_eq in E. now subst.
  - intros H. now rewrite IH.
Qed.

Lemma keys_set_fresh k v m : has k m = false -> keys (set k v m) = keys m ++ [k].
Proof.
  unfold has, keys. induction m as [|[k0 v0] m IH]; simpl; auto.
  destruct (String.eqb k k0) eqn:E; simpl; try discriminate.
  intros H. now rewrite IH.
Qed.

Lemma has_keys k m : has k m = true <-> In k (keys m).
Proof.
  unfold has, keys. induction m as [|[k0 v0] m IH]; simpl.
  - split; [discriminate | tauto].
  - destruct (String.eqb k k0) eqn:E.
    + apply String.eqb_eq in E. subst. tauto.
    + rewrite IH. apply String.eqb_neq in E. split; [tauto|].
      intros [H|H]; [congruence | assumption].
Qed.

Lemma keys_delete k m :
  keys (delete k m) = filter (fun k' => negb (String.eqb k k')) (keys m).
Proof.
  unfold keys, delete. induction m as [|[k0 v0] m IH]; simpl; auto.
  destruct (String.eqb k k0); simpl; now rewrite IH.
Qed.

Lemma get_In k v m : get k m = Some v -> In (k, v) m.
Proof.
  induction m as [|[k0 v0] m IH]; simpl; try discriminate.
  destruct (String.eqb k k0) eqn:E.
  - apply String.eqb_eq in E. intros [= ->]. subst. now left.
  - intros H. right. auto.
Qed.

Lemma In_get k v m : NoDup (keys m) -> In (k, v) m -> get k m = Some v.
Proof.
  unfold keys. induction m as [|[k0 v0] m IH]; simpl; [tauto|].
  intros Hnd [H|H].
  - injection H as -> ->. now rewrite String.eqb_refl.
  - inversion Hnd as [|? ? Hnotin Hnd']; subst.
    destruct (String.eqb k k0) eqn:E.
    + apply String.eqb_eq in E. subst k0. exfalso. apply Hnotin.
      change k with (fst (k, v)). now apply in_map.
    + auto.
Qed.

Lemma NoDup_keys_set k v m : NoDup (keys m) -> NoDup (keys (set k v m)).
Proof.
  intros Hnd. destruct (has k m) eqn:E.
  - now rewrite keys_set_present.
  - rewrite keys_set_fresh by assumption.
    apply NoDup_app; [assumption | repeat constructor; simpl; tauto |].
    intros x Hx [<-|[]]. apply has_keys in Hx. congruence.
Qed.

Lemma NoDup_keys_delete k m : NoDup (keys m) -> NoDup (keys (delete k m)).
Proof. intros Hnd. rewrite keys_delete. now apply NoDup_filter. Qed.

Lemma get_none_all m : (forall k, get k m = None) -> m = [].
Proof.
  destruct m as [|[k v] m]; auto.
  intros H. specialize (H k). simpl in H. now rewrite String.eqb_refl in H.
Qed.
End Facts.

End OMapFacts.

(** ** The diff engine *)

Section Diff.
Variables (old new : list TokenBalance) (ts : Z).

Lemma opened_cons c l :
  opened_or_moved old ts (c :: l) = check_current old ts [] c ++ opened_or_moved old ts l.
Proof. reflexivity. Qed.

Lemma closed_cons p l :
  closed new ts (p :: l) = check_removed new ts [] p ++ closed new ts l.
Proof. reflexivity. Qed.

Lemma check_current_push acc c :
  check_current old ts acc c = acc ++ check_current old ts [] c.
Proof.
  unfold check_current.
  destruct (find_mint (mint c) old) as [p|]; simpl.
  - destruct (negb (amount p =? amount c)); simpl; auto using app_nil_r.
  - reflexivity.
Qed.

Lemma check_removed_push acc p :
  check_removed new ts acc p = acc ++ check_removed new ts [] p.
Proof.
  unfold check_removed.
  destruct (negb (some_mint (mint p) new)); simpl; auto using app_nil_r.
Qed.

Lemma first_loop l acc :
  fold_left (check_current old ts) l acc = acc ++ opened_or_moved old ts l.
Proof.
  revert acc. induction l as [|c l IH]; intros acc.
  - simpl. now rewrite app_nil_r.
  - cbn [fold_left]. rewrite IH, check_current_push, opened_cons.
    now rewrite <- app_assoc.
Qed.

Lemma second_loop l acc :
  fold_left (check_removed new ts) l acc = acc ++ closed new ts l.
Proof.
  revert acc. induction l as [|p l IH]; intros acc.
  - simpl. now rewrite app_nil_r.
  - cbn [fold_left]. rewrite IH, check_removed_push, closed_cons.
    now rewrite <- app_assoc.
Qed.

Lemma detectChanges_split acc :
  detectChanges old new acc ts = acc ++ opened_or_moved old ts new ++ closed new ts old.
Proof.
  unfold detectChanges. rewrite first_loop, second_loop. now rewrite app_assoc.
Qed.

Lemma some_mint_find m l :
  some_mint m l = match find_mint m l with Some _ => true | None => false end.
Proof.
  unfold some_mint, find_mint. induction l as [|t l IH]; simpl; auto.
  destruct (String.eqb (mint t) m); auto.
Qed.

Lemma find_mint_In m l t : find_mint m l = Some t -> In t l /\ mint t = m.
Proof.
  unfold find_mint. intros H. apply find_some in H.
  now rewrite String.eqb_eq in H.
Qed.

Lemma find_mint_absent m l : find_mint m l = None <-> ~ In m (map mint l).
Proof.
  unfold find_mint. induction l as [|t l IH]; simpl; [tauto|].
  destruct (String.eqb (mint t) m) eqn:E.
  - apply String.eqb_eq in E. split; [discriminate | tauto].
  - apply String.eqb_neq in E. rewrite IH. tauto.
Qed.

Lemma In_find_mint t l : In t l -> find_mint (mint t) l <> None.
Proof.
  intros Hin Hnone. apply find_mint_absent in Hnone. apply Hnone. now apply in_map.
Qed.

Lemma entries_for_app m l1 l2 :
  entries_for m (l1 ++ l2) = entries_for m l1 ++ entries_for m l2.
Proof. apply filter_app. Qed.

Lemma opened_absent m l : ~ In m (map mint l) -> entries_for m (opened_or_moved old ts l) = [].
Proof.
  induction l as [|c l IH]; [reflexivity|].
  cbn [map]. intros Hn. rewrite opened_cons, entries_for_app, IH by (simpl in Hn; tauto).
  simpl in Hn.
  rewrite app_nil_r. unfold check_current.
  assert (E : String.eqb (mint c) m = false) by (apply String.eqb_neq; tauto).
  destruct (find_mint (mint c) old) as [p|]; simpl.
  - destruct (negb (amount p =? amount c)); simpl; auto. now rewrite E.
  - now rewrite E.
Qed.

Lemma closed_absent m l : ~ In m (map mint l) -> entries_for m (closed new ts l) = [].
Proof.
  induction l as [|p l IH]; [reflexivity|].
  cbn [map]. intros Hn. rewrite closed_cons, entries_for_app, IH by (simpl in Hn; tauto).
  simpl in Hn.
  rewrite app_nil_r. unfold check_removed.
  assert (E : String.eqb (mint p) m = false) by (apply String.eqb_neq; tauto).
  destruct (negb (some_mint (mint p) new)); simpl; auto. now rewrite E.
Qed.

(** Entries the first loop pushes for a mint, when mints are unique. *)
Lemma opened_count m l :
  NoDup (map mint l) ->
  List.length (entries_for m (opened_or_moved old ts l)) =
  match find_mint m l with
  | None => 0%nat
  | Some c =>
      match find_mint m old with
      | None => 1%nat
      | Some p => if amount p =? amount c then 0%nat else 1%nat
      end
  end.
Proof.
  induction l as [|c l IH]; [reflexivity|].
  cbn [map]. intros Hnd. inversion Hnd as [|? ? Hnotin Hnd']; subst.
  rewrite opened_cons, entries_for_app, length_app.
  unfold find_mint at 1. cbn [find]. fold (find_mint m l).
  destruct (String.eqb (mint c) m) eqn:E.
  - apply String.eqb_eq in E. subst m.
    rewrite (opened_absent (mint c) l Hnotin). simpl. rewrite Nat.add_0_r.
    unfold check_current.
    destruct (find_mint (mint c) old) as [p|]; simpl.
    + destruct (amount p =? amount c); simpl; auto. now rewrite String.eqb_refl.
    + now rewrite String.eqb_refl.
  - rewrite IH by assumption.
    replace (entries_for m (check_current old ts [] c)) with (@nil TokenChange); auto.
    unfold check_current.
    destruct (find_mint (mint c) old) as [p|]; simpl.
    + destruct (negb (amount p =? amount c)); simpl; auto. now rewrite E.
    + now rewrite E.
Qed.

(** Entries the second loop pushes for a mint, when mints are unique. *)
Lemma closed_count m l :
  NoDup (map mint l) ->
  List.length (entries_for m (closed new ts l)) =
  match find_mint m l with
  | None => 0%nat
  | Some _ => match find_mint m new with None => 1%nat | Some _ => 0%nat end
  end.
Proof.
  induction l as [|p l IH]; [reflexivity|].
  cbn [map]. intros Hnd. inversion Hnd as [|? ? Hnotin Hnd']; subst.
  rewrite closed_cons, entries_for_app, length_app.
  unfold find_mint at 1. cbn [find]. fold (find_mint m l).
  destruct (String.eqb (mint p) m) eqn:E.
  - apply String.eqb_eq in E. subst m.
    rewrite (closed_absent (mint p) l Hnotin). simpl. rewrite Nat.add_0_r.
    unfold check_removed. rewrite some_mint_find.
    destruct (find_mint (mint p) new); simpl; auto. now rewrite String.eqb_refl.
  - rewrite IH by assumption.
    replace (entries_for m (check_removed new ts [] p)) with (@nil TokenChange); auto.
    unfold check_removed.
    destruct (negb (some_mint (mint p) new)); simpl; auto. now rewrite E.
Qed.

Lemma opened_In c :
  In c new ->
  In {| change_mint := mint c;
        oldBalance := match find_mint (mint c) old with Some p => amount p | None => 0 end;
        newBalance := amount c;
        timestamp := ts;
        change_decimals := decimals c |} (opened_or_moved old ts new)
  \/ (exists p, find_mint (mint c) old = Some p /\ amount p = amount c).
Proof.
  intros Hin. unfold opened_or_moved.
  destruct (find_mint (mint c) old) as [p|] eqn:F.
  - destruct (amount p =? amount c) eqn:E.
    + right. exists p. split; auto. now apply Z.eqb_eq.
    + left. apply in_flat_map. exists c. split; auto.
      unfold check_current. rewrite F, E. simpl. now left.
  - left. apply in_flat_map. exists c. split; auto.
    unfold check_current. rewrite F. simpl. now left.
Qed.

Lemma closed_In p :
  In p old -> find_mint (mint p) new = None ->
  In {| change_mint := mint p;
        oldBalance := amount p;
        newBalance := 0;
        timestamp := ts;
        change_decimals := decimals p |} (closed new ts old).
Proof.
  intros Hin Hnone. unfold closed. apply in_flat_map. exists p. split; auto.
  unfold check_removed. rewrite some_mint_find, Hnone. simpl. now left.
Qed.

Lemma entry_shape e :
  In e (opened_or_moved old ts new ++ closed new ts old) ->
  (find_mint (change_mint e) new = None -> newBalance e = 0) /\
  (find_mint (change_mint e) old = None -> oldBalance e = 0).
Proof.
  intros Hin. apply in_app_or in Hin. destruct Hin as [Hin|Hin].
  - unfold opened_or_moved in Hin. apply in_flat_map in Hin.
    destruct Hin as [c [Hc He]]. unfold check_current in He.
    destruct (find_mint (mint c) old) as [p|] eqn:F.
    + destruct (negb (amount p =? amount c)); simpl in He; [|tauto].
      destruct He as [<-|[]]. simpl. split.
      * intros H. now apply In_find_mint in Hc.
      * congruence.
    + simpl in He. destruct He as [<-|[]]. simpl. split; auto.
      intros H. now apply In_find_mint in Hc.
  - unfold closed in Hin. apply in_flat_map in Hin.
    destruct Hin as [p [Hp He]]. unfold check_removed in He.
    destruct (negb (some_mint (mint p) new)); simpl in He; [|tauto].
    destruct He as [<-|[]]. simpl. split; auto.
    intros H. now apply In_find_mint in Hp.
Qed.

End Diff.

(** C1. For two snapshots (mints unique within each, as the data model
    requires of a snapshot), [detectChanges] pushes exactly one entry for
    every mint that appeared, disappeared or changed amount and none for any
    other mint.  The entry of a mint of [new] that is absent from [old] or
    whose amount differs carries the old amount (0 when absent) and the new
    amount; the entry of a mint of [old] absent from [new] carries the old
    amount and 0; so a closed position has [newBalance = 0] and an opened one
    [oldBalance = 0].  Amounts are compared exactly. *)
Theorem detectChanges_exact :
  forall (old new : list TokenBalance) (ts : Z),
    let d := detectChanges old new [] ts in
    (NoDup (map mint old) -> NoDup (map mint new) ->
     forall m, List.length (entries_for m d) = if changed old new m then 1%nat else 0%nat) /\
    (forall c, In c new ->
       (find_mint (mint c) old = None \/
        exists p, find_mint (mint c) old = Some p /\ amount p <> amount c) ->
       In {| change_mint := mint c;
             oldBalance := match find_mint (mint c) old with
                           | Some p => amount p
                           | None => 0
                           end;
             newBalance := amount c;
             timestamp := ts;
             change_decimals := decimals c |} d) /\
    (forall p, In p old -> find_mint (mint p) new = None ->
       In {| change_mint := mint p;
             oldBalance := amount p;
             newBalance := 0;
             timestamp := ts;
             change_decimals := decimals p |} d) /\
    (forall e, In e d ->
       (find_mint (change_mint e) new = None -> newBalance e = 0) /\
       (find_mint (change_mint e) old = None -> oldBalance e = 0)).
Proof.
  intros old new ts d. subst d. rewrite detectChanges_split. simpl.
  split; [|split; [|split]].
  - intros Hold Hnew m. rewrite entries_for_app, length_app.
    rewrite opened_count, closed_count by assumption.
    unfold changed.
    destruct (find_mint m new) as [c|], (find_mint m old) as [p|]; simpl; auto.
    destruct (amount p =? amount c); reflexivity.
  - intros c Hc Hdiff. apply in_or_app. left.
    destruct (opened_In old new ts c Hc) as [H|[p [Hp Heq]]]; auto.
    destruct Hdiff as [Hn|[p' [Hp' Hne]]]; congruence.
  - intros p Hp Hnone. apply in_or_app. right. now apply closed_In.
  - intros e He. now apply (entry_shape old new ts).
Qed.

(** A pair of snapshots covering the four cases: kept, moved, opened, closed. *)
Lemma detectChanges_exact_witness :
  let old := [mkTokenBalance "X" 1000 6; mkTokenBalance "Y" 5 0; mkTokenBalance "Z" 7 2] in
  let new := [mkTokenBalance "X" 1500 6; mkTokenBalance "Y" 5 0; mkTokenBalance "W" 1 9] in
  detectChanges old new [] 42 =
    [mkTokenChange "X" 1000 1500 42 6; mkTokenChange "W" 0 1 42 9; mkTokenChange "Z" 7 0 42 2] /\
  forall m, List.length (entries_for m (detectChanges old new [] 42)) =
            if changed old new m then 1%nat else 0%nat.
Proof.
  intros old new. split; [vm_compute; reflexivity|].
  refine (proj1 (detectChanges_exact old new 42) _ _).
  - repeat constructor; simpl; intuition discriminate.
  - repeat constructor; simpl; intuition discriminate.
Defined.

(** ** Health classification *)

Lemma newest_max l acc :
  fold_left newest l (Some acc) = Some (fold_right Z.max acc (map lastUpdated l)).
Proof.
  revert acc. induction l as [|h l IH]; intros acc; simpl; auto.
  destruct (acc <? lastUpdated h) eqn:E; rewrite IH; f_equal.
  - apply Z.ltb_lt in E. clear IH. revert acc E.
    induction l as [|h' l IH]; intros acc E; simpl; [lia|].
    specialize (IH acc). lia.
  - apply Z.ltb_ge in E. clear IH. revert acc E.
    induction l as [|h' l IH]; intros acc E; simpl; [lia|].
    specialize (IH acc). lia.
Qed.

Lemma scan_most_recent l : fold_left newest l None = most_recent l.
Proof. destruct l as [|h l]; simpl; auto. apply newest_max. Qed.

Lemma most_recent_is_max l m :
  most_recent l = Some m ->
  (exists h, In h l /\ lastUpdated h = m) /\ (forall h, In h l -> lastUpdated h <= m).
Proof.
  destruct l as [|h0 l]; simpl; [discriminate|]. intros [= <-].
  revert h0. induction l as [|h1 l IH]; intros h0; simpl.
  - split; [exists h0; auto | intros h [<-|[]]; lia].
  - destruct (IH h0) as [[h [Hin Hh]] Hle]. split.
    + destruct (Z.max_spec (lastUpdated h1)
                  (fold_right Z.max (lastUpdated h0) (map lastUpdated l))) as [[_ ->]|[_ ->]].
      * exists h. simpl in Hin. tauto.
      * exists h1. auto.
    + intros h' [E|[E|Hin']].
      * specialize (Hle h' (or_introl E)). lia.
      * subst h'. lia.
      * specialize (Hle h' (or_intror Hin')). lia.
Qed.

(** C3 (as the code has it). [checkHealth] probes first.  When the probe
    fails the only error is the connection error, the staleness and
    subscription checks are skipped, and the status is [degraded].  When the
    probe succeeds, a staleness error is pushed iff the most recent cached
    [lastUpdated] is more than 5 minutes before now, and a mismatch error iff
    the number of watch handles differs from the number of callback sets, each
    independently of the other.  The status is [healthy] for 0 errors,
    [degraded] for 1, [unhealthy] for 2 or more. *)
Theorem checkHealth_classification :
  forall (env : Env) (s : State),
    let h := checkHealth env s in
    errors h =
      (if probe_ok env then
         (if is_stale s then [StaleData] else []) ++
         (if counts_differ s
          then [SubscriptionMismatch (OMap.size (subscriptions s)) (OMap.size (eventHandlers s))]
          else [])
       else [ConnectionError]) /\
    lastUpdate h =
      (if probe_ok env then most_recent (OMap.values (holdingsCache s)) else None) /\
    status h = classify (List.length (errors h)) /\
    (probe_ok env = false -> List.length (errors h) = 1%nat /\ status h = degraded) /\
    (status h = unhealthy <-> probe_ok env = true /\ is_stale s = true /\ counts_differ s = true).
Proof.
  intros env s h. subst h. unfold checkHealth, is_stale, counts_differ.
  rewrite scan_most_recent.
  destruct (probe_ok env); simpl.
  - destruct (most_recent (OMap.values (holdingsCache s))) as [lu|]; simpl.
    + destruct (STALE_AFTER_MS <? clock s - lu);
        destruct (Nat.eqb (OMap.size (subscriptions s)) (OMap.size (eventHandlers s)));
        simpl; repeat split; try discriminate; intuition discriminate.
    + destruct (Nat.eqb (OMap.size (subscriptions s)) (OMap.size (eventHandlers s)));
        simpl; repeat split; try discriminate; intuition discriminate.
  - repeat split; try discriminate; intuition discriminate.
Qed.

(** A failed probe reports one error however stale the cache is. *)
Lemma checkHealth_classification_witness :
  let s := mkState [("A"%string, mkWalletHoldings "A" Fixtures.X1000 0)]
                   [] [] [] false 0 0 [] 0%nat 600000 [] [] in
  probe_ok Fixtures.offline = false /\
  List.length (errors (checkHealth Fixtures.offline s)) = 1%nat /\
  status (checkHealth Fixtures.offline s) = degraded.
Proof.
  intros s. split; [reflexivity|].
  exact (proj1 (proj2 (proj2 (proj2 (checkHealth_classification Fixtures.offline s))))
           eq_refl).
Defined.

(** C3 fails as stated: the probe fails, the most recent cached update is ten
    minutes old, and still a single error is returned and the status is
    [degraded], not [unhealthy]. *)
Lemma checkHealth_probe_failure_skips_staleness :
  let s := mkState [("A"%string, mkWalletHoldings "A" Fixtures.X1000 0)]
                   [] [] [] false 0 0 [] 0%nat 600000 [] [] in
  probe_ok Fixtures.offline = false /\
  most_recent (OMap.values (holdingsCache s)) = Some 0 /\
  STALE_AFTER_MS < clock s - 0 /\
  errors (checkHealth Fixtures.offline s) = [ConnectionError] /\
  status (checkHealth Fixtures.offline s) = degraded /\
  ~ ((2 <= List.length (errors (checkHealth Fixtures.offline s)))%nat /\
     status (checkHealth Fixtures.offline s) = unhealthy).
Proof.
  intros s. repeat split; try reflexivity.
  intros [_ H]. discriminate H.
Qed.

(** ** Metrics *)

Lemma reduce_total l acc : fold_left (fun a b => a + b) l acc = acc + total l.
Proof.
  revert acc. induction l as [|x l IH]; intros acc; simpl; [lia|].
  rewrite IH. lia.
Qed.

(** *** Division of JS numbers *)

Lemma round_half_even_near a b :
  0 < b -> - b <= 2 * (round_half_even a b * b - a) <= b.
Proof.
  intros Hb. unfold round_half_even.
  pose proof (Z.div_mod a b ltac:(lia)) as E.
  pose proof (Z.mod_pos_bound a b Hb) as R.
  destruct (2 * (a mod b) <? b) eqn:C1; [apply Z.ltb_lt in C1; nia|].
  apply Z.ltb_ge in C1.
  destruct (b <? 2 * (a mod b)) eqn:C2; [apply Z.ltb_lt in C2; nia|].
  apply Z.ltb_ge in C2.
  destruct (Z.even (a / b)); nia.
Qed.

Lemma round_half_even_exact z b : 0 < b -> round_half_even (z * b) b = z.
Proof.
  intros Hb. unfold round_half_even.
  rewrite Z.div_mul, Z.mod_mul by lia.
  replace (2 * 0 <? b) with true; [reflexivity|]. symmetry. apply Z.ltb_lt. lia.
Qed.

Lemma round_half_even_le a b K : 0 < b -> a <= K * b -> round_half_even a b <= K.
Proof.
  intros Hb Ha.
  pose proof (round_half_even_near a b Hb) as N.
  destruct (Z.le_gt_cases (round_half_even a b) K) as [|G]; [assumption|].
  exfalso.
  (* round >= K + 1, so round*b - a >= b, contradiction with 2*(..) <= b *)
  nia.
Qed.

Lemma round_half_even_ge a b K : 0 < b -> K * b <= a -> K <= round_half_even a b.
Proof.
  intros Hb Ha.
  pose proof (round_half_even_near a b Hb) as N.
  destruct (Z.le_gt_cases K (round_half_even a b)) as [|G]; [assumption|].
  exfalso. nia.
Qed.

(** [quotient_exponent n d] is the [e] with [2^e <= n / d < 2^(e+1)]. *)
Lemma quotient_exponent_spec n d :
  0 < n -> 0 < d ->
  let e := quotient_exponent n d in
  d * 2 ^ Z.max 0 e <= n * 2 ^ Z.max 0 (- e) /\
  n * 2 ^ Z.max 0 (- (e + 1)) < d * 2 ^ Z.max 0 (e + 1).
Proof.
  intros Hn Hd e. subst e. unfold quotient_exponent.
  pose proof (Z.log2_spec n Hn) as [An Bn].
  pose proof (Z.log2_spec d Hd) as [Ad Bd].
  pose proof (Z.log2_nonneg n) as Ln. pose proof (Z.log2_nonneg d) as Ld.
  rewrite Z.pow_succ_r in Bn, Bd by assumption.
  set (a := Z.log2 n) in *. set (b := Z.log2 d) in *.
  destruct (Z.le_gt_cases b a) as [Hk|Hk].
  - (* k >= 0 *)
    assert (Ea : 2 ^ a = 2 ^ b * 2 ^ (a - b)).
    { rewrite <- Z.pow_add_r by lia. f_equal; lia. }
    replace (Z.max 0 (- (a - b))) with 0 by lia.
    replace (Z.max 0 (a - b)) with (a - b) by lia.
    assert (Pk : 0 < 2 ^ (a - b)) by (apply Z.pow_pos_nonneg; lia).
    assert (Pb : 0 < 2 ^ b) by (apply Z.pow_pos_nonneg; lia).
    rewrite Z.pow_0_r, Z.mul_1_r.
    destruct (n <? d * 2 ^ (a - b)) eqn:T.
    + apply Z.ltb_lt in T.
      destruct (Z.eq_dec a b) as [E|NE].
      * replace (a - b) with 0 in * by lia.
        replace (Z.max 0 (0 - 1)) with 0 by lia.
        replace (Z.max 0 (- (0 - 1))) with 1 by lia.
        replace (Z.max 0 (- (0 - 1 + 1))) with 0 by lia.
        replace (Z.max 0 (0 - 1 + 1)) with 0 by lia.
        rewrite Z.pow_0_r in *. change (2 ^ 1) with 2. nia.
      * replace (Z.max 0 (a - b - 1)) with (a - b - 1) by lia.
        replace (Z.max 0 (- (a - b - 1))) with 0 by lia.
        replace (Z.max 0 (- (a - b - 1 + 1))) with 0 by lia.
        replace (Z.max 0 (a - b - 1 + 1)) with (a - b) by lia.
        assert (Eh : 2 ^ (a - b) = 2 * 2 ^ (a - b - 1)).
        { rewrite <- Z.pow_succ_r by lia. f_equal; lia. }
        assert (Ph : 0 < 2 ^ (a - b - 1)) by (apply Z.pow_pos_nonneg; lia).
        rewrite Z.pow_0_r. nia.
    + apply Z.ltb_ge in T.
      replace (Z.max 0 (- (a - b + 1))) with 0 by lia.
      replace (Z.max 0 (a - b + 1)) with (a - b + 1) by lia.
      replace (Z.max 0 (- (a - b))) with 0 by lia.
      replace (Z.max 0 (a - b)) with (a - b) by lia.
      rewrite Z.pow_0_r. rewrite Z.pow_add_r by lia. change (2 ^ 1) with 2. nia.
  - (* k < 0 *)
    assert (Eb : 2 ^ b = 2 ^ a * 2 ^ (b - a)).
    { rewrite <- Z.pow_add_r by lia. f_equal; lia. }
    replace (Z.max 0 (- (a - b))) with (b - a) by lia.
    replace (Z.max 0 (a - b)) with 0 by lia.
    assert (Pk : 0 < 2 ^ (b - a)) by (apply Z.pow_pos_nonneg; lia).
    assert (Pa : 0 < 2 ^ a) by (apply Z.pow_pos_nonneg; lia).
    rewrite Z.pow_0_r, Z.mul_1_r.
    destruct (n * 2 ^ (b - a) <? d) eqn:T.
    + apply Z.ltb_lt in T.
      replace (Z.max 0 (a - b - 1)) with 0 by lia.
      replace (Z.max 0 (- (a - b - 1))) with (b - a + 1) by lia.
      replace (Z.max 0 (- (a - b - 1 + 1))) with (b - a) by lia.
      replace (Z.max 0 (a - b - 1 + 1)) with 0 by lia.
      rewrite Z.pow_0_r. rewrite Z.pow_add_r by lia. change (2 ^ 1) with 2. nia.
    + apply Z.ltb_ge in T.
      replace (Z.max 0 (- (a - b))) with (b - a) by lia.
      replace (Z.max 0 (a - b)) with 0 by lia.
      replace (Z.max 0 (a - b + 1)) with 0 by lia.
      replace (Z.max 0 (- (a - b + 1))) with (b - a - 1) by lia.
      assert (Eh : 2 ^ (b - a) = 2 * 2 ^ (b - a - 1)).
      { rewrite <- Z.pow_succ_r by lia. f_equal; lia. }
      assert (Ph : 0 < 2 ^ (b - a - 1)) by (apply Z.pow_pos_nonneg; lia).
      rewrite Z.pow_0_r. nia.
Qed.

Lemma nearest_scaled n d :
  0 < n -> 0 < d ->
  let sh := 52 - quotient_exponent n d in
  let T := 2 ^ Z.max 0 sh in
  let P := 2 ^ Z.max 0 (- sh) in
  let m := round_half_even (n * T) (d * P) in
  0 < T /\ 0 < P /\
  d * P * 2 ^ 52 <= n * T < d * P * 2 ^ 53 /\
  2 ^ 52 <= m <= 2 ^ 53 /\
  - (d * P) <= 2 * (m * (d * P) - n * T) <= d * P.
Proof.
  intros Hn Hd sh T P m.
  pose proof (quotient_exponent_spec n d Hn Hd) as [Lo Hi]. cbv zeta in Lo, Hi.
  assert (HT : 0 < T) by (apply Z.pow_pos_nonneg; lia).
  assert (HP : 0 < P) by (apply Z.pow_pos_nonneg; lia).
  assert (Hs : d * P * 2 ^ 52 <= n * T < d * P * 2 ^ 53).
  { subst T P sh. set (e := quotient_exponent n d) in *.
    destruct (Z.le_gt_cases e 52) as [He|He].
    - replace (Z.max 0 (- (52 - e))) with 0 by lia.
      replace (Z.max 0 (52 - e)) with (52 - e) by lia.
      rewrite Z.pow_0_r, Z.mul_1_r.
      destruct (Z.le_gt_cases 0 e) as [He0|He0].
      + replace (Z.max 0 e) with e in Lo by lia.
        replace (Z.max 0 (- e)) with 0 in Lo by lia.
        replace (Z.max 0 (- (e + 1))) with 0 in Hi by lia.
        replace (Z.max 0 (e + 1)) with (e + 1) in Hi by lia.
        rewrite Z.pow_0_r in Lo, Hi. rewrite Z.pow_add_r in Hi by lia.
        change (2 ^ 1) with 2 in Hi.
        assert (E52 : 2 ^ 52 = 2 ^ e * 2 ^ (52 - e)).
        { rewrite <- Z.pow_add_r by lia. f_equal; lia. }
        assert (E53 : 2 ^ 53 = 2 * 2 ^ 52) by reflexivity.
        assert (P1 : 0 < 2 ^ e) by (apply Z.pow_pos_nonneg; lia).
        assert (P2 : 0 < 2 ^ (52 - e)) by (apply Z.pow_pos_nonneg; lia).
        rewrite E53, E52. nia.
      + replace (Z.max 0 e) with 0 in Lo by lia.
        replace (Z.max 0 (- e)) with (- e) in Lo by lia.
        replace (Z.max 0 (- (e + 1))) with (- e - 1) in Hi by lia.
        replace (Z.max 0 (e + 1)) with 0 in Hi by lia.
        rewrite Z.pow_0_r in Lo, Hi.
        assert (Ee : 2 ^ (52 - e) = 2 ^ 52 * 2 ^ (- e)).
        { rewrite <- Z.pow_add_r by lia. f_equal; lia. }
        assert (Eh : 2 ^ (- e) = 2 * 2 ^ (- e - 1)).
        { rewrite <- Z.pow_succ_r by lia. f_equal; lia. }
        assert (E53 : 2 ^ 53 = 2 * 2 ^ 52) by reflexivity.
        assert (P1 : 0 < 2 ^ (- e - 1)) by (apply Z.pow_pos_nonneg; lia).
        assert (P2 : 0 < 2 ^ 52) by reflexivity.
        rewrite Ee, E53, Eh. nia.
    - replace (Z.max 0 (- (52 - e))) with (e - 52) by lia.
      replace (Z.max 0 (52 - e)) with 0 by lia.
      rewrite Z.pow_0_r, Z.mul_1_r.
      replace (Z.max 0 e) with e in Lo by lia.
      replace (Z.max 0 (- e)) with 0 in Lo by lia.
      replace (Z.max 0 (- (e + 1))) with 0 in Hi by lia.
      replace (Z.max 0 (e + 1)) with (e + 1) in Hi by lia.
      rewrite Z.pow_0_r in Lo, Hi.
      assert (E1 : 2 ^ e = 2 ^ (e - 52) * 2 ^ 52).
      { rewrite <- Z.pow_add_r by lia. f_equal; lia. }
      assert (E2 : 2 ^ (e + 1) = 2 ^ (e - 52) * 2 ^ 53).
      { rewrite <- Z.pow_add_r by lia. f_equal; lia. }
      rewrite E1 in Lo. rewrite E2 in Hi. lia. }
  assert (HdP : 0 < d * P) by nia.
  split; [exact HT|]. split; [exact HP|]. split; [exact Hs|]. split.
  - split.
    + apply round_half_even_ge; [exact HdP | lia].
    + apply round_half_even_le; [exact HdP | lia].
  - apply round_half_even_near. exact HdP.
Qed.

Section Binary64.
Local Open Scope Q_scope.

Lemma Zdiv_as_Qmake (a b : Z) : (0 < b)%Z -> inject_Z a / inject_Z b == a # Z.to_pos b.
Proof.
  intros Hb. destruct b as [|p|p]; try lia.
  unfold Qdiv, Qinv, Qmult, Qeq, inject_Z. simpl. lia.
Qed.

Lemma nearest_binary64_error n d :
  (0 < n)%Z -> (0 < d)%Z ->
  Qabs (nearest_binary64 n d - inject_Z n / inject_Z d)
  <= (inject_Z n / inject_Z d) * (1 # 2 ^ 53).
Proof.
  intros Hn Hd.
  destruct (nearest_scaled n d Hn Hd) as [HT [HP [[Lo Hi] [_ [E1 E2]]]]].
  unfold nearest_binary64.
  set (sh := (52 - quotient_exponent n d)%Z) in *.
  set (T := (2 ^ Z.max 0 sh)%Z) in *.
  set (P := (2 ^ Z.max 0 (- sh))%Z) in *.
  set (m := round_half_even (n * T) (d * P)) in *.
  rewrite (Zdiv_as_Qmake _ T HT), (Zdiv_as_Qmake n d Hd).
  apply Qabs_Qle_condition.
  destruct T as [|pT|pT]; try lia. destruct d as [|pd|pd]; try lia.
  change (2 ^ 52)%Z with 4503599627370496%Z in Lo.
  unfold Qle, Qminus, Qplus, Qopp, Qmult. simpl.
  rewrite ?Pos2Z.inj_mul. split; nia.
Qed.

Lemma nearest_binary64_exact z d :
  (0 < z < 2 ^ 53)%Z -> (0 < d)%Z -> nearest_binary64 (z * d) d == inject_Z z.
Proof.
  intros Hz Hd.
  assert (Hn : (0 < z * d)%Z) by nia.
  destruct (nearest_scaled (z * d) d Hn Hd) as [HT [HP [[Lo Hi] _]]].
  unfold nearest_binary64.
  set (sh := (52 - quotient_exponent (z * d) d)%Z) in *.
  assert (Hsh : (0 <= sh)%Z).
  { destruct (Z.le_gt_cases 0 sh) as [|Hneg]; [assumption|]. exfalso.
    replace (Z.max 0 sh) with 0%Z in * by lia.
    replace (Z.max 0 (- sh)) with (- sh)%Z in * by lia.
    rewrite Z.pow_0_r in *.
    assert (E : (2 ^ (- sh) = 2 * 2 ^ (- sh - 1))%Z).
    { rewrite <- Z.pow_succ_r by lia. f_equal; lia. }
    assert (P1 : (0 < 2 ^ (- sh - 1))%Z) by (apply Z.pow_pos_nonneg; lia).
    change (2 ^ 52)%Z with 4503599627370496%Z in Lo.
    change (2 ^ 53)%Z with 9007199254740992%Z in Hz.
    nia. }
  replace (Z.max 0 (- sh)) with 0%Z in * by lia.
  rewrite Z.pow_0_r, !Z.mul_1_r in *.
  set (T := (2 ^ Z.max 0 sh)%Z) in *.
  replace (z * d * T)%Z with (z * T * d)%Z by ring.
  rewrite round_half_even_exact by assumption.
  rewrite inject_Z_mult. field.
  intros H. apply (inject_Z_injective T 0) in H. lia.
Qed.

Lemma nearest_binary64_pos n d : (0 < n)%Z -> (0 < d)%Z -> 0 < nearest_binary64 n d.
Proof.
  intros Hn Hd.
  destruct (nearest_scaled n d Hn Hd) as [HT [HP [_ [[M _] _]]]].
  unfold nearest_binary64. cbv zeta.
  rewrite Zdiv_as_Qmake by assumption.
  unfold Qlt. cbn [Qnum Qden]. rewrite Z.mul_0_l, Z.mul_1_r.
  apply Z.mul_pos_pos; [|assumption].
  apply Z.lt_le_trans with (2 ^ 52)%Z; [reflexivity | exact M].
Qed.

Lemma nearest_binary64_le_1 n d : (0 < n <= d)%Z -> nearest_binary64 n d <= 1.
Proof.
  intros [Hn Hnd]. assert (Hd : (0 < d)%Z) by lia.
  pose proof (quotient_exponent_spec n d Hn Hd) as [Lo _]. cbv zeta in Lo.
  unfold nearest_binary64.
  set (e := quotient_exponent n d) in *.
  assert (He : (e <= 0)%Z).
  { destruct (Z.le_gt_cases e 0) as [|Hpos]; [assumption|]. exfalso.
    replace (Z.max 0 e) with e in Lo by lia.
    replace (Z.max 0 (- e)) with 0%Z in Lo by lia.
    rewrite Z.pow_0_r in Lo.
    assert (E : (2 ^ e = 2 * 2 ^ (e - 1))%Z).
    { rewrite <- Z.pow_succ_r by lia. f_equal; lia. }
    assert (P1 : (0 < 2 ^ (e - 1))%Z) by (apply Z.pow_pos_nonneg; lia).
    nia. }
  replace (Z.max 0 (- (52 - e))) with 0%Z by lia.
  rewrite Z.pow_0_r, !Z.mul_1_r.
  set (T := (2 ^ Z.max 0 (52 - e))%Z).
  assert (HT : (0 < T)%Z) by (apply Z.pow_pos_nonneg; lia).
  rewrite Zdiv_as_Qmake by assumption.
  assert (M : (round_half_even (n * T) d <= T)%Z).
  { apply round_half_even_le; [assumption | nia]. }
  unfold Qle. cbn [Qnum Qden]. rewrite Z2Pos.id by assumption. lia.
Qed.

Lemma js_div_error n d :
  (0 < d)%Z ->
  Qabs (js_div n d - inject_Z n / inject_Z d)
  <= Qabs (inject_Z n / inject_Z d) * (1 # 2 ^ 53).
Proof.
  intros Hd. destruct n as [|p|p]; unfold js_div.
  - unfold Qdiv. rewrite Qmult_0_l. vm_compute. discriminate.
  - pose proof (nearest_binary64_error (Z.pos p) d eq_refl Hd) as H.
    rewrite (Qabs_pos (inject_Z (Z.pos p) / inject_Z d)); [exact H|].
    rewrite Zdiv_as_Qmake by assumption. unfold Qle. simpl. lia.
  - pose proof (nearest_binary64_error (Z.pos p) d eq_refl Hd) as H.
    change (- Z.neg p)%Z with (Z.pos p).
    assert (E : inject_Z (Z.neg p) / inject_Z d == - (inject_Z (Z.pos p) / inject_Z d)).
    { change (Z.neg p) with (- Z.pos p)%Z. rewrite inject_Z_opp. field.
      intros H0. apply (inject_Z_injective d 0) in H0. lia. }
    rewrite E, Qabs_opp.
    rewrite (Qabs_pos (inject_Z (Z.pos p) / inject_Z d));
      [|rewrite Zdiv_as_Qmake by assumption; unfold Qle; simpl; lia].
    assert (E' : - nearest_binary64 (Z.pos p) d - - (inject_Z (Z.pos p) / inject_Z d)
                 == - (nearest_binary64 (Z.pos p) d - inject_Z (Z.pos p) / inject_Z d))
      by ring.
    rewrite E', Qabs_opp. exact H.
Qed.

Lemma js_div_exact z d :
  (Z.abs z < 2 ^ 53)%Z -> (0 < d)%Z -> js_div (z * d) d == inject_Z z.
Proof.
  intros Hz Hd. destruct z as [|p|p].
  - reflexivity.
  - assert (E : (Z.pos p * d = Z.pos (p * Z.to_pos d))%Z).
    { rewrite Pos2Z.inj_mul, Z2Pos.id by assumption. reflexivity. }
    rewrite E. unfold js_div. rewrite <- E.
    apply nearest_binary64_exact; [|assumption]. split; [reflexivity|]. simpl in Hz. exact Hz.
  - assert (E : (Z.neg p * d = Z.neg (p * Z.to_pos d))%Z).
    { change (Z.neg p) with (- Z.pos p)%Z. rewrite Z.mul_opp_l.
      rewrite <- (Z2Pos.id d) at 1 by assumption. reflexivity. }
    rewrite E. unfold js_div. rewrite <- E.
    replace (- (Z.neg p * d))%Z with (Z.pos p * d)%Z by (simpl; destruct d; reflexivity).
    rewrite nearest_binary64_exact; [reflexivity | | assumption].
    split; [reflexivity|]. simpl in Hz. exact Hz.
Qed.

Lemma js_div_le_1 n d : (0 < d)%Z -> (n <= d)%Z -> js_div n d <= 1.
Proof.
  intros Hd Hn. destruct n as [|p|p]; unfold js_div.
  - discriminate.
  - apply nearest_binary64_le_1. lia.
  - pose proof (nearest_binary64_pos (Z.pos p) d eq_refl Hd) as H.
    change (- Z.neg p)%Z with (Z.pos p).
    apply Qle_trans with 0; [|discriminate].
    apply Qlt_le_weak in H. apply Qopp_le_compat in H. exact H.
Qed.

End Binary64.

(** On a grid of numerators and denominators, among them ties and the
    largest integers a double holds exactly, [js_div] returns what the
    binary64 division of the Standard Library's [SpecFloat] returns. *)
Lemma js_div_matches_binary64_division :
  forallb (fun n => forallb (same_quotient n)
                      [1; 2; 3; 4; 5; 7; 9; 10; 11; 13; 33; 97; 100; 1023; 1024; 1025;
                       99999; 4503599627370495; 4503599627370497; 9007199254740991;
                       9007199254740989; 6004799503160661; 2251799813685249;
                       3377699720527873; 9007199254740992])
          [1; 2; 3; 5; 6; 7; 9; 10; 11; 13; 49; 97; 1000; 1023; 1024; 1025;
           4503599627370497; 9007199254740991; 2251799813685249; 123456789012345;
           9007199254740992; -1; -2; -7; -1000; -9007199254740991] = true.
Proof. vm_compute. reflexivity. Qed.

(** C10. [getMetrics] reports as average latency the arithmetic mean of all
    recorded samples (0 when there is none), and as success rate
    [(updates - errors) / updates] when [updates > 0] and 1 when
    [updates = 0], both quotients being JS divisions: the value returned is
    the double nearest to the exact quotient.  It is the exact quotient
    whenever that is an integer below 2^53 (so the rate is exactly 1 without
    errors and exactly 0 when every update failed), and is never further from
    it than the fraction 2^-53 of the quotient. *)
Theorem getMetrics_rates :
  forall s : State,
    let m := getMetrics s in
    let samples := updateLatencies s in
    let count := Z.of_nat (List.length samples) in
    let updates := updateCount s in
    let failures := errorCount s in
    (samples = [] -> updateLatency m = 0%Q) /\
    (samples <> [] ->
       updateLatency m = js_div (total samples) count /\
       (Qabs (updateLatency m - mean samples) <= Qabs (mean samples) * (1 # 2 ^ 53))%Q /\
       (forall z, total samples = z * count -> Z.abs z < 2 ^ 53 ->
                  (updateLatency m == inject_Z z)%Q)) /\
    (0 < updates ->
       successRate m = js_div (updates - failures) updates /\
       (Qabs (successRate m - inject_Z (updates - failures) / inject_Z updates)
        <= Qabs (inject_Z (updates - failures) / inject_Z updates) * (1 # 2 ^ 53))%Q /\
       (failures = 0 -> (successRate m == 1)%Q) /\
       (failures = updates -> (successRate m == 0)%Q)) /\
    (updates = 0 -> successRate m = 1%Q).
Proof.
  intros s m samples count updates failures. subst m samples count updates failures.
  unfold getMetrics. cbn [updateLatency successRate]. rewrite reduce_total, Z.add_0_l.
  split; [|split; [|split]].
  - intros ->. reflexivity.
  - intros Hne. destruct (updateLatencies s) as [|x l] eqn:El; [congruence|].
    assert (Hc : 0 < Z.of_nat (List.length (x :: l))) by (simpl; lia).
    cbn [List.length Nat.ltb Nat.leb].
    split; [reflexivity|]. split.
    + unfold mean. apply js_div_error. exact Hc.
    + intros z Hz Hbound. rewrite Hz. apply js_div_exact; assumption.
  - intros Hpos. apply Z.ltb_lt in Hpos as Hb. rewrite Hb.
    split; [reflexivity|]. split; [|split].
    + apply js_div_error. exact Hpos.
    + intros ->. rewrite Z.sub_0_r.
      rewrite <- (Z.mul_1_l (updateCount s)) at 1.
      apply (js_div_exact 1); [reflexivity | exact Hpos].
    + intros ->. rewrite Z.sub_diag. reflexivity.
  - intros ->. reflexivity.
Qed.

(** Three samples with an exact mean, four updates, one error; then samples
    1, 1, 2 with three updates and one error, where the quotients 4/3 and 2/3
    are rounded: the doubles 1.3333333333333333 and 0.6666666666666666. *)
Lemma getMetrics_rates_witness :
  let s := mkState [] [] [] [10; 20; 60] false 4 1 [] 0%nat 0 [] [] in
  let s' := mkState [] [] [] [1; 1; 2] false 3 1 [] 0%nat 0 [] [] in
  (updateLatency (getMetrics s) == 30)%Q /\
  (successRate (getMetrics s) == 3 # 4)%Q /\
  (updateLatency (getMetrics s') == 6004799503160661 # 4503599627370496)%Q /\
  (successRate (getMetrics s') == 6004799503160661 # 9007199254740992)%Q /\
  successRate (getMetrics (fresh_tracker 0 0)) = 1%Q.
Proof.
  intros s s'. split; [|split; [|split; [|split]]].
  - apply (proj2 (proj2 (proj1 (proj2 (getMetrics_rates s)) ltac:(discriminate))) 30);
      [reflexivity | reflexivity].
  - rewrite (proj1 (proj1 (proj2 (proj2 (getMetrics_rates s))) eq_refl)).
    vm_compute. reflexivity.
  - rewrite (proj1 (proj1 (proj2 (getMetrics_rates s')) ltac:(discriminate))).
    vm_compute. reflexivity.
  - rewrite (proj1 (proj1 (proj2 (proj2 (getMetrics_rates s'))) eq_refl)).
    vm_compute. reflexivity.
  - exact (proj2 (proj2 (proj2 (getMetrics_rates (fresh_tracker 0 0)))) eq_refl).
Defined.

(** ** Equations of the refresh path *)

Ltac unfold_setters :=
  unfold with_holdingsCache, with_subscriptions, with_eventHandlers, with_updateLatencies,
    with_isPaused, with_updateCount, with_errorCount, with_listeners,
    with_nextSubscriptionId, with_clock, with_emitted, with_delivered in *.

Ltac conjuncts := repeat match goal with |- _ /\ _ => split end.


Lemma getTokenAccounts_eq env a s :
  getTokenAccounts env a s = (Ok (read_tokens env a), after_read env a s).
Proof.
  unfold getTokenAccounts, try_catch, bind, newPublicKey, getParsedTokenAccountsByOwner,
    read_tokens, after_read, read_events, read_failed, read_time, emit, modify, ret, throw.
  destruct s. unfold_setters. simpl.
  destruct (valid_address env a); simpl; [destruct (ledger env a); simpl|];
    rewrite ?app_nil_r, ?Z.add_0_r; reflexivity.
Qed.

Lemma updateWalletHoldings_eq env a s :
  updateWalletHoldings env a s = (Ok (refresh_changes env a s), after_refresh env a s).
Proof.
  unfold updateWalletHoldings, bind. rewrite getTokenAccounts_eq.
  unfold gets, modify, ret, refresh_changes, after_refresh, snapshot_of, diff_against.
  simpl. destruct (OMap.get a (holdingsCache s)); reflexivity.
Qed.

Lemma served_all env changes hs :
  first_thrower env changes hs = None -> served env changes hs = hs.
Proof.
  unfold first_thrower. induction hs as [|h hs IH]; simpl; auto.
  destruct (cb_returns env h changes); simpl; [|discriminate].
  intros H. now rewrite IH.
Qed.

Lemma forEach_eq env changes hs s :
  for_of hs (invoke env changes) s =
  (match first_thrower env changes hs with
   | None => Ok tt
   | Some h => Throw (CallbackThrew h)
   end,
   with_delivered (fun d => d ++ deliveries changes (served env changes hs)) s).
Proof.
  revert s. induction hs as [|h hs IH]; intros s.
  - destruct s. simpl. unfold ret, with_delivered. simpl. now rewrite app_nil_r.
  - cbn [for_of]. unfold bind at 1. unfold invoke at 1. unfold bind at 1.
    unfold modify at 1. unfold first_thrower in *. cbn [find served].
    destruct (cb_returns env h changes) eqn:E; cbn [negb ret throw].
    + rewrite IH. destruct s. unfold with_delivered, deliveries. simpl.
      now rewrite <- app_assoc.
    + reflexivity.
Qed.

Lemma dispatch_eq env a changes s :
  dispatch env a changes s =
  match changes with
  | [] => (Ok tt, s)
  | _ :: _ =>
      match first_thrower env changes (handlers_of a s) with
      | None =>
          (Ok tt,
           with_emitted (fun log => log ++ [EvChanges a changes])
             (with_delivered (fun d => d ++ deliveries changes (handlers_of a s)) s))
      | Some h =>
          (Throw (CallbackThrew h),
           with_delivered
             (fun d => d ++ deliveries changes (served env changes (handlers_of a s))) s)
      end
  end.
Proof.
  unfold dispatch. destruct changes as [|c changes]; [reflexivity|].
  unfold bind at 1. unfold gets at 1. unfold handlers_of.
  destruct (OMap.get a (eventHandlers s)) as [hs|] eqn:G.
  - unfold bind. rewrite forEach_eq.
    destruct (first_thrower env (c :: changes) hs) eqn:F; [reflexivity|].
    rewrite (served_all _ _ _ F). reflexivity.
  - unfold bind, ret, emit, modify. destruct s. unfold with_emitted, with_delivered.
    simpl. now rewrite app_nil_r.
Qed.

Lemma read_failed_empty env a : read_failed env a = true -> read_tokens env a = [].
Proof.
  unfold read_failed, read_tokens. destruct (valid_address env a); auto.
  destruct (ledger env a); [discriminate | auto].
Qed.

Lemma detectChanges_to_empty previous ts :
  detectChanges previous [] [] ts = map (closing ts) previous.
Proof.
  rewrite detectChanges_split. simpl. unfold closed.
  induction previous as [|p l IH]; simpl; [reflexivity | now f_equal].
Qed.

(** C2. When the read inside a refresh fails (the address does not parse or
    the ledger call throws), [updateWalletHoldings] still returns normally:
    it emits one error event, takes the balance set to be empty, diffs the
    previous snapshot against it (every previously held mint is reported
    closed) and replaces the cache entry with the empty snapshot. *)
Theorem refresh_absorbs_read_failure :
  forall (env : Env) (a : string) (s : State),
    read_failed env a = true ->
    let now := read_time env a (clock s) in
    let changes :=
      match OMap.get a (holdingsCache s) with
      | Some previous => map (closing now) (tokens previous)
      | None => []
      end in
    let s' := run (updateWalletHoldings env a) s in
    updateWalletHoldings env a s = (Ok changes, s') /\
    changes = diff_against (OMap.get a (holdingsCache s)) [] now /\
    emitted s' = emitted s ++ [EvError (FetchingTokenAccounts a)] /\
    holdingsCache s' =
      OMap.set a {| address := a; tokens := []; lastUpdated := now |} (holdingsCache s) /\
    OMap.get a (holdingsCache s') =
      Some {| address := a; tokens := []; lastUpdated := now |}.
Proof.
  intros env a s Hfail now changes s'. subst now changes s'. unfold run.
  rewrite updateWalletHoldings_eq. cbn [snd].
  unfold refresh_changes, after_refresh, after_read, snapshot_of, read_events, diff_against.
  rewrite Hfail, (read_failed_empty _ _ Hfail). unfold all_new. simpl.
  split; [|split; [|split; [|split]]]; auto.
  - destruct (OMap.get a (holdingsCache s)); [|reflexivity].
    now rewrite detectChanges_to_empty.
  - destruct (OMap.get a (holdingsCache s)); [|reflexivity].
    now rewrite detectChanges_to_empty.
  - apply OMapFacts.get_set_eq.
Qed.

(** The ledger goes offline for an address holding X: the refresh returns the
    closing entry and an error event instead of throwing. *)
Lemma refresh_absorbs_read_failure_witness :
  let s := mkState [("A"%string, mkWalletHoldings "A" Fixtures.X1000 0)]
                   [] [] [] false 0 0 [] 0%nat 50 [] [] in
  read_failed Fixtures.offline "A" = true /\
  fst (updateWalletHoldings Fixtures.offline "A" s) = Ok [mkTokenChange "X" 1000 0 60 6] /\
  emitted (run (updateWalletHoldings Fixtures.offline "A") s) =
    [EvError (FetchingTokenAccounts "A")].
Proof.
  intros s.
  pose proof (refresh_absorbs_read_failure Fixtures.offline "A" s eq_refl) as H.
  cbv zeta in H. destruct H as [H1 [_ [H3 _]]].
  split; [reflexivity|]. split.
  - rewrite H1. reflexivity.
  - rewrite H3. reflexivity.
Defined.

(** C7 (as the code has it). [updateWalletHoldings] writes the cache entry of
    the address it is called for unconditionally: it neither consults nor
    changes the callback sets and watch handles, so the entry is written also
    for an address that has no registered callback set. *)
Theorem refresh_writes_cache_unconditionally :
  forall (env : Env) (a : string) (s : State),
    let s' := run (updateWalletHoldings env a) s in
    OMap.get a (holdingsCache s') = Some (snapshot_of env a s) /\
    eventHandlers s' = eventHandlers s /\
    subscriptions s' = subscriptions s.
Proof.
  intros env a s s'. subst s'. unfold run. rewrite updateWalletHoldings_eq. simpl.
  split; [apply OMapFacts.get_set_eq | split; reflexivity].
Qed.

(** C7 fails as stated: on a tracker with nothing registered, a refresh of
    address A leaves a cache entry for A. *)
Lemma refresh_of_untracked_address_is_cached :
  let s := fresh_tracker 1 0 in
  let s' := run (updateWalletHoldings (Fixtures.calm (Fixtures.holds "A" Fixtures.X1000)) "A") s in
  OMap.has "A" (eventHandlers s) = false /\
  OMap.has "A" (subscriptions s) = false /\
  OMap.get "A" (holdingsCache s') = Some (mkWalletHoldings "A" Fixtures.X1000 10) /\
  ~ OMap.get "A" (holdingsCache s') = None.
Proof.
  intros s s'. repeat split; try reflexivity. discriminate.
Qed.

(** ** Equations of [setupWebSocketSubscription] *)

Lemma setup_invalid env a cb s :
  valid_address env a = false ->
  setupWebSocketSubscription env a cb s = (Throw InvalidWalletAddress, s).
Proof.
  intros H. unfold setupWebSocketSubscription, validateAddress. now rewrite H.
Qed.

Lemma setup_multiplex_eq env a cb s :
  valid_address env a = true ->
  OMap.has a (subscriptions s) = true ->
  setupWebSocketSubscription env a cb s =
  (Ok tt, with_eventHandlers (OMap.set a (set_add cb (handlers_of a s))) s).
Proof.
  intros Hv Hs. unfold setupWebSocketSubscription, validateAddress. rewrite Hv.
  cbn [negb]. unfold bind at 1. unfold gets at 1. rewrite Hs. reflexivity.
Qed.

Lemma setup_open_eq env a cb s :
  valid_address env a = true ->
  OMap.has a (subscriptions s) = false ->
  watch_opens env a = true ->
  setupWebSocketSubscription env a cb s =
  (Ok tt,
   with_emitted (fun log => log ++ [EvSubscribed a])
     (after_refresh env a (watch_opened a cb s))).
Proof.
  intros Hv Hs Hw. unfold setupWebSocketSubscription, validateAddress. rewrite Hv.
  cbn [negb]. unfold bind at 1. unfold gets at 1. rewrite Hs.
  unfold try_catch, newPublicKey, onAccountChange. rewrite Hv, Hw.
  unfold bind at 1. unfold ret at 1. unfold bind at 1. unfold modify at 1.
  unfold bind at 1. unfold bind at 1. unfold gets at 1. unfold bind at 1.
  unfold modify at 1. unfold bind at 1. unfold modify at 1. unfold ret at 1.
  unfold bind at 1. unfold modify at 1. unfold bind at 1.
  rewrite updateWalletHoldings_eq. unfold emit, modify. reflexivity.
Qed.

Lemma setup_open_fail_eq env a cb s :
  valid_address env a = true ->
  OMap.has a (subscriptions s) = false ->
  watch_opens env a = false ->
  setupWebSocketSubscription env a cb s =
  (Throw (WatchOpenFailed a),
   with_emitted (fun log => log ++ [EvError SetupSubscription])
     (with_eventHandlers (OMap.set a [cb]) s)).
Proof.
  intros Hv Hs Hw. unfold setupWebSocketSubscription, validateAddress. rewrite Hv.
  cbn [negb]. unfold bind at 1. unfold gets at 1. rewrite Hs.
  unfold try_catch, newPublicKey, onAccountChange. rewrite Hv, Hw.
  reflexivity.
Qed.

Lemma all_new_In ts l tok :
  In tok l ->
  In {| change_mint := mint tok; oldBalance := 0; newBalance := amount tok;
        timestamp := ts; change_decimals := decimals tok |} (all_new ts l).
Proof.
  intros H. unfold all_new. apply in_map_iff. exists tok. split; [reflexivity | exact H].
Qed.

(** C5 (as the code has it). Subscribing to an address that has no watch and
    no cached snapshot opens the watch and performs one initial refresh.  That
    refresh stores the snapshot and computes the baseline change list, in
    which every held mint has [oldBalance = 0] and [newBalance] its amount;
    [subscribe] discards the list: apart from a possible read-error event it
    emits only [subscribed], and invokes no callback. *)
Theorem subscribe_baseline_is_silent :
  forall (env : Env) (a : string) (cb : Callback) (s : State),
    valid_address env a = true ->
    OMap.has a (subscriptions s) = false ->
    watch_opens env a = true ->
    OMap.get a (holdingsCache s) = None ->
    let s' := run (setupWebSocketSubscription env a cb) s in
    let now := read_time env a (clock s) in
    setupWebSocketSubscription env a cb s =
      (Ok tt, with_emitted (fun log => log ++ [EvSubscribed a])
                (run (updateWalletHoldings env a) (watch_opened a cb s))) /\
    fst (updateWalletHoldings env a (watch_opened a cb s)) =
      Ok (all_new now (read_tokens env a)) /\
    (forall tok, In tok (read_tokens env a) ->
       In {| change_mint := mint tok; oldBalance := 0; newBalance := amount tok;
             timestamp := now; change_decimals := decimals tok |}
          (all_new now (read_tokens env a))) /\
    OMap.get a (holdingsCache s') =
      Some {| address := a; tokens := read_tokens env a; lastUpdated := now |} /\
    emitted s' = emitted s ++ read_events env a ++ [EvSubscribed a] /\
    delivered s' = delivered s.
Proof.
  intros env a cb s Hv Hs Hw Hc s' now. subst s' now. unfold run.
  rewrite (setup_open_eq env a cb s Hv Hs Hw), updateWalletHoldings_eq.
  cbn [fst snd]. unfold refresh_changes. simpl. rewrite Hc. simpl.
  split; [reflexivity|]. split; [reflexivity|].
  split; [intros tok; apply all_new_In|].
  split; [apply OMapFacts.get_set_eq|].
  split; [now rewrite <- app_assoc | reflexivity].
Qed.

(** Scenario 1 of the specification, on the code. *)
Lemma subscribe_baseline_is_silent_witness :
  let env := Fixtures.calm (Fixtures.holds "A" Fixtures.X1000) in
  let s := fresh_tracker 1 0 in
  fst (updateWalletHoldings env "A" (watch_opened "A" 7%nat s)) =
    Ok [mkTokenChange "X" 0 1000 10 6] /\
  emitted (run (setupWebSocketSubscription env "A" 7%nat) s) = [EvSubscribed "A"] /\
  delivered (run (setupWebSocketSubscription env "A" 7%nat) s) = [].
Proof.
  intros env s.
  pose proof (subscribe_baseline_is_silent env "A" 7%nat s eq_refl eq_refl eq_refl eq_refl) as H.
  cbv zeta in H. destruct H as [_ [H2 [_ [_ [H5 H6]]]]].
  split; [exact H2|]. split; [exact H5 | exact H6].
Defined.

(** C5 fails as stated: the ledger returns mint X with amount 1000 and there
    is no prior cache, yet subscribing emits no change batch and invokes no
    callback; the only event is [subscribed]. *)
Lemma subscribe_emits_no_baseline_batch :
  let env := Fixtures.calm (Fixtures.holds "A" Fixtures.X1000) in
  let s := fresh_tracker 1 0 in
  let s' := run (setupWebSocketSubscription env "A" 7%nat) s in
  OMap.get "A" (holdingsCache s) = None /\
  ledger env "A" = Some [mkTokenBalance "X" 1000 6] /\
  emitted s' = [EvSubscribed "A"] /\
  delivered s' = [] /\
  ~ In (EvChanges "A" [mkTokenChange "X" 0 1000 10 6]) (emitted s') /\
  (forall batch, ~ In (EvChanges "A" batch) (emitted s')).
Proof.
  intros env s s'. repeat split; try reflexivity.
  - intros [H|[]]. discriminate H.
  - intros batch [H|[]]. discriminate H.
Qed.

(** ** The notification handler *)

Lemma handler_eq env a s :
  onAccountChange_handler env a s =
  (Ok tt,
   match dispatch env a (refresh_changes env a s) (timed env a s) with
   | (Ok _, s') => with_updateCount Z.succ s'
   | (Throw _, s') =>
       with_emitted (fun log => log ++ [EvError ProcessingWalletUpdate])
         (with_errorCount Z.succ s')
   end).
Proof.
  unfold onAccountChange_handler, try_catch.
  unfold bind at 1. unfold gets at 1. unfold bind at 1.
  rewrite updateWalletHoldings_eq.
  unfold bind at 1. unfold gets at 1. unfold bind at 1. unfold modify at 1.
  unfold bind at 1.
  replace (with_updateLatencies
             (fun l => l ++ [clock (after_refresh env a s) - clock s])
             (after_refresh env a s)) with (timed env a s) by reflexivity.
  destruct (dispatch env a (refresh_changes env a s) (timed env a s)) as [[[]|e] s'];
    reflexivity.
Qed.

(** C6 (as the code has it). The notification handler never throws.  When
    dispatch completes (the batch is empty or no registered callback throws
    on it) it increments the update counter and leaves the error counter
    alone, whether or not the refresh reached the ledger: a failed read only
    adds an error event.  When a callback throws on the batch it increments
    the error counter and leaves the update counter alone. *)
Theorem handler_counters :
  forall (env : Env) (a : string) (s : State),
    let changes := refresh_changes env a s in
    let s' := run (onAccountChange_handler env a) s in
    fst (onAccountChange_handler env a s) = Ok tt /\
    (changes = [] \/ first_thrower env changes (handlers_of a s) = None ->
       updateCount s' = updateCount s + 1 /\ errorCount s' = errorCount s) /\
    (changes <> [] -> first_thrower env changes (handlers_of a s) <> None ->
       updateCount s' = updateCount s /\ errorCount s' = errorCount s + 1) /\
    (read_failed env a = true ->
       In (EvError (FetchingTokenAccounts a)) (emitted s')).
Proof.
  intros env a s changes s'. subst changes s'. unfold run.
  rewrite handler_eq, dispatch_eq. cbn [fst snd].
  replace (handlers_of a (timed env a s)) with (handlers_of a s) by reflexivity.
  split; [reflexivity|].
  destruct (refresh_changes env a s) as [|c changes] eqn:C.
  - split; [|split].
    + intros _. simpl. split; lia.
    + intros H. congruence.
    + intros Hf. simpl. unfold read_events. rewrite Hf. apply in_or_app. right. now left.
  - destruct (first_thrower env (c :: changes) (handlers_of a s)) as [h|] eqn:F.
    + split; [|split].
      * intros [H|H]; discriminate H.
      * intros _ _. simpl. split; lia.
      * intros Hf. simpl. unfold read_events. rewrite Hf.
        apply in_or_app. left. apply in_or_app. right. now left.
    + split; [|split].
      * intros _. simpl. split; lia.
      * intros _ H. congruence.
      * intros Hf. simpl. unfold read_events. rewrite Hf.
        apply in_or_app. left. apply in_or_app. right. now left.
Qed.

(** A notification for a subscribed address whose ledger read fails. *)
Lemma handler_counters_witness :
  let s := run (setupWebSocketSubscription
                  (Fixtures.calm (Fixtures.holds "A" Fixtures.X1000)) "A" 1%nat)
               (fresh_tracker 1 0) in
  let s' := run (onAccountChange_handler Fixtures.offline "A") s in
  updateCount s' = updateCount s + 1 /\ errorCount s' = errorCount s.
Proof.
  intros s s'.
  apply (proj1 (proj2 (handler_counters Fixtures.offline "A" s))).
  right. reflexivity.
Defined.

(** C6 fails as stated, twice.  A notification whose refresh cannot reach the
    ledger leaves the error counter at 0 (the update counter goes to 1); a
    notification whose batch makes a callback throw leaves the update counter
    at 0 (the error counter goes to 1). *)
Lemma handler_counts_throws_not_read_failures :
  let s := run (setupWebSocketSubscription
                  (Fixtures.calm (Fixtures.holds "A" Fixtures.X1000)) "A" 1%nat)
               (fresh_tracker 1 0) in
  let lost := run (onAccountChange_handler Fixtures.offline "A") s in
  let thrown := run (onAccountChange_handler
                       (Fixtures.cb1_throws (Fixtures.holds "A" Fixtures.X1500)) "A") s in
  (updateCount s = 0 /\ errorCount s = 0) /\
  (read_failed Fixtures.offline "A" = true /\
   updateCount lost = 1 /\ errorCount lost = 0) /\
  (read_failed (Fixtures.cb1_throws (Fixtures.holds "A" Fixtures.X1500)) "A" = false /\
   updateCount thrown = 0 /\ errorCount thrown = 1).
Proof.
  intros s lost thrown. repeat split; reflexivity.
Qed.

(** ** [removeSubscription] *)

Lemma removeSubscription_eq env a s :
  removeSubscription env a s =
  match OMap.get a (subscriptions s) with
  | None => (Ok tt, s)
  | Some O => (Ok tt, s)
  | Some (S n) =>
      if cancel_ok env (S n) then (Ok tt, unsubscribed a (S n) s)
      else (Throw (WatchCancelFailed (S n)),
            with_emitted (fun log => log ++ [EvError RemovingSubscription]) s)
  end.
Proof.
  unfold removeSubscription. unfold bind at 1. unfold gets at 1.
  destruct (OMap.get a (subscriptions s)) as [[|n]|]; try reflexivity.
  unfold try_catch, removeAccountChangeListener.
  destruct (cancel_ok env (S n)); reflexivity.
Qed.

(** C8 (as the code has it). [removeSubscription] first looks up the watch
    handle.  Without a recorded handle it returns at once and changes
    nothing: a retained callback set and cached snapshot stay, and no event is
    emitted.  With a handle (a non-zero id) whose cancellation succeeds it
    cancels the watch, removes the handle, the callback set and the cached
    snapshot, and emits [unsubscribed]. *)
Theorem removeSubscription_guarded :
  forall (env : Env) (a : string) (s : State),
    (OMap.get a (subscriptions s) = None -> removeSubscription env a s = (Ok tt, s)) /\
    (forall id,
       OMap.get a (subscriptions s) = Some id -> id <> 0%nat -> cancel_ok env id = true ->
       let s' := run (removeSubscription env a) s in
       fst (removeSubscription env a s) = Ok tt /\
       listeners s' = filter (fun w => negb (Nat.eqb (fst w) id)) (listeners s) /\
       (forall b, ~ In (id, b) (listeners s')) /\
       OMap.get a (subscriptions s') = None /\
       OMap.get a (eventHandlers s') = None /\
       OMap.get a (holdingsCache s') = None /\
       emitted s' = emitted s ++ [EvUnsubscribed a]).
Proof.
  intros env a s. split.
  - intros H. now rewrite removeSubscription_eq, H.
  - intros id Hid Hnz Hok s'. subst s'. unfold run.
    rewrite removeSubscription_eq, Hid.
    destruct id as [|n]; [congruence|]. rewrite Hok. cbn [fst snd]. simpl.
    split; [reflexivity|]. split; [reflexivity|].
    split.
    { intros b Hin. apply filter_In in Hin. destruct Hin as [_ Hin]. simpl in Hin.
      now rewrite Nat.eqb_refl in Hin. }
    split; [apply OMapFacts.get_delete_eq|].
    split; [apply OMapFacts.get_delete_eq|].
    split; [apply OMapFacts.get_delete_eq | reflexivity].
Qed.

(** Unsubscribing a freshly subscribed address. *)
Lemma removeSubscription_guarded_witness :
  let env := Fixtures.calm (Fixtures.holds "A" Fixtures.X1000) in
  let s := run (setupWebSocketSubscription env "A" 1%nat) (fresh_tracker 1 0) in
  let s' := run (removeSubscription env "A") s in
  OMap.get "A" (subscriptions s) = Some 1%nat /\
  listeners s' = [] /\
  OMap.get "A" (eventHandlers s') = None /\
  OMap.get "A" (holdingsCache s') = None /\
  emitted s' = [EvSubscribed "A"; EvUnsubscribed "A"].
Proof.
  intros env s s'. subst s'.
  assert (Hid : OMap.get "A" (subscriptions s) = Some 1%nat) by reflexivity.
  destruct (proj2 (removeSubscription_guarded env "A" s) 1%nat Hid
              (fun H => Nat.neq_succ_0 0 H) eq_refl)
    as [_ [H2 [_ [_ [H5 [H6 H7]]]]]].
  split; [exact Hid|]. split; [rewrite H2; vm_compute; reflexivity|].
  split; [exact H5|]. split; [exact H6|]. rewrite H7. vm_compute. reflexivity.
Defined.

(** C8 fails as stated: while paused, address A keeps its callback set and
    its cached snapshot but has no watch handle; unsubscribing it changes
    nothing, so the callback set and the snapshot are still there. *)
Lemma unsubscribe_while_paused_keeps_everything :
  let env := Fixtures.calm (Fixtures.holds "A" Fixtures.X1000) in
  let s := run (pauseTracking env)
             (run (setupWebSocketSubscription env "A" 1%nat) (fresh_tracker 1 0)) in
  let s' := run (removeSubscription env "A") s in
  isPaused s = true /\
  OMap.get "A" (subscriptions s) = None /\
  listeners s = [] /\
  s' = s /\
  OMap.get "A" (eventHandlers s') = Some [1%nat] /\
  OMap.get "A" (holdingsCache s') = Some (mkWalletHoldings "A" Fixtures.X1000 10) /\
  ~ In (EvUnsubscribed "A") (emitted s').
Proof.
  intros env s s'. conjuncts; try (vm_compute; reflexivity).
  vm_compute. intros [H|[H|[]]]; discriminate H.
Qed.

(** ** The consistency invariant *)

Lemma wf_frame valid s s' :
  listeners s' = listeners s ->
  subscriptions s' = subscriptions s ->
  nextSubscriptionId s' = nextSubscriptionId s ->
  eventHandlers s' = eventHandlers s ->
  wf valid s -> wf valid s'.
Proof.
  intros Hl Hs Hn Hh [R B I K H].
  constructor; rewrite ?Hl, ?Hs, ?Hn, ?Hh; assumption.
Qed.

Lemma wf_fresh valid firstId now : wf valid (fresh_tracker firstId now).
Proof.
  constructor; simpl.
  - intros id a [].
  - intros id a [].
  - constructor.
  - constructor.
  - intros a hs G. discriminate G.
Qed.

Section Preserves.
Context {P : State -> Prop}.

Lemma preserves_ret {A} (a : A) : preserves P (ret a).
Proof. intros s Hs. exact Hs. Qed.

Lemma preserves_throw {A} e : preserves P (@throw A e).
Proof. intros s Hs. exact Hs. Qed.

Lemma preserves_gets {A} (f : State -> A) : preserves P (gets f).
Proof. intros s Hs. exact Hs. Qed.

Lemma preserves_bind {A B} (m : M A) (f : A -> M B) :
  preserves P m -> (forall a, preserves P (f a)) -> preserves P (bind m f).
Proof.
  intros Hm Hf s Hs. unfold bind. specialize (Hm s Hs).
  destruct (m s) as [[a|e] s1]; simpl in *; auto. now apply Hf.
Qed.

Lemma preserves_try {A} (m : M A) (h : Exn -> M A) :
  preserves P m -> (forall e, preserves P (h e)) -> preserves P (try_catch m h).
Proof.
  intros Hm Hh s Hs. unfold try_catch. specialize (Hm s Hs).
  destruct (m s) as [[a|e] s1]; simpl in *; auto. now apply Hh.
Qed.

Lemma preserves_for_of {A} (xs : list A) (body : A -> M unit) :
  (forall x, preserves P (body x)) -> preserves P (for_of xs body).
Proof.
  intros Hb. induction xs as [|x xs IH]; simpl.
  - apply preserves_ret.
  - apply preserves_bind; auto.
Qed.

End Preserves.

Section WfSteps.
Variable env : Env.

Lemma preserves_modify_frame (f : State -> State) :
  (forall s, listeners (f s) = listeners s /\
             subscriptions (f s) = subscriptions s /\
             nextSubscriptionId (f s) = nextSubscriptionId s /\
             eventHandlers (f s) = eventHandlers s) ->
  preserves (wf (valid_address env)) (modify f).
Proof.
  intros Hf s Hs. simpl. destruct (Hf s) as [H1 [H2 [H3 H4]]].
  now apply (wf_frame (valid_address env) s).
Qed.

Lemma preserves_emit ev : preserves (wf (valid_address env)) (emit ev).
Proof. apply preserves_modify_frame. intros s. conjuncts; reflexivity. Qed.

Lemma preserves_invoke changes h : preserves (wf (valid_address env)) (invoke env changes h).
Proof.
  unfold invoke. apply preserves_bind.
  - apply preserves_modify_frame. intros s. conjuncts; reflexivity.
  - intros _. destruct (cb_returns env h changes);
      [apply preserves_ret | apply preserves_throw].
Qed.

Lemma preserves_update a : preserves (wf (valid_address env)) (updateWalletHoldings env a).
Proof.
  intros s Hs. rewrite updateWalletHoldings_eq. simpl.
  now apply (wf_frame (valid_address env) s).
Qed.

Lemma preserves_dispatch a changes : preserves (wf (valid_address env)) (dispatch env a changes).
Proof.
  unfold dispatch. destruct changes as [|c changes]; [apply preserves_ret|].
  apply preserves_bind; [apply preserves_gets|]. intros hs.
  apply preserves_bind; [|intros _; apply preserves_emit].
  destruct hs as [hs|]; [|apply preserves_ret].
  apply preserves_for_of. intros h. apply preserves_invoke.
Qed.

Lemma preserves_handler a : preserves (wf (valid_address env)) (onAccountChange_handler env a).
Proof.
  unfold onAccountChange_handler. apply preserves_try.
  - apply preserves_bind; [apply preserves_gets|]. intros t0.
    apply preserves_bind; [apply preserves_update|]. intros changes.
    apply preserves_bind; [apply preserves_gets|]. intros t1.
    apply preserves_bind.
    { apply preserves_modify_frame. intros s. conjuncts; reflexivity. }
    intros _. apply preserves_bind; [apply preserves_dispatch|]. intros _.
    apply preserves_modify_frame. intros s. conjuncts; reflexivity.
  - intros e. apply preserves_bind; [|intros _; apply preserves_emit].
    apply preserves_modify_frame. intros s. conjuncts; reflexivity.
Qed.

Lemma preserves_notify id : preserves (wf (valid_address env)) (notify env id).
Proof.
  unfold notify. apply preserves_bind; [apply preserves_gets|]. intros [w|].
  - apply preserves_handler.
  - apply preserves_ret.
Qed.

Lemma preserves_refreshAll : preserves (wf (valid_address env)) (refreshAllHoldings env).
Proof.
  unfold refreshAllHoldings. apply preserves_try.
  - apply preserves_bind; [apply preserves_gets|]. intros addresses.
    apply preserves_bind; [|intros _; apply preserves_emit].
    apply preserves_for_of. intros a. unfold refresh_one. apply preserves_try.
    + apply preserves_bind; [apply preserves_update|]. intros changes.
      apply preserves_dispatch.
    + intros e. apply preserves_emit.
  - intros e. apply preserves_bind; [apply preserves_emit|]. intros _.
    apply preserves_throw.
Qed.

Lemma set_add_NoDup cb hs : NoDup hs -> NoDup (set_add cb hs).
Proof.
  intros Hnd. unfold set_add. destruct (existsb (Nat.eqb cb) hs) eqn:E; auto.
  apply NoDup_app; [assumption | repeat constructor; simpl; tauto |].
  intros x Hx [<-|[]].
  assert (existsb (Nat.eqb cb) hs = true); [|congruence].
  apply existsb_exists. exists cb. split; auto. apply Nat.eqb_refl.
Qed.

Lemma set_add_nonempty cb hs : set_add cb hs <> [].
Proof.
  unfold set_add. destruct (existsb (Nat.eqb cb) hs) eqn:E.
  - destruct hs; [discriminate | discriminate].
  - destruct hs; discriminate.
Qed.

Lemma wf_handlers_of s a : wf (valid_address env) s -> NoDup (handlers_of a s).
Proof.
  intros Hs. unfold handlers_of.
  destruct (OMap.get a (eventHandlers s)) as [hs|] eqn:G; [|constructor].
  now destruct (wf_handlers _ _ Hs a hs G).
Qed.

Lemma wf_set_handlers s a hs :
  wf (valid_address env) s -> NoDup hs -> hs <> [] -> valid_address env a = true ->
  wf (valid_address env) (with_eventHandlers (OMap.set a hs) s).
Proof.
  intros [R B I K H] Hnd Hne Hv. constructor; simpl; auto.
  intros a' hs' G. destruct (String.eqb a a') eqn:E.
  - apply String.eqb_eq in E. subst a'. rewrite OMapFacts.get_set_eq in G.
    injection G as <-. auto.
  - apply String.eqb_neq in E. rewrite OMapFacts.get_set_ne in G by assumption. eauto.
Qed.

Lemma NoDup_single {A} (x : A) : NoDup [x].
Proof. constructor; [simpl; tauto | constructor]. Qed.

Lemma wf_watch_opened s a cb :
  wf (valid_address env) s -> valid_address env a = true -> OMap.has a (subscriptions s) = false ->
  wf (valid_address env) (watch_opened a cb s).
Proof.
  intros Hs Hv Hfree.
  pose proof (wf_set_handlers s a [cb] Hs (NoDup_single cb) ltac:(discriminate) Hv) as Hs1.
  destruct Hs as [R B I K _]. destruct Hs1 as [_ _ _ _ H].
  unfold watch_opened. constructor; simpl in *; auto.
  - intros id a' Hin. apply in_app_or in Hin. destruct Hin as [Hin|[Hin|[]]].
    + destruct (String.eqb a a') eqn:E.
      * apply String.eqb_eq in E. subst a'. apply R in Hin.
        unfold OMap.has in Hfree. now rewrite Hin in Hfree.
      * apply String.eqb_neq in E. rewrite OMapFacts.get_set_ne by assumption. auto.
    + injection Hin as <- <-. apply OMapFacts.get_set_eq.
  - intros id a' Hin. apply in_app_or in Hin. destruct Hin as [Hin|[Hin|[]]].
    + apply B in Hin. lia.
    + injection Hin as <- <-. lia.
  - rewrite map_app. simpl. apply NoDup_app; [assumption | apply NoDup_single |].
    intros x Hx [<-|[]]. apply in_map_iff in Hx. destruct Hx as [[id a'] [Hfst Hin]].
    simpl in Hfst. subst id. apply B in Hin. lia.
  - now apply OMapFacts.NoDup_keys_set.
Qed.

Lemma preserves_setup a cb : preserves (wf (valid_address env)) (setupWebSocketSubscription env a cb).
Proof.
  intros s Hs.
  destruct (valid_address env a) eqn:Hv.
  - destruct (OMap.has a (subscriptions s)) eqn:Hsub.
    + rewrite setup_multiplex_eq by assumption. simpl.
      apply wf_set_handlers; auto.
      * apply set_add_NoDup. now apply wf_handlers_of.
      * apply set_add_nonempty.
    + destruct (watch_opens env a) eqn:Hw.
      * rewrite setup_open_eq by assumption. simpl.
        apply (wf_frame (valid_address env) (watch_opened a cb s)); try reflexivity.
        now apply wf_watch_opened.
      * rewrite setup_open_fail_eq by assumption. simpl.
        apply (wf_frame (valid_address env) (with_eventHandlers (OMap.set a [cb]) s)); try reflexivity.
        apply wf_set_handlers; auto using NoDup_single. discriminate.
  - now rewrite setup_invalid.
Qed.

Lemma preserves_resume : preserves (wf (valid_address env)) (resumeTracking env).
Proof.
  unfold resumeTracking. apply preserves_bind; [apply preserves_gets|]. intros paused.
  destruct (negb paused); [apply preserves_ret|]. apply preserves_try.
  - apply preserves_bind; [apply preserves_gets|]. intros addresses.
    apply preserves_bind.
    + apply preserves_for_of. intros a. unfold resubscribe.
      apply preserves_bind; [apply preserves_gets|]. intros [hs|]; [|apply preserves_ret].
      apply preserves_for_of. intros h. apply preserves_setup.
    + intros _. apply preserves_bind; [|intros _; apply preserves_emit].
      apply preserves_modify_frame. intros s. conjuncts; reflexivity.
  - intros e. apply preserves_bind; [apply preserves_emit|]. intros _.
    apply preserves_throw.
Qed.

Lemma NoDup_map_filter {A B} (f : A -> B) (p : A -> bool) l :
  NoDup (map f l) -> NoDup (map f (filter p l)).
Proof.
  induction l as [|x l IH]; simpl; auto.
  intros Hnd. inversion Hnd as [|? ? Hnotin Hnd']; subst.
  destruct (p x); simpl; auto. constructor; auto.
  intros Hin. apply Hnotin. apply in_map_iff in Hin. destruct Hin as [y [Hy Hin]].
  apply filter_In in Hin. apply in_map_iff. exists y. tauto.
Qed.

(** Dropping live listeners keeps the invariant. *)
Lemma wf_fewer_listeners s p :
  wf (valid_address env) s -> wf (valid_address env) (with_listeners (filter p) s).
Proof.
  intros [R B I K H]. constructor; simpl; auto.
  - intros id a Hin. apply filter_In in Hin. apply R. tauto.
  - intros id a Hin. apply filter_In in Hin. apply (B id a). tauto.
  - now apply NoDup_map_filter.
Qed.

(** Cancelling the watch [id] and forgetting the handle of [a], when every
    live watch of [a] is [id]. *)
Lemma wf_cancel_forget s a id :
  wf (valid_address env) s ->
  (forall id', In (id', a) (listeners s) -> id' = id) ->
  wf (valid_address env) (with_subscriptions (OMap.delete a)
              (with_listeners (filter (fun w => negb (Nat.eqb (fst w) id))) s)).
Proof.
  intros Hs Honly.
  pose proof (wf_fewer_listeners s (fun w => negb (Nat.eqb (fst w) id)) Hs) as [R B I K H].
  constructor; simpl in *; auto.
  - intros id' a' Hin. pose proof Hin as Hin'. apply filter_In in Hin'.
    destruct Hin' as [Hold Hne]. simpl in Hne.
    destruct (String.eqb a a') eqn:E.
    + apply String.eqb_eq in E. subst a'. apply Honly in Hold. subst id'.
      now rewrite Nat.eqb_refl in Hne.
    + apply String.eqb_neq in E. rewrite OMapFacts.get_delete_ne by assumption. auto.
  - now apply OMapFacts.NoDup_keys_delete.
Qed.

Lemma wf_delete_handlers s a :
  wf (valid_address env) s -> wf (valid_address env) (with_eventHandlers (OMap.delete a) s).
Proof.
  intros [R B I K H]. constructor; simpl; auto.
  intros a' hs G. destruct (String.eqb a a') eqn:E.
  - apply String.eqb_eq in E. subst a'. now rewrite OMapFacts.get_delete_eq in G.
  - apply String.eqb_neq in E. rewrite OMapFacts.get_delete_ne in G by assumption. eauto.
Qed.

Lemma preserves_remove a : preserves (wf (valid_address env)) (removeSubscription env a).
Proof.
  intros s Hs. rewrite removeSubscription_eq.
  destruct (OMap.get a (subscriptions s)) as [[|n]|] eqn:G; simpl; auto.
  destruct (cancel_ok env (S n)); simpl.
  - unfold unsubscribed.
    apply (wf_frame (valid_address env)
             (with_eventHandlers (OMap.delete a)
                (with_subscriptions (OMap.delete a)
                   (with_listeners (filter (fun w => negb (Nat.eqb (fst w) (S n)))) s))));
      try reflexivity.
    apply wf_delete_handlers. apply wf_cancel_forget; auto.
    intros id' Hin. apply (wf_recorded _ _ Hs) in Hin. congruence.
  - now apply (wf_frame (valid_address env) s).
Qed.

Lemma pause_loop_wf entries s :
  wf (valid_address env) s ->
  (forall a id id', In (a, id) entries -> In (id', a) (listeners s) -> id' = id) ->
  wf (valid_address env) (snd (for_of entries
                   (fun entry =>
                      bind (removeAccountChangeListener env (snd entry))
                           (fun _ => modify (with_subscriptions (OMap.delete (fst entry)))))
                   s)).
Proof.
  revert s. induction entries as [|[a id] entries IH]; intros s Hs Honly; simpl; auto.
  unfold bind at 1. unfold bind at 1. unfold removeAccountChangeListener.
  destruct (cancel_ok env id); simpl; auto.
  apply IH.
  - apply wf_cancel_forget; auto. intros id' Hin. apply (Honly a id id'); simpl; auto.
  - simpl. intros a' i i' Hin Hl. apply filter_In in Hl. destruct Hl as [Hl _].
    apply (Honly a' i i'); simpl; auto.
Qed.

Lemma preserves_pause : preserves (wf (valid_address env)) (pauseTracking env).
Proof.
  intros s Hs. unfold pauseTracking. unfold bind at 1. unfold gets at 1.
  destruct (isPaused s); simpl; auto.
  unfold try_catch. unfold bind at 1. unfold gets at 1. unfold bind at 1.
  pose proof (pause_loop_wf (subscriptions s) s Hs) as Hloop.
  match type of Hloop with _ -> wf _ (snd (?m s)) => destruct (m s) as [[[]|e] s1] end;
    simpl in Hloop.
  - assert (Hs1 : wf (valid_address env) s1).
    { apply Hloop. intros a id id' Hin Hl. apply (wf_recorded _ _ Hs) in Hl.
      apply (OMapFacts.In_get _ _ _ (wf_keys _ _ Hs)) in Hin. congruence. }
    simpl. now apply (wf_frame (valid_address env) s1).
  - assert (Hs1 : wf (valid_address env) s1).
    { apply Hloop. intros a id id' Hin Hl. apply (wf_recorded _ _ Hs) in Hl.
      apply (OMapFacts.In_get _ _ _ (wf_keys _ _ Hs)) in Hin. congruence. }
    simpl. now apply (wf_frame (valid_address env) s1).
Qed.

Lemma preserves_shutdown : preserves (wf (valid_address env)) (shutdown env).
Proof.
  intros s Hs. unfold shutdown, try_catch. unfold bind at 1. unfold gets at 1.
  unfold bind at 1. unfold remove_all. unfold bind at 1. unfold modify at 1.
  set (p := fun w : nat * string =>
              negb (existsb (fun e : string * nat => Nat.eqb (snd e) (fst w) && cancel_ok env (snd e))
                            (subscriptions s))).
  pose proof (wf_fewer_listeners s p Hs) as Hs1.
  destruct (find (fun e : string * nat => negb (cancel_ok env (snd e))) (subscriptions s))
    as [e|] eqn:F; simpl.
  - now apply (wf_frame (valid_address env) (with_listeners (filter p) s)).
  - constructor; simpl.
    + intros id a Hin. exfalso. apply filter_In in Hin. destruct Hin as [Hin Hp].
      apply (wf_recorded _ _ Hs) in Hin. apply OMapFacts.get_In in Hin.
      unfold p in Hp. simpl in Hp. apply negb_true_iff in Hp.
      assert (Hex : existsb (fun e : string * nat => Nat.eqb (snd e) id && cancel_ok env (snd e))
                            (subscriptions s) = true); [|congruence].
      apply existsb_exists. exists (a, id). split; auto. simpl.
      rewrite Nat.eqb_refl. simpl.
      pose proof (find_none _ _ F (a, id) Hin) as Hok. simpl in Hok.
      now apply negb_false_iff in Hok.
    + intros id a Hin. apply filter_In in Hin. destruct Hin as [Hin _].
      now apply (wf_below _ _ Hs) in Hin.
    + apply NoDup_map_filter. apply (wf_ids _ _ Hs).
    + constructor.
    + intros a hs G. discriminate G.
Qed.

Lemma exec_wf op s : wf (valid_address env) s -> wf (valid_address env) (exec env op s).
Proof.
  destruct op; simpl; unfold run.
  - apply preserves_setup.
  - apply preserves_remove.
  - apply preserves_update.
  - apply preserves_notify.
  - apply preserves_pause.
  - apply preserves_resume.
  - apply preserves_refreshAll.
  - apply preserves_shutdown.
Qed.

End WfSteps.

Lemma at_most_one {A} (l : list A) :
  NoDup l -> (forall x y, In x l -> In y l -> x = y) -> (List.length l <= 1)%nat.
Proof.
  destruct l as [|x [|y l]]; simpl; intros Hnd Heq; try lia.
  exfalso. inversion Hnd as [|? ? Hnotin _]; subst. apply Hnotin.
  rewrite (Heq x y); simpl; auto.
Qed.

Lemma wf_one_watch valid s a : wf valid s -> (List.length (watches_of a s) <= 1)%nat.
Proof.
  intros Hs. unfold watches_of.
  rewrite <- (length_map fst). apply at_most_one.
  - apply NoDup_map_filter. apply (wf_ids _ _ Hs).
  - intros x y Hx Hy. apply in_map_iff in Hx, Hy.
    destruct Hx as [[i b] [<- Hx]], Hy as [[j c] [<- Hy]].
    apply filter_In in Hx, Hy. simpl in *.
    destruct Hx as [Hx Ex], Hy as [Hy Ey].
    apply String.eqb_eq in Ex, Ey. subst b c.
    apply (wf_recorded _ _ Hs) in Hx, Hy. congruence.
Qed.

(** ** Multiplexing *)

Lemma set_add_In cb hs : In cb (set_add cb hs).
Proof.
  unfold set_add. destruct (existsb (Nat.eqb cb) hs) eqn:E.
  - apply existsb_exists in E. destruct E as [x [Hx Ex]].
    apply Nat.eqb_eq in Ex. now subst.
  - apply in_or_app. right. now left.
Qed.

Lemma set_add_keeps cb x hs : In x hs -> In x (set_add cb hs).
Proof.
  intros H. unfold set_add. destruct (existsb (Nat.eqb cb) hs); auto.
  apply in_or_app. now left.
Qed.

Lemma set_add_member cb hs : In cb hs -> set_add cb hs = hs.
Proof.
  intros H. unfold set_add.
  replace (existsb (Nat.eqb cb) hs) with true; auto.
  symmetry. apply existsb_exists. exists cb. split; auto. apply Nat.eqb_refl.
Qed.

Lemma set_add_fresh cb hs : ~ In cb hs -> set_add cb hs = hs ++ [cb].
Proof.
  intros H. unfold set_add. destruct (existsb (Nat.eqb cb) hs) eqn:E; auto.
  exfalso. apply H. apply existsb_exists in E. destruct E as [x [Hx Ex]].
  apply Nat.eqb_eq in Ex. now subst.
Qed.

Lemma run_trace_wf valid tr s :
  Forall (fun eo => valid_address (fst eo) = valid) tr ->
  wf valid s -> wf valid (run_trace tr s).
Proof.
  revert s. induction tr as [|[env op] tr IH]; intros s Hall Hs; simpl; auto.
  pose proof (Forall_inv Hall) as Hv. pose proof (Forall_inv_tail Hall) as Hall'.
  simpl in Hv. apply IH; auto.
  rewrite <- Hv. apply exec_wf. now rewrite Hv.
Qed.

Lemma find_live (l : list (nat * string)) id a :
  NoDup (map fst l) -> In (id, a) l ->
  find (fun w => Nat.eqb (fst w) id) l = Some (id, a).
Proof.
  induction l as [|[i b] l IH]; simpl; [tauto|].
  intros Hnd Hin. inversion Hnd as [|? ? Hnotin Hnd']; subst.
  destruct Hin as [E|Hin].
  - injection E as -> ->. now rewrite Nat.eqb_refl.
  - destruct (Nat.eqb i id) eqn:E; [|now apply IH].
    apply Nat.eqb_eq in E. subst i. exfalso. apply Hnotin.
    change id with (fst (id, a)). now apply in_map.
Qed.

(** A notification on a live watch runs the handler of the watched address. *)
Lemma notify_live valid env id a s :
  wf valid s -> In (id, a) (listeners s) ->
  notify env id s = onAccountChange_handler env a s.
Proof.
  intros Hs Hin. unfold notify. unfold bind at 1. unfold gets at 1.
  now rewrite (find_live _ id a (wf_ids _ _ Hs) Hin).
Qed.

Lemma served_prefix env changes pre h post :
  (forall x, In x pre -> cb_returns env x changes = true) ->
  cb_returns env h changes = false ->
  served env changes (pre ++ h :: post) = pre ++ [h] /\
  first_thrower env changes (pre ++ h :: post) = Some h.
Proof.
  unfold first_thrower. induction pre as [|x pre IH]; intros Hpre Hh; simpl.
  - now rewrite Hh.
  - rewrite (Hpre x) by now left. simpl.
    destruct IH as [E1 E2]; [intros y Hy; apply Hpre; now right | exact Hh |].
    now rewrite E1, E2.
Qed.

Lemma first_thrower_none env changes hs :
  (forall h, In h hs -> cb_returns env h changes = true) ->
  first_thrower env changes hs = None.
Proof.
  intros H. unfold first_thrower. induction hs as [|h hs IH]; simpl; [reflexivity|].
  rewrite (H h) by now left. simpl. apply IH. intros x Hx. apply H. now right.
Qed.

(** What one run of the handler leaves: the refreshed snapshot in the cache
    whatever the callbacks do, and the batch handed to the callbacks reached
    before [forEach] stops. *)
Lemma handler_serves env a s :
  refresh_changes env a s <> [] ->
  let batch := refresh_changes env a s in
  let s' := run (onAccountChange_handler env a) s in
  OMap.get a (holdingsCache s') = Some (snapshot_of env a s) /\
  delivered s' = delivered s ++ deliveries batch (served env batch (handlers_of a s)) /\
  (first_thrower env batch (handlers_of a s) = None ->
   In (EvChanges a batch) (emitted s')) /\
  (first_thrower env batch (handlers_of a s) <> None ->
   forall b l, In (EvChanges b l) (emitted s') -> In (EvChanges b l) (emitted s)).
Proof.
  intros Hne batch s'. subst batch s'. unfold run.
  rewrite handler_eq, dispatch_eq. cbn [snd].
  replace (handlers_of a (timed env a s)) with (handlers_of a s) by reflexivity.
  destruct (refresh_changes env a s) as [|c l] eqn:B; [congruence|].
  destruct (first_thrower env (c :: l) (handlers_of a s)) as [h|] eqn:F.
  - conjuncts.
    + simpl. apply OMapFacts.get_set_eq.
    + reflexivity.
    + discriminate.
    + intros _ b l' Hin. simpl in Hin.
      apply in_app_or in Hin. destruct Hin as [Hin|[Hin|[]]]; [|discriminate Hin].
      apply in_app_or in Hin. destruct Hin as [Hin|Hin]; [exact Hin|].
      unfold read_events in Hin. destruct (read_failed env a); simpl in Hin.
      * destruct Hin as [Hin|[]]. discriminate Hin.
      * destruct Hin.
  - conjuncts.
    + simpl. apply OMapFacts.get_set_eq.
    + rewrite (served_all _ _ _ F). reflexivity.
    + intros _. simpl. apply in_or_app. right. now left.
    + congruence.
Qed.

(** C4 (as the code has it). In every state reachable from a fresh tracker,
    and after any operation on a consistent state, an address has at most one
    live watch.  A [subscribe] for an address that has a watch handle opens
    no watch: listeners and handles are unchanged and the callback joins the
    existing set next to the ones already there.  From then on, in every
    later state, a notification on the live watch of the address that yields
    a non-empty change batch stores the new snapshot and hands the batch to
    the registered callbacks in registration order: to all of them, followed
    by the [changes] event, when none throws; only up to the first one that
    throws otherwise, so that the callbacks registered after it never see
    that batch and no [changes] event is emitted for it.  A [subscribe] for an
    address without a watch handle (never subscribed, or paused) opens a
    watch and makes the new callback the only one registered. *)
Theorem one_watch_multiplexed :
  forall (env : Env) (s : State) (a : string) (cb1 cb2 : Callback),
    wf (valid_address env) s ->
    valid_address env a = true ->
    OMap.has a (subscriptions s) = true ->
    In cb1 (handlers_of a s) ->
    let s2 := run (setupWebSocketSubscription env a cb2) s in
    (forall b, (List.length (watches_of b s) <= 1)%nat) /\
    (forall op, wf (valid_address env) (exec env op s) /\
                forall b, (List.length (watches_of b (exec env op s)) <= 1)%nat) /\
    (forall firstId now tr b,
       Forall (fun eo => valid_address (fst eo) = valid_address env) tr ->
       (List.length (watches_of b (run_trace tr (fresh_tracker firstId now))) <= 1)%nat) /\
    setupWebSocketSubscription env a cb2 s = (Ok tt, s2) /\
    listeners s2 = listeners s /\
    subscriptions s2 = subscriptions s /\
    handlers_of a s2 = set_add cb2 (handlers_of a s) /\
    In cb1 (handlers_of a s2) /\
    In cb2 (handlers_of a s2) /\
    (forall (tr : list (Env * Op)) (env' : Env) (id : nat),
       Forall (fun eo => valid_address (fst eo) = valid_address env) tr ->
       let s3 := run_trace tr s2 in
       let batch := refresh_changes env' a s3 in
       let s4 := run (notify env' id) s3 in
       In (id, a) (listeners s3) ->
       batch <> [] ->
       OMap.get a (holdingsCache s4) = Some (snapshot_of env' a s3) /\
       ((forall h, In h (handlers_of a s3) -> cb_returns env' h batch = true) ->
        delivered s4 = delivered s3 ++ deliveries batch (handlers_of a s3) /\
        In (EvChanges a batch) (emitted s4)) /\
       (forall pre h post,
          handlers_of a s3 = pre ++ h :: post ->
          (forall x, In x pre -> cb_returns env' x batch = true) ->
          cb_returns env' h batch = false ->
          delivered s4 = delivered s3 ++ deliveries batch (pre ++ [h]) /\
          (forall cb, In cb post -> ~ In cb (pre ++ [h])) /\
          (forall b l, In (EvChanges b l) (emitted s4) -> In (EvChanges b l) (emitted s3)))) /\
    (forall (s0 : State) (cb : Callback),
       OMap.has a (subscriptions s0) = false ->
       watch_opens env a = true ->
       let s0' := run (setupWebSocketSubscription env a cb) s0 in
       handlers_of a s0' = [cb] /\
       listeners s0' = listeners s0 ++ [(nextSubscriptionId s0, a)]).
Proof.
  intros env s a cb1 cb2 Hs Hv Hsub Hcb1 s2.
  assert (E2 : setupWebSocketSubscription env a cb2 s = (Ok tt, s2)).
  { subst s2. unfold run. now rewrite (setup_multiplex_eq env a cb2 s Hv Hsub). }
  assert (Hs2 : wf (valid_address env) s2).
  { exact (exec_wf env (OpSubscribe a cb2) s Hs). }
  assert (Hh : handlers_of a s2 = set_add cb2 (handlers_of a s)).
  { subst s2. unfold run. rewrite (setup_multiplex_eq env a cb2 s Hv Hsub). cbn [snd].
    unfold handlers_of at 1. simpl. now rewrite OMapFacts.get_set_eq. }
  conjuncts.
  - intros b. now apply (wf_one_watch (valid_address env)).
  - intros op. pose proof (exec_wf env op s Hs) as Hop. split; auto.
    intros b. now apply (wf_one_watch (valid_address env)).
  - intros firstId now tr b Hall. apply (wf_one_watch (valid_address env)).
    apply run_trace_wf; auto. apply wf_fresh.
  - exact E2.
  - subst s2. unfold run. now rewrite (setup_multiplex_eq env a cb2 s Hv Hsub).
  - subst s2. unfold run. now rewrite (setup_multiplex_eq env a cb2 s Hv Hsub).
  - exact Hh.
  - rewrite Hh. now apply set_add_keeps.
  - rewrite Hh. apply set_add_In.
  - intros tr env' id Hall s3 batch s4 Hlive Hne.
    assert (Hs3 : wf (valid_address env) s3) by (apply run_trace_wf; assumption).
    assert (E4 : s4 = run (onAccountChange_handler env' a) s3).
    { subst s4. unfold run. now rewrite (notify_live _ env' id a s3 Hs3 Hlive). }
    destruct (handler_serves env' a s3 Hne) as [Hc [Hd [Hok Hbad]]].
    fold batch in Hd, Hok, Hbad. rewrite <- E4 in Hc, Hd, Hok, Hbad.
    split; [exact Hc|]. split.
    + intros Hall_return.
      pose proof (first_thrower_none env' batch _ Hall_return) as F.
      split; [|now apply Hok].
      rewrite Hd. now rewrite (served_all _ _ _ F).
    + intros pre h post Hsplit Hpre Hthrow.
      destruct (served_prefix env' batch pre h post Hpre Hthrow) as [Sv F].
      rewrite <- Hsplit in Sv, F.
      split; [rewrite Hd, Sv; reflexivity|]. split.
      * intros cb Hpost Hin.
        pose proof (wf_handlers_of env s3 a Hs3) as Hnd. rewrite Hsplit in Hnd.
        replace (pre ++ h :: post) with ((pre ++ [h]) ++ post) in Hnd
          by (rewrite <- app_assoc; reflexivity).
        revert Hnd Hin Hpost. generalize (pre ++ [h]). intros l Hnd Hin Hpost.
        induction l as [|x l IH]; [destruct Hin|].
        simpl in Hnd. inversion Hnd as [|? ? Hx Hnd']; subst.
        destruct Hin as [->|Hin]; [|now apply IH].
        apply Hx. apply in_or_app. now right.
      * apply Hbad. rewrite F. discriminate.
  - intros s0 cb Hnone Hopen s0'. subst s0'. unfold run.
    rewrite (setup_open_eq env a cb s0 Hv Hnone Hopen). cbn [snd]. split.
    + unfold handlers_of. simpl. now rewrite OMapFacts.get_set_eq.
    + reflexivity.
Qed.

(** Two subscribers on one address, then a balance change. *)
Lemma one_watch_multiplexed_witness :
  let env := Fixtures.calm (Fixtures.holds "A" Fixtures.X1000) in
  let env' := Fixtures.calm (Fixtures.holds "A" Fixtures.X1500) in
  let s := exec env (OpSubscribe "A" 1%nat) (fresh_tracker 1 0) in
  let s2 := run (setupWebSocketSubscription env "A" 2%nat) s in
  listeners s2 = [(1%nat, "A"%string)] /\
  handlers_of "A" s2 = [1%nat; 2%nat] /\
  delivered (run (notify env' 1%nat) s2) =
    [(1%nat, [mkTokenChange "X" 1000 1500 20 6]);
     (2%nat, [mkTokenChange "X" 1000 1500 20 6])].
Proof.
  intros env env' s s2. subst s2.
  assert (Hwf : wf (valid_address env) s).
  { exact (exec_wf env (OpSubscribe "A" 1%nat) _ (wf_fresh _ 1%nat 0)). }
  assert (Hin : In 1%nat (handlers_of "A" s)) by (vm_compute; now left).
  destruct (one_watch_multiplexed env s "A" 1%nat 2%nat Hwf eq_refl eq_refl Hin)
    as [_ [_ [_ [_ [Hl [_ [Hh [_ [_ [Hdel _]]]]]]]]]].
  split; [rewrite Hl; vm_compute; reflexivity|].
  split; [rewrite Hh; vm_compute; reflexivity|].
  destruct (Hdel [] env' 1%nat (Forall_nil _)) as [_ [Hd _]].
  - vm_compute. now left.
  - vm_compute. discriminate.
  - destruct Hd as [Hd _]; [intros h _; reflexivity|].
    cbn [run_trace] in Hd. rewrite Hd. vm_compute. reflexivity.
Defined.

(** C4 fails as stated.  With callbacks 1 and 2 registered for A on one
    watch, a balance change on which callback 1 throws reaches callback 1
    alone; the new snapshot is cached all the same, so the next notification
    finds nothing to report and callback 2 never learns of the change.  And a
    second [subscribe] made while the tracker is paused does not join the
    existing set: it replaces callback 1 by callback 2. *)
Lemma second_callback_misses_batch :
  let env := Fixtures.calm (Fixtures.holds "A" Fixtures.X1000) in
  let env' := Fixtures.cb1_throws (Fixtures.holds "A" Fixtures.X1500) in
  let s2 := exec env (OpSubscribe "A" 2%nat)
              (exec env (OpSubscribe "A" 1%nat) (fresh_tracker 1 0)) in
  let s3 := exec env' (OpNotify 1%nat) s2 in
  let s4 := exec env' (OpNotify 1%nat) s3 in
  let paused := exec env OpPause (exec env (OpSubscribe "A" 1%nat) (fresh_tracker 1 0)) in
  handlers_of "A" s2 = [1%nat; 2%nat] /\
  listeners s2 = [(1%nat, "A"%string)] /\
  delivered s3 = [(1%nat, [mkTokenChange "X" 1000 1500 20 6])] /\
  OMap.get "A" (holdingsCache s3) = Some (mkWalletHoldings "A" Fixtures.X1500 20) /\
  delivered s4 = delivered s3 /\
  (forall batch, ~ In (2%nat, batch) (delivered s4)) /\
  handlers_of "A" paused = [1%nat] /\
  handlers_of "A" (exec env (OpSubscribe "A" 2%nat) paused) = [2%nat].
Proof.
  intros env env' s2 s3 s4 paused. conjuncts; try (vm_compute; reflexivity).
  intros batch Hin. vm_compute in Hin. destruct Hin as [Hin|[]]. discriminate Hin.
Qed.

(** ** Pause and resume *)

Lemma pause_loop_eq env entries s :
  (forall e, In e entries -> cancel_ok env (snd e) = true) ->
  for_of entries
    (fun entry =>
       bind (removeAccountChangeListener env (snd entry))
            (fun _ => modify (with_subscriptions (OMap.delete (fst entry))))) s
  = (Ok tt, cancel_all entries s).
Proof.
  revert s. induction entries as [|[a id] entries IH]; intros s Hok.
  - destruct s. reflexivity.
  - cbn [for_of]. unfold bind at 1. unfold bind at 1.
    unfold removeAccountChangeListener.
    rewrite (Hok (a, id)) by (simpl; auto). cbn [snd fst modify].
    rewrite IH by (intros e He; apply Hok; simpl; auto).
    reflexivity.
Qed.

Lemma delete_all {V} entries (m : OMap.t V) :
  (forall k, In k (OMap.keys m) -> In k (map fst entries)) ->
  fold_left (fun m (e : string * nat) => OMap.delete (fst e) m) entries m = [].
Proof.
  revert m. induction entries as [|[a id] entries IH]; intros m Hall; simpl.
  - destruct m as [|[k v] m]; auto. destruct (Hall k). simpl. auto.
  - apply IH. intros k Hk. rewrite OMapFacts.keys_delete in Hk.
    apply filter_In in Hk. destruct Hk as [Hk Hne].
    destruct (Hall k Hk) as [E|E]; auto.
    simpl in E. subst a. now rewrite String.eqb_refl in Hne.
Qed.

Lemma cancel_all_listeners entries (l : list (nat * string)) :
  (forall w, In w l -> In (fst w) (map snd entries)) ->
  fold_left (fun l (e : string * nat) => filter (fun w => negb (Nat.eqb (fst w) (snd e))) l)
            entries l = [].
Proof.
  revert l. induction entries as [|[a id] entries IH]; intros l Hall; simpl.
  - destruct l as [|w l]; auto. destruct (Hall w). simpl. auto.
  - apply IH. intros w Hw. apply filter_In in Hw. destruct Hw as [Hw Hne].
    destruct (Hall w Hw) as [E|E]; auto.
    simpl in E, Hne. subst id. now rewrite Nat.eqb_refl in Hne.
Qed.

Lemma pauseTracking_eq valid env s :
  wf valid s ->
  isPaused s = false ->
  (forall id, cancel_ok env id = true) ->
  pauseTracking env s = (Ok tt, paused_state s).
Proof.
  intros Hs Hp Hok. unfold pauseTracking. unfold bind at 1. unfold gets at 1.
  rewrite Hp. unfold try_catch. unfold bind at 1. unfold gets at 1. unfold bind at 1.
  rewrite pause_loop_eq by (intros e _; apply Hok).
  unfold bind, modify, emit, paused_state, cancel_all. unfold_setters. simpl.
  rewrite delete_all, cancel_all_listeners; auto.
  intros [id a] Hin. simpl. apply (wf_recorded _ _ Hs) in Hin.
  apply OMapFacts.get_In in Hin. apply in_map_iff. exists (a, id). auto.
Qed.



Lemma with_eventHandlers_same a hs s :
  OMap.get a (eventHandlers s) = Some hs ->
  with_eventHandlers (OMap.set a hs) s = s.
Proof.
  intros G. destruct s. unfold with_eventHandlers. simpl in *.
  now rewrite OMapFacts.set_same.
Qed.

Lemma setup_member env a h s hs :
  valid_address env a = true ->
  OMap.has a (subscriptions s) = true ->
  OMap.get a (eventHandlers s) = Some hs ->
  In h hs ->
  setupWebSocketSubscription env a h s = (Ok tt, s).
Proof.
  intros Hv Hsub G Hin. rewrite setup_multiplex_eq by assumption.
  unfold handlers_of. rewrite G, (set_add_member _ _ Hin).
  now rewrite with_eventHandlers_same.
Qed.

Lemma for_of_members env a s hs hs' :
  valid_address env a = true ->
  OMap.has a (subscriptions s) = true ->
  OMap.get a (eventHandlers s) = Some hs ->
  (forall h, In h hs' -> In h hs) ->
  for_of hs' (setupWebSocketSubscription env a) s = (Ok tt, s).
Proof.
  intros Hv Hsub G. induction hs' as [|h hs' IH]; intros Hall; [reflexivity|].
  cbn [for_of]. unfold bind. rewrite (setup_member env a h s hs) by (simpl in *; auto).
  apply IH. intros h' Hh'. apply Hall. simpl. auto.
Qed.

Lemma multiplex_fold env a rest :
  forall pre s,
    valid_address env a = true ->
    OMap.has a (subscriptions s) = true ->
    OMap.get a (eventHandlers s) = Some pre ->
    NoDup (pre ++ rest) ->
    for_of rest (setupWebSocketSubscription env a) s =
    (Ok tt, with_eventHandlers (OMap.set a (pre ++ rest)) s).
Proof.
  induction rest as [|h rest IH]; intros pre s Hv Hsub G Hnd.
  - rewrite app_nil_r. now rewrite with_eventHandlers_same.
  - cbn [for_of]. unfold bind. rewrite setup_multiplex_eq by assumption.
    unfold handlers_of. rewrite G.
    assert (Hfresh : ~ In h pre).
    { intros Hin. apply NoDup_remove_2 in Hnd. apply Hnd. apply in_or_app. now left. }
    rewrite (set_add_fresh _ _ Hfresh).
    rewrite (IH (pre ++ [h])); auto.
    + destruct s. unfold with_eventHandlers. simpl.
      now rewrite OMapFacts.set_set, <- app_assoc.
    + simpl. apply OMapFacts.get_set_eq.
    + now rewrite <- app_assoc.
Qed.

Lemma has_set_eq {V} a (v : V) m : OMap.has a (OMap.set a v m) = true.
Proof. unfold OMap.has. now rewrite OMapFacts.get_set_eq. Qed.

Lemma has_set_ne {V} a b (v : V) m : a <> b -> OMap.has b (OMap.set a v m) = OMap.has b m.
Proof. intros H. unfold OMap.has. now rewrite OMapFacts.get_set_ne. Qed.

Lemma has_same_keys {V W} (m : OMap.t V) (m' : OMap.t W) b :
  OMap.keys m' = OMap.keys m -> OMap.has b m' = OMap.has b m.
Proof.
  intros Hk.
  destruct (OMap.has b m') eqn:E', (OMap.has b m) eqn:E; auto.
  - apply OMapFacts.has_keys in E'. rewrite Hk in E'.
    apply OMapFacts.has_keys in E'. congruence.
  - apply OMapFacts.has_keys in E. rewrite <- Hk in E.
    apply OMapFacts.has_keys in E. congruence.
Qed.

Lemma mem_In b l : mem b l = true <-> In b l.
Proof.
  unfold mem. rewrite existsb_exists. split.
  - intros [x [Hx E]]. apply String.eqb_eq in E. now subst.
  - intros H. exists b. split; auto. apply String.eqb_refl.
Qed.

Lemma mem_keys {V} b (m : OMap.t V) : mem b (OMap.keys m) = OMap.has b m.
Proof.
  destruct (mem b (OMap.keys m)) eqn:E, (OMap.has b m) eqn:E'; auto.
  - apply mem_In, OMapFacts.has_keys in E. congruence.
  - apply OMapFacts.has_keys, mem_In in E'. congruence.
Qed.

Lemma preserves_resubscribe env a :
  preserves (wf (valid_address env)) (resubscribe env a).
Proof.
  unfold resubscribe. apply preserves_bind; [apply preserves_gets|].
  intros [hs|]; [|apply preserves_ret].
  apply preserves_for_of. intros h. apply preserves_setup.
Qed.

Lemma resubscribe_eq env a s :
  wf (valid_address env) s ->
  (forall b, watch_opens env b = true) ->
  resubscribe env a s =
  (Ok tt,
   match OMap.get a (eventHandlers s) with
   | Some (h :: rest) =>
       if OMap.has a (subscriptions s) then s
       else with_eventHandlers (OMap.set a (h :: rest))
              (with_emitted (fun log => log ++ [EvSubscribed a])
                 (after_refresh env a (watch_opened a h s)))
   | _ => s
   end).
Proof.
  intros Hs Hopen. unfold resubscribe. unfold bind at 1. unfold gets at 1.
  destruct (OMap.get a (eventHandlers s)) as [hs|] eqn:G; [|reflexivity].
  destruct (wf_handlers _ _ Hs a hs G) as [Hnd [Hne Hv]].
  destruct hs as [|h rest]; [congruence|].
  destruct (OMap.has a (subscriptions s)) eqn:Hsub.
  - apply (for_of_members env a s (h :: rest)); auto.
  - cbn [for_of]. unfold bind at 1.
    rewrite (setup_open_eq env a h s Hv Hsub (Hopen a)).
    rewrite (multiplex_fold env a rest [h]); auto.
    + simpl. apply has_set_eq.
    + simpl. apply OMapFacts.get_set_eq.
Qed.

Lemma resubscribe_spec env a s :
  wf (valid_address env) s ->
  (forall b, watch_opens env b = true) ->
  OMap.has a (holdingsCache s) = true ->
  exists s', resubscribe env a s = (Ok tt, s') /\ resumed_from env [a] s s'.
Proof.
  intros Hs Hopen Hc.
  pose proof (preserves_resubscribe env a s Hs) as Hwf.
  rewrite (resubscribe_eq env a s Hs Hopen) in *. cbn [snd] in Hwf.
  eexists. split; [reflexivity|].
  unfold resumed_from. split; [exact Hwf|]. clear Hwf.
  assert (Hmem : forall b, mem b [a] = String.eqb b a).
  { intros b. unfold mem. simpl. apply orb_false_r. }
  destruct (OMap.get a (eventHandlers s)) as [[|h rest]|] eqn:G.
  - destruct (wf_handlers _ _ Hs a [] G) as [_ [Hne _]]. congruence.
  - assert (Hh : OMap.has a (eventHandlers s) = true) by (unfold OMap.has; now rewrite G).
    destruct (OMap.has a (subscriptions s)) eqn:Hsub.
    + conjuncts; auto.
      * intros b. rewrite Hmem. destruct (String.eqb b a) eqn:E; simpl.
        -- apply String.eqb_eq in E. subst b. now rewrite Hsub.
        -- now rewrite orb_false_r.
      * intros b. rewrite Hmem. destruct (String.eqb b a) eqn:E; simpl.
        -- apply String.eqb_eq in E. subst b. now rewrite Hsub.
        -- now rewrite andb_false_r.
    + conjuncts.
      * simpl. rewrite OMapFacts.set_set. now apply OMapFacts.set_same.
      * reflexivity.
      * simpl. now apply OMapFacts.keys_set_present.
      * intros b. rewrite Hmem. simpl. destruct (String.eqb b a) eqn:E; simpl.
        -- apply String.eqb_eq in E. subst b. rewrite has_set_eq, Hh.
           now rewrite orb_true_r.
        -- apply String.eqb_neq in E. rewrite has_set_ne by congruence.
           now rewrite orb_false_r.
      * intros b. rewrite Hmem. destruct (String.eqb b a) eqn:E; simpl.
        -- apply String.eqb_eq in E. subst b. rewrite Hsub, Hh. simpl.
           unfold refreshed. simpl. rewrite OMapFacts.get_set_eq.
           eexists. reflexivity.
        -- rewrite andb_false_r. simpl. apply String.eqb_neq in E.
           apply OMapFacts.get_set_ne. congruence.
  - assert (Hh : OMap.has a (eventHandlers s) = false) by (unfold OMap.has; now rewrite G).
    conjuncts; auto.
    + intros b. rewrite Hmem. destruct (String.eqb b a) eqn:E; simpl.
      * apply String.eqb_eq in E. subst b. rewrite Hh. now rewrite orb_false_r.
      * now rewrite orb_false_r.
    + intros b. rewrite Hmem. destruct (String.eqb b a) eqn:E; simpl.
      * apply String.eqb_eq in E. subst b. rewrite Hh. now rewrite andb_false_r.
      * now rewrite andb_false_r.
Qed.

Lemma resumed_from_step env a rest s s1 s' :
  resumed_from env [a] s s1 ->
  resumed_from env rest s1 s' ->
  resumed_from env (a :: rest) s s'.
Proof.
  intros [W1 [H1 [P1 [K1 [S1 C1]]]]] [W2 [H2 [P2 [K2 [S2 C2]]]]].
  assert (Hmem : forall b, mem b [a] = String.eqb b a).
  { intros b. unfold mem. simpl. apply orb_false_r. }
  assert (Hcons : forall b, mem b (a :: rest) = String.eqb b a || mem b rest)
    by reflexivity.
  unfold resumed_from. conjuncts; try congruence.
  - intros b. rewrite S2, S1, H1, Hmem, Hcons.
    destruct (OMap.has b (subscriptions s)), (String.eqb b a), (mem b rest),
      (OMap.has b (eventHandlers s)); reflexivity.
  - intros b. specialize (C1 b). specialize (C2 b).
    rewrite S1, H1, Hmem in C2. rewrite Hmem in C1. rewrite Hcons.
    unfold refreshed in *.
    destruct (OMap.has b (subscriptions s)), (String.eqb b a), (mem b rest),
      (OMap.has b (eventHandlers s)); simpl in *;
      first [ congruence
            | exact C2
            | destruct C1 as [t Ht]; exists t; congruence ].
Qed.

Lemma resume_loop env addrs :
  forall s,
    wf (valid_address env) s ->
    (forall b, watch_opens env b = true) ->
    (forall a, In a addrs -> OMap.has a (holdingsCache s) = true) ->
    exists s', for_of addrs (resubscribe env) s = (Ok tt, s') /\
               resumed_from env addrs s s'.
Proof.
  induction addrs as [|a rest IH]; intros s Hs Hopen Hcached.
  - exists s. split; [reflexivity|]. unfold resumed_from. conjuncts; auto.
    + intros b. simpl. now rewrite orb_false_r.
    + intros b. simpl. now rewrite andb_false_r.
  - destruct (resubscribe_spec env a s Hs Hopen) as [s1 [E1 R1]].
    { apply Hcached. now left. }
    destruct (IH s1) as [s' [E' R']]; auto.
    + apply R1.
    + intros b Hb. destruct R1 as [_ [_ [_ [K1 _]]]].
      rewrite (has_same_keys _ _ b K1). apply Hcached. now right.
    + exists s'. split.
      * cbn [for_of]. unfold bind. now rewrite E1.
      * now apply (resumed_from_step env a rest s s1 s').
Qed.

Lemma resumeTracking_eq env s :
  wf (valid_address env) s ->
  isPaused s = true ->
  (forall b, watch_opens env b = true) ->
  exists s', resumed_from env (OMap.keys (holdingsCache s)) s s' /\
             resumeTracking env s =
             (Ok tt, with_emitted (fun log => log ++ [EvResumed]) (with_isPaused false s')).
Proof.
  intros Hs Hp Hopen.
  destruct (resume_loop env (OMap.keys (holdingsCache s)) s Hs Hopen) as [s' [E R]].
  { intros a Ha. now apply OMapFacts.has_keys. }
  exists s'. split; auto.
  unfold resumeTracking. unfold bind at 1. unfold gets at 1. rewrite Hp. cbn [negb].
  unfold try_catch. unfold bind at 1. unfold gets at 1. unfold bind at 1.
  rewrite E. reflexivity.
Qed.

Lemma wf_paused_state valid s : wf valid s -> wf valid (paused_state s).
Proof.
  intros [R B I K H]. constructor; simpl; auto.
  - intros id a [].
  - intros id a [].
  - constructor.
  - constructor.
Qed.

(** ** Refreshing twice, and balances read back *)

Lemma find_mint_NoDup l c :
  NoDup (map mint l) -> In c l -> find_mint (mint c) l = Some c.
Proof.
  unfold find_mint. induction l as [|t l IH]; simpl; [tauto|].
  intros Hnd Hin. inversion Hnd as [|? ? Hnotin Hnd']; subst.
  destruct Hin as [->|Hin].
  - now rewrite String.eqb_refl.
  - destruct (String.eqb (mint t) (mint c)) eqn:E; auto.
    apply String.eqb_eq in E. exfalso. apply Hnotin. rewrite E. now apply in_map.
Qed.

Lemma flat_map_nil {A B} (f : A -> list B) l :
  (forall x, In x l -> f x = []) -> flat_map f l = [].
Proof.
  induction l as [|x l IH]; simpl; auto.
  intros H. rewrite (H x) by auto. simpl. apply IH. auto.
Qed.

Lemma detectChanges_same l ts :
  NoDup (map mint l) -> detectChanges l l [] ts = [].
Proof.
  intros Hnd. rewrite detectChanges_split. simpl.
  unfold opened_or_moved, closed. rewrite !flat_map_nil; auto.
  - intros p Hp. unfold check_removed. rewrite some_mint_find.
    now rewrite (find_mint_NoDup l p Hnd Hp).
  - intros c Hc. unfold check_current.
    rewrite (find_mint_NoDup l c Hnd Hc). now rewrite Z.eqb_refl.
Qed.

(** X1. Refreshing an address twice while the ledger answers the same
    balances (mints unique) makes the second refresh return no change, and a
    notification arriving in that situation invokes no callback and emits no
    change batch; it still counts as an update. *)
Theorem refresh_twice_is_silent :
  forall (env1 env2 : Env) (a : string) (s : State),
    NoDup (map mint (read_tokens env1 a)) ->
    read_tokens env2 a = read_tokens env1 a ->
    let s1 := run (updateWalletHoldings env1 a) s in
    fst (updateWalletHoldings env2 a s1) = Ok [] /\
    delivered (run (onAccountChange_handler env2 a) s1) = delivered s1 /\
    (forall b batch,
       In (EvChanges b batch) (emitted (run (onAccountChange_handler env2 a) s1)) ->
       In (EvChanges b batch) (emitted s1)) /\
    updateCount (run (onAccountChange_handler env2 a) s1) = updateCount s1 + 1.
Proof.
  intros env1 env2 a s Hnd Hsame s1.
  assert (Hnone : refresh_changes env2 a s1 = []).
  { subst s1. unfold run. rewrite updateWalletHoldings_eq. cbn [snd].
    unfold refresh_changes. simpl. rewrite OMapFacts.get_set_eq. simpl.
    rewrite Hsame. now apply detectChanges_same. }
  split; [|split; [|split]].
  - rewrite updateWalletHoldings_eq. cbn [fst]. now rewrite Hnone.
  - unfold run. rewrite handler_eq, dispatch_eq, Hnone. reflexivity.
  - unfold run. rewrite handler_eq, dispatch_eq, Hnone. cbn [snd]. simpl.
    intros b batch Hin. apply in_app_or in Hin. destruct Hin as [Hin|Hin]; auto.
    unfold read_events in Hin. destruct (read_failed env2 a); simpl in Hin.
    + destruct Hin as [Hin|[]]. discriminate Hin.
    + destruct Hin.
  - unfold run. rewrite handler_eq, dispatch_eq, Hnone. cbn [snd]. simpl. lia.
Qed.

(** The ledger keeps answering X = 1000. *)
Lemma refresh_twice_is_silent_witness :
  let env := Fixtures.calm (Fixtures.holds "A" Fixtures.X1000) in
  let s1 := run (updateWalletHoldings env "A") (fresh_tracker 1 0) in
  fst (updateWalletHoldings env "A" s1) = Ok [] /\
  delivered (run (onAccountChange_handler env "A") s1) = delivered s1.
Proof.
  intros env s1. subst s1.
  assert (Hnd : NoDup (map mint (read_tokens env "A"))).
  { vm_compute. repeat constructor. simpl. tauto. }
  destruct (refresh_twice_is_silent env env "A" (fresh_tracker 1 0) Hnd eq_refl)
    as [H1 [H2 _]].
  split; [exact H1 | exact H2].
Defined.

Lemma getBalance_refreshed env a s m :
  getBalance (run (updateWalletHoldings env a) s) a m =
  option_map amount (find_mint m (read_tokens env a)).
Proof.
  unfold run, getBalance. rewrite updateWalletHoldings_eq. simpl.
  now rewrite OMapFacts.get_set_eq.
Qed.

(** X2. The change list of a refresh agrees with the balances read back
    through [getBalance] (absent read as 0), when mints are unique in the
    cached snapshot and in the ledger's answer: every entry carries the
    balance before the refresh as [oldBalance] and the balance after it as
    [newBalance], and every mint whose balance differs has an entry. *)
Theorem refresh_changes_match_balances :
  forall (env : Env) (a : string) (s : State) (changes : list TokenChange),
    (forall h, OMap.get a (holdingsCache s) = Some h -> NoDup (map mint (tokens h))) ->
    NoDup (map mint (read_tokens env a)) ->
    fst (updateWalletHoldings env a s) = Ok changes ->
    let s' := run (updateWalletHoldings env a) s in
    (forall e, In e changes ->
       oldBalance e = balance_or_0 (getBalance s a (change_mint e)) /\
       newBalance e = balance_or_0 (getBalance s' a (change_mint e))) /\
    (forall m,
       balance_or_0 (getBalance s a m) <> balance_or_0 (getBalance s' a m) ->
       exists e, In e changes /\ change_mint e = m).
Proof.
  intros env a s changes Hold Hnew Hret s'. subst s'.
  rewrite updateWalletHoldings_eq in Hret. cbn [fst] in Hret.
  injection Hret as <-.
  assert (Hafter : forall m, getBalance (run (updateWalletHoldings env a) s) a m =
                             option_map amount (find_mint m (read_tokens env a)))
    by (intros m; apply getBalance_refreshed).
  unfold refresh_changes, diff_against, getBalance at 1 3.
  set (new := read_tokens env a) in *.
  set (ts := read_time env a (clock s)).
  destruct (OMap.get a (holdingsCache s)) as [h|] eqn:G.
  - specialize (Hold h eq_refl). set (old := tokens h) in *.
    rewrite detectChanges_split. simpl. split.
    + intros e He. rewrite Hafter. apply in_app_or in He. destruct He as [He|He].
      * unfold opened_or_moved in He. apply in_flat_map in He.
        destruct He as [c [Hc He]]. unfold check_current in He.
        pose proof (find_mint_NoDup new c Hnew Hc) as Fc.
        destruct (find_mint (mint c) old) as [p|] eqn:F.
        -- destruct (negb (amount p =? amount c)); simpl in He; [|tauto].
           destruct He as [<-|[]]. simpl. now rewrite F, Fc.
        -- simpl in He. destruct He as [<-|[]]. simpl. now rewrite F, Fc.
      * unfold closed in He. apply in_flat_map in He.
        destruct He as [p [Hp He]]. unfold check_removed in He.
        rewrite some_mint_find in He.
        destruct (find_mint (mint p) new) eqn:F; simpl in He; [tauto|].
        destruct He as [<-|[]]. simpl.
        now rewrite (find_mint_NoDup old p Hold Hp), F.
    + intros m Hdiff. rewrite Hafter in Hdiff.
      destruct (find_mint m new) as [c|] eqn:Fn.
      * destruct (find_mint_In _ _ _ Fn) as [Hc Hm]. subst m.
        destruct (opened_In old new ts c Hc) as [H|[p [Hp Heq]]].
        -- eexists. split; [apply in_or_app; left; exact H | reflexivity].
        -- exfalso. apply Hdiff. rewrite Hp. simpl. congruence.
      * destruct (find_mint m old) as [p|] eqn:Fo.
        -- destruct (find_mint_In _ _ _ Fo) as [Hp Hm]. subst m.
           eexists. split; [apply in_or_app; right; apply closed_In; eauto | reflexivity].
        -- exfalso. apply Hdiff. reflexivity.
  - split.
    + intros e He. rewrite Hafter. unfold all_new in He. apply in_map_iff in He.
      destruct He as [c [<- Hc]]. simpl.
      now rewrite (find_mint_NoDup new c Hnew Hc).
    + intros m Hdiff. rewrite Hafter in Hdiff.
      destruct (find_mint m new) as [c|] eqn:Fn; [|exfalso; apply Hdiff; reflexivity].
      destruct (find_mint_In _ _ _ Fn) as [Hc Hm]. subst m.
      eexists. split; [apply all_new_In; exact Hc | reflexivity].
Qed.

(** X moves from 1000 to 1500. *)
Lemma refresh_changes_match_balances_witness :
  let env := Fixtures.calm (Fixtures.holds "A" Fixtures.X1500) in
  let s := mkState [("A"%string, mkWalletHoldings "A" Fixtures.X1000 0)]
                   [] [] [] false 0 0 [] 0%nat 50 [] [] in
  let changes := [mkTokenChange "X" 1000 1500 60 6] in
  let s' := run (updateWalletHoldings env "A") s in
  NoDup (map mint (read_tokens env "A")) /\
  fst (updateWalletHoldings env "A" s) = Ok changes /\
  (forall e, In e changes ->
     oldBalance e = balance_or_0 (getBalance s "A" (change_mint e)) /\
     newBalance e = balance_or_0 (getBalance s' "A" (change_mint e))) /\
  (forall m,
     balance_or_0 (getBalance s "A" m) <> balance_or_0 (getBalance s' "A" m) ->
     exists e, In e changes /\ change_mint e = m).
Proof.
  intros env s changes s'.
  assert (N : NoDup (map mint (read_tokens env "A"))).
  { vm_compute. repeat constructor. simpl. tauto. }
  assert (R : fst (updateWalletHoldings env "A" s) = Ok changes).
  { vm_compute. reflexivity. }
  split; [exact N | split; [exact R |]].
  refine (refresh_changes_match_balances env "A" s changes _ N R).
  intros h Hh. vm_compute in Hh. injection Hh as <-.
  vm_compute. repeat constructor. simpl. tauto.
Defined.

(** X3. After a refresh [getBalance] returns, for each mint, the amount of
    the first token with that mint in the ledger's answer, and nothing for a
    mint the answer lacks; when the read failed every balance of the address
    reads as absent; balances of other addresses are not affected. *)
Theorem getBalance_after_refresh :
  forall (env : Env) (a : string) (s : State) (m : string),
    let s' := run (updateWalletHoldings env a) s in
    getBalance s' a m = option_map amount (find_mint m (read_tokens env a)) /\
    (forall tok, In tok (read_tokens env a) -> exists z, getBalance s' a (mint tok) = Some z) /\
    (~ In m (map mint (read_tokens env a)) -> getBalance s' a m = None) /\
    (read_failed env a = true -> getBalance s' a m = None) /\
    (forall b, b <> a -> getBalance s' b m = getBalance s b m).
Proof.
  intros env a s m s'. subst s'.
  split; [apply getBalance_refreshed|]. split; [|split; [|split]].
  - intros tok Htok. rewrite getBalance_refreshed.
    destruct (find_mint (mint tok) (read_tokens env a)) as [t|] eqn:F.
    + exists (amount t). reflexivity.
    + exfalso. now apply (In_find_mint tok (read_tokens env a)).
  - intros Hnot. rewrite getBalance_refreshed.
    apply find_mint_absent in Hnot. now rewrite Hnot.
  - intros Hf. rewrite getBalance_refreshed, (read_failed_empty _ _ Hf). reflexivity.
  - intros b Hb. unfold run, getBalance. rewrite updateWalletHoldings_eq. simpl.
    rewrite OMapFacts.get_set_ne by congruence. reflexivity.
Qed.

Lemma getBalance_after_refresh_witness :
  let env := Fixtures.calm (Fixtures.holds "A" Fixtures.X1000) in
  let s' := run (updateWalletHoldings env "A") (fresh_tracker 1 0) in
  getBalance s' "A" "X" = Some 1000 /\
  getBalance s' "A" "Y" = None /\
  getBalance (run (updateWalletHoldings Fixtures.offline "A") s') "A" "X" = None.
Proof.
  intros env s'. subst s'. split; [|split].
  - rewrite (proj1 (getBalance_after_refresh env "A" (fresh_tracker 1 0) "X")).
    vm_compute. reflexivity.
  - apply (proj1 (proj2 (proj2 (getBalance_after_refresh env "A" (fresh_tracker 1 0) "Y")))).
    vm_compute. intros [H|[]]. discriminate H.
  - apply (proj1 (proj2 (proj2 (proj2
             (getBalance_after_refresh Fixtures.offline "A"
                (run (updateWalletHoldings env "A") (fresh_tracker 1 0)) "X"))))).
    reflexivity.
Defined.

(** ** Sets of strings, wallet statistics and the configured wallets *)

Lemma mem_false_iff b l : mem b l = false <-> ~ In b l.
Proof.
  destruct (mem b l) eqn:E.
  - apply mem_In in E. split; [discriminate | tauto].
  - split; auto. intros _ H. apply mem_In in H. congruence.
Qed.

Lemma set_of_gen l :
  forall acc,
    NoDup acc ->
    let r := fold_left (fun acc x => if mem x acc then acc else acc ++ [x]) l acc in
    NoDup r /\
    (forall x, In x r <-> In x acc \/ In x l) /\
    (List.length r <= List.length acc + List.length l)%nat /\
    (List.length r = (List.length acc + List.length l)%nat <->
     NoDup l /\ forall x, In x l -> ~ In x acc).
Proof.
  induction l as [|y l IH]; intros acc Hacc; simpl.
  - split; [assumption|]. split; [tauto|]. split; [lia|].
    split; [intros _; split; [constructor | tauto] | lia].
  - destruct (mem y acc) eqn:E.
    + apply mem_In in E. destruct (IH acc Hacc) as [H1 [H2 [H3 H4]]].
      split; [assumption|]. split; [|split; [lia|]].
      * intros x. rewrite H2. split; [tauto|]. intros [H|[<-|H]]; auto.
      * split; [lia|]. intros [_ Hdis]. exfalso. apply (Hdis y); auto.
    + apply mem_false_iff in E.
      assert (Hacc' : NoDup (acc ++ [y])).
      { apply NoDup_app; [assumption | apply NoDup_single |].
        intros x Hx [<-|[]]. contradiction. }
      destruct (IH (acc ++ [y]) Hacc') as [H1 [H2 [H3 H4]]].
      rewrite length_app in H3, H4. simpl in H3, H4.
      split; [assumption|]. split; [|split; [lia|]].
      * intros x. rewrite H2, in_app_iff. simpl. tauto.
      * replace (List.length acc + S (List.length l))%nat
          with (List.length acc + 1 + List.length l)%nat by lia.
        rewrite H4. split.
        -- intros [Hnd Hdis]. split.
           ++ constructor; auto. intros Hy. apply (Hdis y Hy).
              apply in_or_app. right. now left.
           ++ intros x [<-|Hx]; auto. intros Hin. apply (Hdis x Hx).
              apply in_or_app. now left.
        -- intros [Hnd Hdis]. inversion Hnd as [|? ? Hy Hnd']; subst. split; auto.
           intros x Hx Hin. apply in_app_or in Hin. destruct Hin as [Hin|[<-|[]]].
           ++ apply (Hdis x); auto.
           ++ contradiction.
Qed.

Lemma set_of_spec l :
  NoDup (set_of l) /\
  (forall x, In x (set_of l) <-> In x l) /\
  (List.length (set_of l) <= List.length l)%nat /\
  (List.length (set_of l) = List.length l <-> NoDup l).
Proof.
  destruct (set_of_gen l [] (NoDup_nil _)) as [H1 [H2 [H3 H4]]].
  unfold set_of. simpl in *.
  split; [assumption|]. split; [|split; [assumption|]].
  - intros x. rewrite H2. tauto.
  - rewrite H4. split; [tauto|]. intros H. split; auto.
Qed.

(** X4. [getWalletStats] answers exactly for the cached addresses; its
    count of unique mints never exceeds its count of tokens and equals it
    exactly when no mint occurs twice in the snapshot; [hasActivity] holds
    exactly when some token has a positive amount (so not for an empty
    snapshot); the reported age is the time since the snapshot was taken. *)
Theorem getWalletStats_counts :
  forall (s : State) (a : string),
    (getWalletStats s a = None <-> OMap.get a (holdingsCache s) = None) /\
    (forall h st,
       OMap.get a (holdingsCache s) = Some h ->
       getWalletStats s a = Some st ->
       totalTokens st = List.length (tokens h) /\
       (uniqueMints st <= totalTokens st)%nat /\
       (uniqueMints st = totalTokens st <-> NoDup (map mint (tokens h))) /\
       (hasActivity st = true <-> exists t, In t (tokens h) /\ 0 < amount t) /\
       (tokens h = [] -> uniqueMints st = 0%nat /\ hasActivity st = false) /\
       lastUpdateAge st = clock s - lastUpdated h).
Proof.
  intros s a. unfold getWalletStats. split.
  - destruct (OMap.get a (holdingsCache s)); split; congruence.
  - intros h st G. rewrite G. intros [= <-]. simpl.
    destruct (set_of_spec (map mint (tokens h))) as [_ [_ [Hle Heq]]].
    rewrite length_map in Hle, Heq.
    split; [reflexivity|]. split; [exact Hle|]. split; [exact Heq|].
    split; [|split; [|reflexivity]].
    + rewrite existsb_exists. split.
      * intros [t [Ht Hp]]. exists t. split; auto. now apply Z.ltb_lt.
      * intros [t [Ht Hp]]. exists t. split; auto. now apply Z.ltb_lt.
    + intros ->. split; reflexivity.
Qed.

(** Two token accounts of one mint. *)
Lemma getWalletStats_counts_witness :
  let s := mkState [("A"%string,
                     mkWalletHoldings "A"
                       [mkTokenBalance "X" 5 6; mkTokenBalance "X" 0 6] 40)]
                   [] [] [] false 0 0 [] 0%nat 100 [] [] in
  getWalletStats s "A" = Some (mkWalletStats 2 1 60 true) /\
  (1 <= 2)%nat.
Proof.
  intros s.
  assert (Hst : getWalletStats s "A" = Some (mkWalletStats 2 1 60 true))
    by (vm_compute; reflexivity).
  split; [exact Hst|].
  exact (proj1 (proj2 (proj2 (getWalletStats_counts s "A") _ _ eq_refl Hst))).
Defined.

Lemma validate_step_eq addrs dups w :
  validate_step (addrs, dups) w =
  if mem (wallet_address w) addrs
  then (addrs, dups ++ [wallet_address w])
  else (addrs ++ [wallet_address w], dups).
Proof.
  unfold validate_step. simpl. now destruct (mem (wallet_address w) addrs).
Qed.

Lemma validate_gen ws :
  forall addrs dups,
    let r := fold_left validate_step ws (addrs, dups) in
    fst r = fold_left (fun acc x => if mem x acc then acc else acc ++ [x])
                      (map wallet_address ws) addrs /\
    (List.length (fst r) + List.length (snd r) =
     List.length addrs + List.length dups + List.length ws)%nat /\
    (forall x, In x (snd r) -> In x dups \/ In x (map wallet_address ws)) /\
    (List.length dups <= List.length (snd r))%nat /\
    (List.length (snd r) = List.length dups <->
     NoDup (map wallet_address ws) /\
     forall x, In x (map wallet_address ws) -> ~ In x addrs).
Proof.
  induction ws as [|w ws IH]; intros addrs dups; cbn [fold_left map].
  - cbn [fst snd List.length]. split; [reflexivity|]. split; [lia|]. split; [tauto|].
    split; [lia|].
    split; [intros _; split; [constructor | simpl; tauto] | reflexivity].
  - rewrite validate_step_eq.
    destruct (mem (wallet_address w) addrs) eqn:E.
    + apply mem_In in E.
      destruct (IH addrs (dups ++ [wallet_address w])) as [H1 [H2 [H3 [H4 H5]]]].
      rewrite length_app in H2, H4, H5. simpl in H2, H4, H5.
      split; [assumption|]. split; [simpl; lia|]. split; [|split; [lia|]].
      * intros x Hx. destruct (H3 x Hx) as [H|H]; simpl; auto.
        apply in_app_or in H. destruct H as [H|[<-|[]]]; auto.
      * split; [lia|].
        intros [_ Hdis]. exfalso. apply (Hdis (wallet_address w)); simpl; auto.
    + apply mem_false_iff in E.
      destruct (IH (addrs ++ [wallet_address w]) dups) as [H1 [H2 [H3 [H4 H5]]]].
      rewrite length_app in H2. simpl in H2.
      split; [assumption|]. split; [simpl; lia|]. split; [|split; [lia|]].
      * intros x Hx. destruct (H3 x Hx) as [H|H]; simpl; auto.
      * rewrite H5. split.
        -- intros [Hnd Hdis]. split.
           ++ constructor; auto. intros Hy. apply (Hdis _ Hy).
              apply in_or_app. right. now left.
           ++ intros x [<-|Hx]; auto. intros Hin. apply (Hdis x Hx).
              apply in_or_app. now left.
        -- intros [Hnd Hdis]. inversion Hnd as [|? ? Hy Hnd']; subst. split; auto.
           intros x Hx Hin. apply in_app_or in Hin. destruct Hin as [Hin|[<-|[]]].
           ++ apply (Hdis x); simpl; auto.
           ++ contradiction.
Qed.

(** X5. [validateWallets] returns true exactly when no address is
    configured twice, and it agrees with the duplicate test made by
    [WalletTrackingApp.initialize] (set size against list length).  Every
    reported duplicate is a configured address, and the reported duplicates
    together with the distinct addresses account for every wallet. *)
Theorem validateWallets_iff_unique :
  forall wallets : list Wallet,
    (validateWallets wallets = true <-> NoDup (map wallet_address wallets)) /\
    initialize_sees_duplicates wallets = negb (validateWallets wallets) /\
    (forall a, In a (duplicate_addresses wallets) -> In a (map wallet_address wallets)) /\
    (List.length (duplicate_addresses wallets)
     + List.length (set_of (map wallet_address wallets)) = List.length wallets)%nat.
Proof.
  intros wallets.
  destruct (validate_gen wallets [] []) as [H1 [H2 [H3 [_ H4]]]].
  simpl in H1, H2, H3, H4.
  assert (Hiff : validateWallets wallets = true <-> NoDup (map wallet_address wallets)).
  { unfold validateWallets, duplicate_addresses. rewrite Nat.eqb_eq, H4.
    split; [tauto|]. intros H. split; auto. }
  split; [exact Hiff|]. split; [|split].
  - unfold initialize_sees_duplicates. f_equal.
    destruct (set_of_spec (map wallet_address wallets)) as [_ [_ [_ Heq]]].
    rewrite length_map in Heq.
    destruct (validateWallets wallets) eqn:V.
    + apply Nat.eqb_eq. apply Heq. now apply Hiff.
    + apply Nat.eqb_neq. intros Hlen. apply Heq, Hiff in Hlen. congruence.
  - intros a Ha. destruct (H3 a Ha) as [[]|H]; exact H.
  - unfold duplicate_addresses, set_of. rewrite <- H1. lia.
Qed.

Lemma values_find_get (m : OMap.t Wallet) a :
  (forall k w, In (k, w) m -> wallet_address w = k) ->
  find (fun wallet => String.eqb (wallet_address wallet) a) (OMap.values m) = OMap.get a m.
Proof.
  unfold OMap.values. induction m as [|[k w] m IH]; intros Hkey; simpl; auto.
  rewrite (Hkey k w) by (simpl; auto). rewrite String.eqb_sym.
  destruct (String.eqb a k); auto. apply IH. intros k' w' Hin. apply Hkey. simpl. auto.
Qed.

Lemma In_set_cases {V} k (v : V) m k' v' :
  In (k', v') (OMap.set k v m) -> (k' = k /\ v' = v) \/ In (k', v') m.
Proof.
  induction m as [|[k0 v0] m IH]; simpl.
  - intros [H|[]]. injection H as <- <-. auto.
  - destruct (String.eqb k k0); simpl.
    + intros [H|H]; [injection H as <- <-; auto | auto].
    + intros [H|H]; auto. destruct (IH H); auto.
Qed.

Lemma unique_gen ws :
  forall m : OMap.t Wallet,
    (forall k w, In (k, w) m -> wallet_address w = k) ->
    let r := fold_left
               (fun uniqueWallets wallet =>
                  if negb (OMap.has (wallet_address wallet) uniqueWallets)
                  then OMap.set (wallet_address wallet) wallet uniqueWallets
                  else uniqueWallets) ws m in
    (forall k w, In (k, w) r -> wallet_address w = k) /\
    OMap.keys r = fold_left (fun acc x => if mem x acc then acc else acc ++ [x])
                            (map wallet_address ws) (OMap.keys m) /\
    (forall a, OMap.get a r = match OMap.get a m with
                              | Some w => Some w
                              | None => getWalletByAddress ws a
                              end).
Proof.
  induction ws as [|w ws IH]; intros m Hkey; simpl.
  - split; [assumption|]. split; [reflexivity|].
    intros a. now destruct (OMap.get a m).
  - rewrite mem_keys. destruct (OMap.has (wallet_address w) m) eqn:E; simpl.
    + destruct (IH m Hkey) as [H1 [H2 H3]].
      split; [assumption|]. split; [assumption|].
      intros a. rewrite H3. destruct (OMap.get a m) as [w0|] eqn:G; auto.
      unfold getWalletByAddress. simpl.
      destruct (String.eqb (wallet_address w) a) eqn:Ea; auto.
      apply String.eqb_eq in Ea. subst a. unfold OMap.has in E. now rewrite G in E.
    + assert (Hkey' : forall k w0, In (k, w0) (OMap.set (wallet_address w) w m) ->
                                   wallet_address w0 = k).
      { intros k w0 Hin. apply In_set_cases in Hin.
        destruct Hin as [[-> ->]|Hin]; auto. }
      destruct (IH _ Hkey') as [H1 [H2 H3]].
      split; [assumption|]. split.
      * rewrite H2. now rewrite OMapFacts.keys_set_fresh.
      * intros a. rewrite H3. unfold getWalletByAddress. simpl.
        destruct (String.eqb (wallet_address w) a) eqn:Ea.
        -- apply String.eqb_eq in Ea. subst a. rewrite OMapFacts.get_set_eq.
           unfold OMap.has in E. destruct (OMap.get (wallet_address w) m); congruence.
        -- apply String.eqb_neq in Ea. rewrite OMapFacts.get_set_ne by assumption.
           reflexivity.
Qed.

(** X6. [getUniqueWallets] keeps one wallet per address, in the order the
    addresses first occur: its addresses are the set [initialize] subscribes,
    without repetition, and looking an address up in the result gives the
    same wallet as looking it up in the full list (the first one
    configured). *)
Theorem getUniqueWallets_first_per_address :
  forall wallets : list Wallet,
    map wallet_address (getUniqueWallets wallets) = set_of (map wallet_address wallets) /\
    NoDup (map wallet_address (getUniqueWallets wallets)) /\
    (forall a, In a (map wallet_address (getUniqueWallets wallets)) <->
               In a (map wallet_address wallets)) /\
    (forall a, getWalletByAddress (getUniqueWallets wallets) a =
               getWalletByAddress wallets a) /\
    (List.length (getUniqueWallets wallets) <= List.length wallets)%nat.
Proof.
  intros wallets.
  destruct (unique_gen wallets [] ltac:(intros k w [])) as [H1 [H2 H3]].
  simpl in H1, H2, H3.
  assert (Haddr : map wallet_address (getUniqueWallets wallets)
                  = set_of (map wallet_address wallets)).
  { unfold getUniqueWallets, set_of. rewrite <- H2.
    unfold OMap.values, OMap.keys.
    match goal with |- map _ (map snd ?m) = map fst ?m =>
      generalize dependent m end.
    intros m Hkey _ _. induction m as [|[k w] m IH]; simpl; auto.
    rewrite (Hkey k w) by (simpl; auto). f_equal. apply IH.
    intros k' w' Hin. apply Hkey. simpl. auto. }
  destruct (set_of_spec (map wallet_address wallets)) as [S1 [S2 [S3 _]]].
  split; [exact Haddr|]. split; [now rewrite Haddr|]. split; [|split].
  - intros a. rewrite Haddr. apply S2.
  - intros a. unfold getWalletByAddress at 1. unfold getUniqueWallets.
    rewrite values_find_get by exact H1. apply H3.
  - rewrite <- (length_map wallet_address (getUniqueWallets wallets)), Haddr.
    now rewrite length_map in S3.
Qed.

(** ** Shutdown *)

Lemma shutdown_eq env s :
  shutdown env s =
  let survivors :=
    filter (fun w => negb (existsb (fun e => Nat.eqb (snd e) (fst w) && cancel_ok env (snd e))
                                   (subscriptions s))) in
  match find (fun e => negb (cancel_ok env (snd e))) (subscriptions s) with
  | Some e =>
      (Throw (WatchCancelFailed (snd e)),
       with_emitted (fun log => log ++ [EvError DuringShutdown])
         (with_listeners survivors s))
  | None =>
      (Ok tt,
       with_emitted (fun log => log ++ [EvShutdown])
         (with_updateLatencies (fun _ => [])
            (with_holdingsCache (fun _ => [])
               (with_eventHandlers (fun _ => [])
                  (with_subscriptions (fun _ => [])
                     (with_listeners survivors s))))))
  end.
Proof.
  unfold shutdown, try_catch. unfold bind at 1. unfold gets at 1.
  unfold bind at 1. unfold remove_all. unfold bind at 1. unfold modify at 1.
  cbv zeta.
  destruct (find (fun e => negb (cancel_ok env (snd e))) (subscriptions s)); reflexivity.
Qed.

Lemma recorded_cancelled env s id a :
  OMap.get a (subscriptions s) = Some id ->
  cancel_ok env id = true ->
  existsb (fun e => Nat.eqb (snd e) id && cancel_ok env (snd e)) (subscriptions s) = true.
Proof.
  intros G Hok. apply existsb_exists. exists (a, id). split.
  - now apply OMapFacts.get_In.
  - simpl. now rewrite Nat.eqb_refl, Hok.
Qed.

(** X7. When every recorded watch handle can be cancelled, [shutdown]
    returns normally and leaves no live watch, no handle, no callback set, no
    cached snapshot and no latency sample, and emits [shutdown]; the update
    and error counters and the pause flag are not reset. *)
Theorem shutdown_clears_everything :
  forall (env : Env) (valid : string -> bool) (s : State),
    wf valid s ->
    (forall a id, In (a, id) (subscriptions s) -> cancel_ok env id = true) ->
    let s' := run (shutdown env) s in
    fst (shutdown env s) = Ok tt /\
    listeners s' = [] /\
    subscriptions s' = [] /\
    eventHandlers s' = [] /\
    holdingsCache s' = [] /\
    updateLatencies s' = [] /\
    emitted s' = emitted s ++ [EvShutdown] /\
    updateCount s' = updateCount s /\
    errorCount s' = errorCount s /\
    isPaused s' = isPaused s.
Proof.
  intros env valid s Hs Hok s'. subst s'. unfold run. rewrite shutdown_eq. cbv zeta.
  destruct (find (fun e => negb (cancel_ok env (snd e))) (subscriptions s)) as [[a id]|] eqn:F.
  - apply find_some in F. destruct F as [Hin Hbad]. simpl in Hbad.
    rewrite (Hok a id Hin) in Hbad. discriminate.
  - cbn [fst snd]. simpl. conjuncts; try reflexivity.
    destruct (filter _ (listeners s)) as [|[id a] l] eqn:E; [reflexivity|].
    exfalso. assert (Hin : In (id, a) ((id, a) :: l)) by (simpl; auto).
    rewrite <- E in Hin. apply filter_In in Hin. destruct Hin as [Hin Hp].
    simpl in Hp. apply negb_true_iff in Hp.
    pose proof (wf_recorded _ _ Hs id a Hin) as G.
    rewrite (recorded_cancelled env s id a G) in Hp; [discriminate|].
    apply (Hok a id). now apply OMapFacts.get_In.
Qed.

Lemma shutdown_clears_everything_witness :
  let env := Fixtures.calm (Fixtures.holds "A" Fixtures.X1000) in
  let s := exec env (OpNotify 1%nat) (exec env (OpSubscribe "A" 1%nat) (fresh_tracker 1 0)) in
  listeners (run (shutdown env) s) = [] /\
  holdingsCache (run (shutdown env) s) = [] /\
  updateCount (run (shutdown env) s) = 1.
Proof.
  intros env s.
  assert (Hwf : wf (valid_address env) s).
  { exact (exec_wf env (OpNotify 1%nat) _
             (exec_wf env (OpSubscribe "A" 1%nat) _ (wf_fresh _ 1%nat 0))). }
  destruct (shutdown_clears_everything env (valid_address env) s Hwf (fun _ _ _ => eq_refl))
    as [_ [Hl [_ [_ [Hc [_ [_ [Hu _]]]]]]]].
  split; [exact Hl|]. split; [exact Hc|]. rewrite Hu. vm_compute. reflexivity.
Defined.

(** X8. When some recorded watch handle cannot be cancelled, [shutdown]
    emits an error and throws without clearing anything: handles, callback
    sets, cached snapshots and latency samples stay as they were.  The
    watches that could be cancelled are gone all the same, so the handles
    still recorded for them no longer have a live watch. *)
Theorem shutdown_failure_clears_nothing :
  forall (env : Env) (valid : string -> bool) (s : State) (a : string) (id : nat),
    wf valid s ->
    In (a, id) (subscriptions s) ->
    cancel_ok env id = false ->
    let s' := run (shutdown env) s in
    (exists bad, fst (shutdown env s) = Throw (WatchCancelFailed bad) /\
                 cancel_ok env bad = false) /\
    subscriptions s' = subscriptions s /\
    eventHandlers s' = eventHandlers s /\
    holdingsCache s' = holdingsCache s /\
    updateLatencies s' = updateLatencies s /\
    emitted s' = emitted s ++ [EvError DuringShutdown] /\
    (forall w, In w (listeners s') -> In w (listeners s)) /\
    (forall b idb, OMap.get b (subscriptions s) = Some idb -> cancel_ok env idb = true ->
                   OMap.get b (subscriptions s') = Some idb /\ watches_of b s' = []).
Proof.
  intros env valid s a id Hs Hin Hbad s'. subst s'. unfold run. rewrite shutdown_eq.
  cbv zeta.
  destruct (find (fun e => negb (cancel_ok env (snd e))) (subscriptions s)) as [[a0 id0]|] eqn:F.
  - pose proof (find_some _ _ F) as [_ Hbad0]. simpl in Hbad0.
    apply negb_true_iff in Hbad0. cbn [fst snd]. simpl.
    split; [exists id0; auto|]. conjuncts; try reflexivity.
    + intros w Hw. now apply filter_In in Hw.
    + intros b idb G Hok. split; [exact G|].
      unfold watches_of. simpl.
      match goal with |- filter ?q (filter ?p ?l) = [] =>
        destruct (filter q (filter p l)) as [|[i c] rest] eqn:E end; [reflexivity|].
      exfalso. assert (Hw : In (i, c) ((i, c) :: rest)) by (simpl; auto).
      rewrite <- E in Hw. apply filter_In in Hw. destruct Hw as [Hw Hc].
      simpl in Hc. apply String.eqb_eq in Hc. subst c.
      apply filter_In in Hw. destruct Hw as [Hw Hp]. simpl in Hp.
      apply negb_true_iff in Hp.
      pose proof (wf_recorded _ _ Hs i b Hw) as G'.
      assert (i = idb) by congruence. subst i.
      rewrite (recorded_cancelled env s idb b G Hok) in Hp. discriminate.
  - exfalso. pose proof (find_none _ _ F (a, id) Hin) as H. simpl in H.
    rewrite Hbad in H. discriminate.
Qed.

(** A and B are watched; only the watch of B refuses to go. *)
Lemma shutdown_failure_clears_nothing_witness :
  let env := Fixtures.calm (Fixtures.holds "A" Fixtures.X1000) in
  let stuck := mkEnv (fun _ => true) (fun _ => Some []) (fun _ => 10) (fun _ => true)
                     (fun id => negb (Nat.eqb id 2)) true (fun _ _ => true) in
  let s := exec env (OpSubscribe "B" 2%nat) (exec env (OpSubscribe "A" 1%nat) (fresh_tracker 1 0)) in
  subscriptions (run (shutdown stuck) s) = subscriptions s /\
  OMap.get "A" (subscriptions (run (shutdown stuck) s)) = Some 1%nat /\
  watches_of "A" (run (shutdown stuck) s) = [].
Proof.
  intros env stuck s.
  assert (Hwf : wf (valid_address env) s).
  { exact (exec_wf env (OpSubscribe "B" 2%nat) _
             (exec_wf env (OpSubscribe "A" 1%nat) _ (wf_fresh _ 1%nat 0))). }
  assert (Hin : In ("B"%string, 2%nat) (subscriptions s)) by (vm_compute; auto).
  destruct (shutdown_failure_clears_nothing stuck (valid_address env) s "B" 2%nat
              Hwf Hin eq_refl) as [_ [Hsub [_ [_ [_ [_ [_ Hdead]]]]]]].
  split; [exact Hsub|].
  apply (Hdead "A"%string 1%nat); vm_compute; reflexivity.
Defined.

(** ** [refreshAllHoldings] *)

(** What [dispatch] leaves alone, whether it returns or throws. *)
Lemma dispatch_frame env a changes s :
  let s' := snd (dispatch env a changes s) in
  holdingsCache s' = holdingsCache s /\
  eventHandlers s' = eventHandlers s /\
  subscriptions s' = subscriptions s /\
  listeners s' = listeners s /\
  updateLatencies s' = updateLatencies s /\
  updateCount s' = updateCount s /\
  errorCount s' = errorCount s /\
  (exists l, emitted s' = emitted s ++ l).
Proof.
  rewrite dispatch_eq. destruct changes as [|c changes]; cbv zeta.
  - simpl. conjuncts; try reflexivity. exists []. now rewrite app_nil_r.
  - destruct (first_thrower env (c :: changes) (handlers_of a s)); simpl;
      conjuncts; try reflexivity.
    + exists []. now rewrite app_nil_r.
    + eexists. reflexivity.
Qed.

Lemma refresh_one_spec env a s :
  exists s',
    refresh_one env a s = (Ok tt, s') /\
    holdingsCache s' = OMap.set a (snapshot_of env a s) (holdingsCache s) /\
    eventHandlers s' = eventHandlers s /\
    subscriptions s' = subscriptions s /\
    listeners s' = listeners s /\
    (exists l, emitted s' = emitted s ++ l).
Proof.
  unfold refresh_one, try_catch. unfold bind at 1. rewrite updateWalletHoldings_eq.
  pose proof (dispatch_frame env a (refresh_changes env a s) (after_refresh env a s))
    as [Hc [Hh [Hs [Hl [_ [_ [_ [l He]]]]]]]].
  destruct (dispatch env a (refresh_changes env a s) (after_refresh env a s))
    as [[[]|e] s1]; cbn [snd] in *.
  - exists s1. split; [reflexivity|]. rewrite Hc, Hh, Hs, Hl, He. simpl.
    conjuncts; try reflexivity. eexists. now rewrite <- app_assoc.
  - eexists. split; [reflexivity|]. simpl. rewrite Hc, Hh, Hs, Hl, He. simpl.
    conjuncts; try reflexivity. eexists. now rewrite <- !app_assoc.
Qed.

Lemma refreshed_elsewhere env a b s s' (h : WalletHoldings) :
  holdingsCache s' = OMap.set b h (holdingsCache s) ->
  a <> b -> refreshed env a s -> refreshed env a s'.
Proof.
  intros Hc Hne [t Ht]. exists t. rewrite Hc, OMapFacts.get_set_ne by congruence. exact Ht.
Qed.

Lemma refresh_loop env addrs :
  forall s,
    exists s',
      for_of addrs (refresh_one env) s = (Ok tt, s') /\
      (forall a, In a addrs -> refreshed env a s') /\
      (forall a, ~ In a addrs -> OMap.get a (holdingsCache s') = OMap.get a (holdingsCache s)) /\
      ((forall a, In a addrs -> OMap.has a (holdingsCache s) = true) ->
       OMap.keys (holdingsCache s') = OMap.keys (holdingsCache s)) /\
      eventHandlers s' = eventHandlers s /\
      subscriptions s' = subscriptions s /\
      listeners s' = listeners s /\
      (exists l, emitted s' = emitted s ++ l).
Proof.
  induction addrs as [|a addrs IH]; intros s.
  - exists s. split; [reflexivity|]. conjuncts; try reflexivity.
    + intros a [].
    + exists (@nil Event). now rewrite app_nil_r.
  - destruct (refresh_one_spec env a s) as [s1 [E1 [C1 [H1 [S1 [L1 [l1 M1]]]]]]].
    destruct (IH s1) as [s' [E' [R' [F' [K' [H' [S' [L' [l' M']]]]]]]]].
    exists s'. split; [cbn [for_of]; unfold bind; now rewrite E1|].
    split; [|split; [|split; [|conjuncts; try congruence]]].
    + intros b [<-|Hb]; auto.
      destruct (in_dec string_dec a addrs) as [Hin|Hout]; auto.
      unfold refreshed. rewrite (F' a Hout), C1, OMapFacts.get_set_eq.
      eexists. reflexivity.
    + intros b Hb. rewrite F' by (simpl in Hb; tauto).
      rewrite C1, OMapFacts.get_set_ne; auto. simpl in Hb. tauto.
    + intros Hall. rewrite K'.
      * rewrite C1. apply OMapFacts.keys_set_present. apply Hall. now left.
      * intros b Hb. rewrite C1.
        destruct (string_dec a b) as [->|Hne]; [apply has_set_eq|].
        rewrite has_set_ne by assumption. apply Hall. now right.
    + exists (l1 ++ l'). now rewrite M', M1, app_assoc.
Qed.

(** X9. [refreshAllHoldings] never throws, whatever the ledger answers and
    even when callbacks throw: every cached address ends up with the snapshot
    the ledger answered for it (the empty one where the read failed), the set
    of cached addresses is unchanged, watch handles, live watches and
    callback sets are untouched, and [refreshed] is the last event emitted. *)
Theorem refreshAllHoldings_isolated :
  forall (env : Env) (s : State),
    let s' := run (refreshAllHoldings env) s in
    fst (refreshAllHoldings env s) = Ok tt /\
    (forall a, OMap.has a (holdingsCache s) = true -> refreshed env a s') /\
    OMap.keys (holdingsCache s') = OMap.keys (holdingsCache s) /\
    eventHandlers s' = eventHandlers s /\
    subscriptions s' = subscriptions s /\
    listeners s' = listeners s /\
    (exists l, emitted s' = emitted s ++ l ++ [EvRefreshed]).
Proof.
  intros env s s'. subst s'.
  destruct (refresh_loop env (OMap.keys (holdingsCache s)) s)
    as [s1 [E [R [_ [K [H [S [L [l M]]]]]]]]].
  assert (Heq : refreshAllHoldings env s =
                (Ok tt, with_emitted (fun log => log ++ [EvRefreshed]) s1)).
  { unfold refreshAllHoldings, try_catch.
    unfold bind at 1. unfold gets at 1. unfold bind at 1. rewrite E. reflexivity. }
  unfold run. rewrite Heq. cbn [fst snd]. simpl. conjuncts; auto.
  - intros a Ha. apply OMapFacts.has_keys in Ha. destruct (R a Ha) as [t Ht].
    exists t. exact Ht.
  - apply K. intros a Ha. now apply OMapFacts.has_keys.
  - exists l. now rewrite M, app_assoc.
Qed.

(** ** The counters *)

Lemma preserves_modify_metrics (f : State -> State) :
  (forall s, updateLatencies (f s) = updateLatencies s /\
             updateCount (f s) = updateCount s /\
             errorCount (f s) = errorCount s) ->
  preserves metrics_ok (modify f).
Proof.
  intros Hf s Hs. simpl. destruct (Hf s) as [H1 [H2 H3]].
  unfold metrics_ok in *. now rewrite H1, H2, H3.
Qed.

Lemma preserves_emit_metrics ev : preserves metrics_ok (emit ev).
Proof. apply preserves_modify_metrics. intros s. conjuncts; reflexivity. Qed.

Lemma preserves_clear_latencies :
  preserves metrics_ok (modify (with_updateLatencies (fun _ => []))).
Proof.
  intros s [H1 [H2 H3]]. unfold metrics_ok. simpl. lia.
Qed.

Lemma preserves_handler_metrics env a :
  preserves metrics_ok (onAccountChange_handler env a).
Proof.
  intros s [H1 [H2 H3]]. rewrite handler_eq. cbn [snd].
  pose proof (dispatch_frame env a (refresh_changes env a s) (timed env a s))
    as [_ [_ [_ [_ [Hl [Hu [He _]]]]]]].
  destruct (dispatch env a (refresh_changes env a s) (timed env a s)) as [[[]|e] s1];
    cbn [snd] in *; unfold metrics_ok; simpl; rewrite Hl, Hu, He; simpl;
    rewrite length_app; simpl; lia.
Qed.

Ltac metrics_leaf :=
  first [ apply preserves_emit_metrics
        | apply preserves_handler_metrics
        | apply preserves_clear_latencies
        | apply preserves_modify_metrics; intros ?; conjuncts; reflexivity ].

Ltac walk leaf :=
  repeat first
    [ apply preserves_ret
    | apply preserves_throw
    | apply preserves_gets
    | leaf
    | apply preserves_bind; [|intros ?]
    | apply preserves_try; [|intros ?]
    | apply preserves_for_of; intros ?
    | match goal with
      | |- preserves _ (match ?x with _ => _ end) => destruct x
      end ].

Lemma exec_metrics env op s : metrics_ok s -> metrics_ok (exec env op s).
Proof.
  revert s. change (preserves metrics_ok (fun s => (Ok tt, exec env op s))).
  destruct op; simpl; unfold run;
    match goal with
    | |- preserves _ (fun s => (Ok tt, snd (?m s))) =>
        assert (H : preserves metrics_ok m); [|intros s Hs; apply (H s Hs)]
    end;
    do 3 unfold setupWebSocketSubscription, removeSubscription, updateWalletHoldings,
      notify, pauseTracking, resumeTracking, resubscribe, refreshAllHoldings,
      refresh_one, shutdown, remove_all, dispatch, invoke, getTokenAccounts,
      getParsedTokenAccountsByOwner, newPublicKey, onAccountChange,
      removeAccountChangeListener, validateAddress;
    cbv zeta; walk metrics_leaf.
Qed.

Lemma run_trace_metrics tr : forall s, metrics_ok s -> metrics_ok (run_trace tr s).
Proof.
  induction tr as [|[env op] tr IH]; intros s Hs; simpl; auto.
  apply IH. now apply exec_metrics.
Qed.

(** X10. In every state a tracker reaches from its construction, both
    counters are non-negative and there are at most as many latency samples
    as counted notifications; each notification adds exactly one sample and
    exactly one count.  Hence the reported success rate never exceeds 1 (it
    can fall below 0, since errors are not counted among the updates). *)
Theorem metrics_stay_consistent :
  forall (firstId : nat) (now : Z) (tr : list (Env * Op)),
    let s := run_trace tr (fresh_tracker firstId now) in
    0 <= updateCount s /\
    0 <= errorCount s /\
    Z.of_nat (List.length (updateLatencies s)) <= updateCount s + errorCount s /\
    (successRate (getMetrics s) <= 1)%Q /\
    (forall env a,
       let s' := run (onAccountChange_handler env a) s in
       List.length (updateLatencies s') = S (List.length (updateLatencies s)) /\
       updateCount s' + errorCount s' = updateCount s + errorCount s + 1).
Proof.
  intros firstId now tr s.
  assert (Hok : metrics_ok s).
  { apply run_trace_metrics. unfold metrics_ok, fresh_tracker. simpl. lia. }
  destruct Hok as [H1 [H2 H3]]. conjuncts; auto.
  - unfold getMetrics. cbn [successRate]. destruct (0 <? updateCount s) eqn:E.
    + apply Z.ltb_lt in E. apply js_div_le_1; lia.
    + apply Qle_refl.
  - intros env a s'. subst s'. unfold run. rewrite handler_eq. cbn [snd].
    pose proof (dispatch_frame env a (refresh_changes env a s) (timed env a s))
      as [_ [_ [_ [_ [Hl [Hu [He _]]]]]]].
    destruct (dispatch env a (refresh_changes env a s) (timed env a s)) as [[[]|e] s1];
      cbn [snd] in *; simpl; rewrite Hl, Hu, He; simpl;
      rewrite length_app; simpl; split; lia.
Qed.

(** A reachable state with a negative success rate: one notification goes
    through, two make the callback throw. *)
Lemma success_rate_below_zero :
  let calm := Fixtures.calm (Fixtures.holds "A" Fixtures.X1500) in
  let flip := Fixtures.cb1_throws (Fixtures.holds "A" Fixtures.X1000) in
  let flop := Fixtures.cb1_throws (Fixtures.holds "A" Fixtures.X1500) in
  let s := run_trace [(calm, OpSubscribe "A" 1%nat); (calm, OpNotify 1%nat);
                      (flip, OpNotify 1%nat); (flop, OpNotify 1%nat)]
                     (fresh_tracker 1 0) in
  updateCount s = 1 /\ errorCount s = 2 /\ (successRate (getMetrics s) == -1)%Q.
Proof.
  intros calm flip flop s. conjuncts; vm_compute; reflexivity.
Qed.

(** ** Health after a pause or a failed watch *)

Lemma health_errors env s :
  errors (checkHealth env s) =
    (if probe_ok env then
       (if is_stale s then [StaleData] else []) ++
       (if counts_differ s
        then [SubscriptionMismatch (OMap.size (subscriptions s)) (OMap.size (eventHandlers s))]
        else [])
     else [ConnectionError]) /\
  status (checkHealth env s) = classify (List.length (errors (checkHealth env s))) /\
  activeSubscriptions (checkHealth env s) = OMap.size (subscriptions s).
Proof.
  unfold checkHealth, is_stale, counts_differ. rewrite scan_most_recent.
  destruct (probe_ok env); simpl; [|auto].
  destruct (most_recent (OMap.values (holdingsCache s))) as [lu|]; simpl.
  - destruct (STALE_AFTER_MS <? clock s - lu);
      destruct (Nat.eqb (OMap.size (subscriptions s)) (OMap.size (eventHandlers s)));
      simpl; auto.
  - destruct (Nat.eqb (OMap.size (subscriptions s)) (OMap.size (eventHandlers s)));
      simpl; auto.
Qed.

Lemma mismatch_reported env s :
  probe_ok env = true ->
  OMap.size (subscriptions s) <> OMap.size (eventHandlers s) ->
  In (SubscriptionMismatch (OMap.size (subscriptions s)) (OMap.size (eventHandlers s)))
     (errors (checkHealth env s)) /\
  status (checkHealth env s) <> healthy.
Proof.
  intros Hp Hne. destruct (health_errors env s) as [He [Hst _]].
  rewrite Hst, He, Hp. unfold counts_differ.
  apply Nat.eqb_neq in Hne. rewrite Hne. simpl.
  destruct (is_stale s); simpl; split; auto; discriminate.
Qed.

(** X11. While a tracker with at least one callback set is paused, a health
    check whose probe succeeds reports a subscription mismatch (no handle
    against the number of callback sets), so its status is not [healthy]. *)
Theorem paused_tracker_is_not_healthy :
  forall (envPause envHealth : Env) (valid : string -> bool) (s : State),
    wf valid s ->
    isPaused s = false ->
    (forall id, cancel_ok envPause id = true) ->
    eventHandlers s <> [] ->
    probe_ok envHealth = true ->
    let h := checkHealth envHealth (run (pauseTracking envPause) s) in
    activeSubscriptions h = 0%nat /\
    In (SubscriptionMismatch 0 (OMap.size (eventHandlers s))) (errors h) /\
    status h <> healthy.
Proof.
  intros envP envH valid s Hs Hrun Hok Hne Hp h. subst h. unfold run.
  rewrite (pauseTracking_eq valid envP s Hs Hrun Hok). cbn [snd].
  destruct (health_errors envH (paused_state s)) as [_ [_ Ha]].
  split; [rewrite Ha; reflexivity|].
  apply (mismatch_reported envH (paused_state s) Hp).
  simpl. destruct (eventHandlers s); [congruence | discriminate].
Qed.

Lemma paused_tracker_is_not_healthy_witness :
  let env := Fixtures.calm (Fixtures.holds "A" Fixtures.X1000) in
  let s := exec env (OpSubscribe "A" 1%nat) (fresh_tracker 1 0) in
  status (checkHealth env (run (pauseTracking env) s)) <> healthy.
Proof.
  intros env s.
  assert (Hwf : wf (valid_address env) s).
  { exact (exec_wf env (OpSubscribe "A" 1%nat) _ (wf_fresh _ 1%nat 0)). }
  assert (Hrun : isPaused s = false) by (vm_compute; reflexivity).
  assert (Hne : eventHandlers s <> []) by (vm_compute; discriminate).
  exact (proj2 (proj2 (paused_tracker_is_not_healthy env env (valid_address env) s
                         Hwf Hrun (fun _ => eq_refl) Hne eq_refl))).
Defined.

Lemma size_set_fresh {V} a (v : V) m :
  OMap.has a m = false -> OMap.size (OMap.set a v m) = S (OMap.size m).
Proof.
  intros H. unfold OMap.size.
  rewrite <- (length_map fst (OMap.set a v m)), <- (length_map fst m).
  change (map fst (OMap.set a v m)) with (OMap.keys (OMap.set a v m)).
  rewrite OMapFacts.keys_set_fresh by assumption.
  rewrite length_app. unfold OMap.keys. simpl. lia.
Qed.

(** X12. When opening the watch fails during a first [subscribe], the call
    emits an error and throws, yet the callback stays registered for the
    address with no handle, no live watch and no cached snapshot added.  On a
    tracker whose handle and callback-set counts agreed, the next health
    check whose probe succeeds reports the resulting mismatch. *)
Theorem failed_watch_open_leaves_callback :
  forall (env envHealth : Env) (a : string) (cb : Callback) (s : State),
    valid_address env a = true ->
    OMap.has a (subscriptions s) = false ->
    OMap.has a (eventHandlers s) = false ->
    watch_opens env a = false ->
    OMap.size (subscriptions s) = OMap.size (eventHandlers s) ->
    probe_ok envHealth = true ->
    let s' := run (setupWebSocketSubscription env a cb) s in
    fst (setupWebSocketSubscription env a cb s) = Throw (WatchOpenFailed a) /\
    handlers_of a s' = [cb] /\
    subscriptions s' = subscriptions s /\
    listeners s' = listeners s /\
    holdingsCache s' = holdingsCache s /\
    emitted s' = emitted s ++ [EvError SetupSubscription] /\
    In (SubscriptionMismatch (OMap.size (subscriptions s)) (S (OMap.size (subscriptions s))))
       (errors (checkHealth envHealth s')) /\
    status (checkHealth envHealth s') <> healthy.
Proof.
  intros env envH a cb s Hv Hsub Hh Hw Hsize Hp s'. subst s'. unfold run.
  rewrite (setup_open_fail_eq env a cb s Hv Hsub Hw). cbn [fst snd].
  set (s1 := with_emitted _ _).
  assert (Hsz : OMap.size (eventHandlers s1) = S (OMap.size (subscriptions s))).
  { subst s1. simpl. rewrite size_set_fresh by assumption. now rewrite Hsize. }
  assert (Hss : subscriptions s1 = subscriptions s) by reflexivity.
  destruct (mismatch_reported envH s1 Hp) as [Hin Hst].
  { rewrite Hsz, Hss. lia. }
  rewrite Hsz, Hss in Hin.
  conjuncts; try reflexivity; auto.
  subst s1. unfold handlers_of. simpl. now rewrite OMapFacts.get_set_eq.
Qed.

Lemma failed_watch_open_leaves_callback_witness :
  let env := mkEnv (fun _ => true) (fun _ => Some []) (fun _ => 10) (fun _ => false)
                   (fun _ => true) true (fun _ _ => true) in
  let s' := run (setupWebSocketSubscription env "A" 1%nat) (fresh_tracker 1 0) in
  handlers_of "A" s' = [1%nat] /\ subscriptions s' = [] /\
  status (checkHealth env s') <> healthy.
Proof.
  intros env s'. subst s'.
  destruct (failed_watch_open_leaves_callback env env "A" 1%nat (fresh_tracker 1 0)
              eq_refl eq_refl eq_refl eq_refl eq_refl eq_refl)
    as [_ [Hh [Hs [_ [_ [_ [_ Hst]]]]]]].
  split; [exact Hh|]. split; [exact Hs | exact Hst].
Defined.

(** X13. When [resumeTracking] fails to open the watch of the first cached
    address, it throws and the tracker stays paused; the callback set of that
    address has by then been replaced by its first callback alone, so the
    other callbacks registered for it are no longer registered. *)
Theorem resume_failure_drops_callbacks :
  forall (env : Env) (s : State) (a : string) (others : list string)
         (h : Callback) (rest : list Callback),
    isPaused s = true ->
    OMap.keys (holdingsCache s) = a :: others ->
    OMap.get a (eventHandlers s) = Some (h :: rest) ->
    valid_address env a = true ->
    OMap.has a (subscriptions s) = false ->
    watch_opens env a = false ->
    let s' := run (resumeTracking env) s in
    fst (resumeTracking env s) = Throw (WatchOpenFailed a) /\
    isPaused s' = true /\
    handlers_of a s' = [h] /\
    (forall cb, In cb rest -> cb <> h -> ~ In cb (handlers_of a s')) /\
    subscriptions s' = subscriptions s /\
    listeners s' = listeners s /\
    emitted s' = emitted s ++ [EvError SetupSubscription; EvError ResumingTracking].
Proof.
  intros env s a others h rest Hp Hk G Hv Hsub Hw s'. subst s'.
  assert (Heq : resumeTracking env s =
                (Throw (WatchOpenFailed a),
                 with_emitted (fun log => log ++ [EvError ResumingTracking])
                   (with_emitted (fun log => log ++ [EvError SetupSubscription])
                      (with_eventHandlers (OMap.set a [h]) s)))).
  { unfold resumeTracking. unfold bind at 1. unfold gets at 1. rewrite Hp. cbn [negb].
    unfold try_catch. unfold bind at 1. unfold gets at 1. rewrite Hk.
    unfold bind at 1. cbn [for_of]. unfold bind at 1. unfold resubscribe at 1.
    unfold bind at 1. unfold gets at 1. rewrite G. cbn [for_of]. unfold bind at 1.
    rewrite (setup_open_fail_eq env a h s Hv Hsub Hw). reflexivity. }
  unfold run. rewrite Heq. cbn [fst snd]. simpl.
  assert (Hh : handlers_of a
                 (with_emitted (fun log => log ++ [EvError ResumingTracking])
                    (with_emitted (fun log => log ++ [EvError SetupSubscription])
                       (with_eventHandlers (OMap.set a [h]) s))) = [h]).
  { unfold handlers_of. simpl. now rewrite OMapFacts.get_set_eq. }
  conjuncts; try reflexivity; auto.
  - intros cb _ Hne Hin. rewrite Hh in Hin. destruct Hin as [E|[]]. congruence.
  - now rewrite <- app_assoc.
Qed.

(** Two callbacks on A, paused, and the connection refuses new watches. *)
Lemma resume_failure_drops_callbacks_witness :
  let env := Fixtures.calm (Fixtures.holds "A" Fixtures.X1000) in
  let refusing := mkEnv (fun _ => true) (fun _ => Some []) (fun _ => 10) (fun _ => false)
                        (fun _ => true) true (fun _ _ => true) in
  let s := run (pauseTracking env)
             (run (setupWebSocketSubscription env "A" 2%nat)
                (run (setupWebSocketSubscription env "A" 1%nat) (fresh_tracker 1 0))) in
  handlers_of "A" s = [1%nat; 2%nat] /\
  handlers_of "A" (run (resumeTracking refusing) s) = [1%nat] /\
  isPaused (run (resumeTracking refusing) s) = true.
Proof.
  intros env refusing s.
  assert (Hp : isPaused s = true) by (vm_compute; reflexivity).
  assert (Hk : OMap.keys (holdingsCache s) = ["A"%string]) by (vm_compute; reflexivity).
  assert (G : OMap.get "A" (eventHandlers s) = Some [1%nat; 2%nat])
    by (vm_compute; reflexivity).
  assert (Hsub : OMap.has "A" (subscriptions s) = false) by (vm_compute; reflexivity).
  destruct (resume_failure_drops_callbacks refusing s "A" [] 1%nat [2%nat]
              Hp Hk G eq_refl Hsub eq_refl) as [_ [Hp' [Hh _]]].
  split; [vm_compute; reflexivity|]. split; [exact Hh | exact Hp'].
Defined.

(** ** The health-check interval and the recovery it triggers *)

Lemma handleUnhealthyState_returns envP envR envF s :
  fst (handleUnhealthyState envP envR envF s) = Ok tt.
Proof.
  unfold handleUnhealthyState, try_catch.
  match goal with |- fst (let (r, s') := ?m s in _) = _ => destruct (m s) as [[[]|e] s1] end;
    reflexivity.
Qed.

Lemma tick_eq envH envP envR envF s :
  healthCheckTick false envH envP envR envF s =
  match status (checkHealth envH s) with
  | unhealthy => handleUnhealthyState envP envR envF s
  | _ => (Ok tt, s)
  end.
Proof.
  unfold healthCheckTick, try_catch, bind, gets.
  destruct (status (checkHealth envH s)); try reflexivity.
  pose proof (handleUnhealthyState_returns envP envR envF s) as Hret.
  unfold handleUnhealthyState, try_catch, bind in *.
  match goal with |- (let (r, s') := ?m in _) = _ => destruct m as [[[]|e] s1] end;
    [reflexivity | discriminate Hret].
Qed.

(** X14. One firing of the health-check interval never throws, and it
    leaves the tracker exactly as it was unless the status is [unhealthy]:
    when shutdown was requested, when the probe fails, when the cache is not
    stale or when the handle and callback-set counts agree, no pause, resume
    or refresh is attempted.  In particular an unreachable ledger never
    triggers the recovery. *)
Theorem health_tick_recovers_only_when_unhealthy :
  forall (shutdownRequested : bool) (envHealth envPause envResume envRefresh : Env)
         (s : State),
    fst (healthCheckTick shutdownRequested envHealth envPause envResume envRefresh s) = Ok tt /\
    (shutdownRequested = true \/ probe_ok envHealth = false \/
     is_stale s = false \/ counts_differ s = false ->
     healthCheckTick shutdownRequested envHealth envPause envResume envRefresh s = (Ok tt, s)) /\
    (shutdownRequested = false -> probe_ok envHealth = true ->
     is_stale s = true -> counts_differ s = true ->
     healthCheckTick shutdownRequested envHealth envPause envResume envRefresh s =
     handleUnhealthyState envPause envResume envRefresh s).
Proof.
  intros sr envH envP envR envF s.
  destruct sr; [split; [reflexivity|]; split; [reflexivity | discriminate]|].
  rewrite tick_eq.
  destruct (health_errors envH s) as [He [Hst _]]. rewrite Hst, He.
  pose proof (handleUnhealthyState_returns envP envR envF s) as Hret.
  destruct (probe_ok envH), (is_stale s), (counts_differ s); simpl;
    try (split; [reflexivity|]; split; [reflexivity | discriminate]).
  split; [exact Hret|]. split.
  - intros [H|[H|[H|H]]]; discriminate H.
  - reflexivity.
Qed.

Lemma health_tick_recovers_only_when_unhealthy_witness :
  let s := mkState [("A"%string, mkWalletHoldings "A" Fixtures.X1000 0)]
                   [("A"%string, 1%nat)] [("A"%string, [1%nat])] [] false 0 0
                   [(1%nat, "A"%string)] 2%nat 600000 [] [] in
  healthCheckTick false Fixtures.offline Fixtures.offline Fixtures.offline Fixtures.offline s
  = (Ok tt, s).
Proof.
  intros s.
  apply (proj1 (proj2 (health_tick_recovers_only_when_unhealthy false
                         Fixtures.offline Fixtures.offline Fixtures.offline
                         Fixtures.offline s))).
  right. left. reflexivity.
Defined.

Section Quiet.
Variables (d : list (Callback * list TokenChange)) (log : list Event).

Lemma preserves_modify_quiet (f : State -> State) :
  (forall s, delivered (f s) = delivered s /\ emitted (f s) = emitted s) ->
  preserves (quiet_since d log) (modify f).
Proof.
  intros Hf s [H1 H2]. simpl. destruct (Hf s) as [E1 E2].
  unfold quiet_since. now rewrite E1, E2.
Qed.

Lemma preserves_emit_quiet ev :
  (forall a batch, ev <> EvChanges a batch) ->
  preserves (quiet_since d log) (emit ev).
Proof.
  intros Hev s [H1 H2]. split; [exact H1|]. simpl.
  intros a batch Hin. apply in_app_or in Hin. destruct Hin as [Hin|[Hin|[]]]; auto.
  exfalso. apply (Hev a batch). exact Hin.
Qed.

Lemma preserves_resume_quiet env : preserves (quiet_since d log) (resumeTracking env).
Proof.
  do 3 unfold resumeTracking, resubscribe, setupWebSocketSubscription,
    updateWalletHoldings, getTokenAccounts, getParsedTokenAccountsByOwner,
    newPublicKey, onAccountChange, validateAddress.
  cbv zeta.
  walk ltac:(first [ apply preserves_emit_quiet; intros ? ?; discriminate
                   | apply preserves_modify_quiet; intros ?; conjuncts; reflexivity ]).
Qed.

End Quiet.




Lemma in_sync_after_refresh env a s : in_sync env s -> in_sync env (after_refresh env a s).
Proof.
  intros Hs b h G. simpl in G. destruct (string_dec a b) as [->|Hne].
  - rewrite OMapFacts.get_set_eq in G. injection G as <-. reflexivity.
  - rewrite OMapFacts.get_set_ne in G by assumption. now apply Hs.
Qed.

Lemma refresh_one_in_sync env a s :
  in_sync env s ->
  NoDup (map mint (read_tokens env a)) ->
  OMap.has a (holdingsCache s) = true ->
  refresh_one env a s = (Ok tt, after_refresh env a s).
Proof.
  intros Hs Hnd Hc. unfold refresh_one, try_catch. unfold bind at 1.
  rewrite updateWalletHoldings_eq.
  assert (Hnone : refresh_changes env a s = []).
  { unfold refresh_changes, diff_against. unfold OMap.has in Hc.
    destruct (OMap.get a (holdingsCache s)) as [h|] eqn:G; [|discriminate].
    rewrite (Hs a h G). now apply detectChanges_same. }
  rewrite Hnone. reflexivity.
Qed.

Lemma quiet_refresh_loop env addrs :
  (forall a, NoDup (map mint (read_tokens env a))) ->
  forall s,
    in_sync env s ->
    (forall a, In a addrs -> OMap.has a (holdingsCache s) = true) ->
    exists s',
      for_of addrs (refresh_one env) s = (Ok tt, s') /\
      isPaused s' = isPaused s /\
      delivered s' = delivered s /\
      (forall b batch, In (EvChanges b batch) (emitted s') -> In (EvChanges b batch) (emitted s)).
Proof.
  intros Hnd. induction addrs as [|a addrs IH]; intros s Hs Hc.
  - exists s. split; [reflexivity|]. split; auto.
  - destruct (IH (after_refresh env a s)) as [s' [E [P [D M]]]].
    + now apply in_sync_after_refresh.
    + intros b Hb. simpl. destruct (string_dec a b) as [->|Hne]; [apply has_set_eq|].
      rewrite has_set_ne by assumption. apply Hc. now right.
    + exists s'. split; [|split; [|split]].
      * cbn [for_of]. unfold bind.
        rewrite (refresh_one_in_sync env a s Hs (Hnd a)) by (apply Hc; now left).
        exact E.
      * rewrite P. reflexivity.
      * rewrite D. reflexivity.
      * intros b batch Hin. apply M in Hin. simpl in Hin.
        apply in_app_or in Hin. destruct Hin as [Hin|Hin]; auto.
        unfold read_events in Hin. destruct (read_failed env a); simpl in Hin.
        -- destruct Hin as [Hin|[]]. discriminate Hin.
        -- destruct Hin.
Qed.

(** X15. The recovery run on an unhealthy status (pause, wait, resume,
    refresh all) announces nothing.  On a consistent running tracker whose
    cached addresses all have callbacks, with every cancellation and watch
    opening succeeding and the ledger answering the refresh as it answered
    the resume (mints unique): the call returns normally, the tracker is
    running again with the callback sets it had, every cached snapshot holds
    the ledger's current answer, and yet no callback was invoked and no
    change batch emitted, whatever the balances were before the pause. *)
Theorem recovery_announces_nothing :
  forall (envPause envResume envRefresh : Env) (s : State),
    wf (valid_address envResume) s ->
    isPaused s = false ->
    (forall id, cancel_ok envPause id = true) ->
    (forall a, watch_opens envResume a = true) ->
    (forall a, OMap.has a (holdingsCache s) = true -> OMap.has a (eventHandlers s) = true) ->
    (forall a, NoDup (map mint (read_tokens envResume a))) ->
    (forall a, read_tokens envRefresh a = read_tokens envResume a) ->
    let s' := run (handleUnhealthyState envPause envResume envRefresh) s in
    fst (handleUnhealthyState envPause envResume envRefresh s) = Ok tt /\
    isPaused s' = false /\
    eventHandlers s' = eventHandlers s /\
    (forall a, OMap.has a (holdingsCache s) = true -> refreshed envRefresh a s') /\
    delivered s' = delivered s /\
    (forall a batch, In (EvChanges a batch) (emitted s') -> In (EvChanges a batch) (emitted s)).
Proof.
  intros envP envR envF s Hs Hrun Hcancel Hopen Hcb Hnd Hsame s'.
  split; [apply handleUnhealthyState_returns|]. subst s'.
  (* pause and wait *)
  set (s1 := with_clock (fun t => t + 5000) (paused_state s)).
  assert (Hs1 : wf (valid_address envR) s1).
  { apply (wf_frame _ (paused_state s)); try reflexivity. now apply wf_paused_state. }
  (* resume *)
  destruct (resumeTracking_eq envR s1 Hs1 eq_refl Hopen) as [s2' [R E2]].
  set (s2 := with_emitted (fun log => log ++ [EvResumed]) (with_isPaused false s2')) in *.
  pose proof (preserves_resume_quiet (delivered s1) (emitted s1) envR s1
                (conj eq_refl (fun a b H => H))) as Hq.
  rewrite E2 in Hq. cbn [snd] in Hq. destruct Hq as [Hd2 He2].
  destruct R as [_ [H2 [_ [K2 [_ C2]]]]]. simpl in H2, K2, C2.
  assert (Hsync : in_sync envF s2).
  { intros a h G. simpl in G.
    assert (Hc : OMap.has a (holdingsCache s) = true).
    { rewrite <- (has_same_keys _ _ a K2). unfold OMap.has. now rewrite G. }
    specialize (C2 a). rewrite mem_keys, Hc, (Hcb a Hc) in C2.
    simpl in C2. destruct C2 as [t Ht].
    rewrite Ht in G. injection G as <-. simpl. now rewrite Hsame. }
  (* refresh all *)
  assert (HndF : forall a, NoDup (map mint (read_tokens envF a))).
  { intros a. rewrite Hsame. apply Hnd. }
  destruct (quiet_refresh_loop envF (OMap.keys (holdingsCache s2)) HndF s2 Hsync)
    as [s3 [E3 [P3 [D3 M3]]]].
  { intros a Ha. now apply OMapFacts.has_keys. }
  destruct (refresh_loop envF (OMap.keys (holdingsCache s2)) s2)
    as [s3' [E3' [R3 [_ [_ [H3 _]]]]]].
  rewrite E3 in E3'. injection E3' as <-.
  assert (Heq : handleUnhealthyState envP envR envF s =
                (Ok tt, with_emitted (fun log => log ++ [EvRefreshed]) s3)).
  { unfold handleUnhealthyState, try_catch. unfold bind at 1.
    rewrite (pauseTracking_eq (valid_address envR) envP s Hs Hrun Hcancel).
    unfold bind at 1. unfold sleep, modify at 1. fold s1.
    unfold bind at 1. rewrite E2. fold s2.
    unfold refreshAllHoldings, try_catch.
    unfold bind at 1. unfold gets at 1. unfold bind at 1. rewrite E3. reflexivity. }
  unfold run. rewrite Heq. cbn [snd]. simpl.
  conjuncts.
  - rewrite P3. reflexivity.
  - rewrite H3. simpl. exact H2.
  - intros a Ha. apply R3. apply OMapFacts.has_keys.
    change (holdingsCache s2) with (holdingsCache s2').
    rewrite (has_same_keys _ _ a K2). exact Ha.
  - rewrite D3. exact Hd2.
  - intros a batch Hin. apply in_app_or in Hin. destruct Hin as [Hin|[Hin|[]]];
      [|discriminate Hin].
    apply M3, He2 in Hin. unfold s1 in Hin. simpl in Hin.
    apply in_app_or in Hin. destruct Hin as [Hin|[Hin|[]]]; [exact Hin | discriminate Hin].
Qed.

Lemma holds_unique x l a :
  NoDup (map mint l) ->
  NoDup (map mint (read_tokens (Fixtures.calm (Fixtures.holds x l)) a)).
Proof.
  intros Hnd. unfold read_tokens, Fixtures.calm, Fixtures.holds.
  cbn [valid_address ledger]. destruct (String.eqb x a); [exact Hnd | constructor].
Qed.

(** X moved from 1000 to 1500 while the tracker was unhealthy. *)
Lemma recovery_announces_nothing_witness :
  let env := Fixtures.calm (Fixtures.holds "A" Fixtures.X1000) in
  let env' := Fixtures.calm (Fixtures.holds "A" Fixtures.X1500) in
  let s := exec env (OpSubscribe "A" 1%nat) (fresh_tracker 1 0) in
  let s' := run (handleUnhealthyState env env' env') s in
  getBalance s "A" "X" = Some 1000 /\
  refreshed env' "A" s' /\
  delivered s' = delivered s.
Proof.
  intros env env' s s'. subst s'.
  assert (Hwf : wf (valid_address env') s).
  { exact (exec_wf env (OpSubscribe "A" 1%nat) _ (wf_fresh _ 1%nat 0)). }
  assert (Hrun : isPaused s = false) by (vm_compute; reflexivity).
  assert (Hc : holdingsCache s = [("A"%string, mkWalletHoldings "A" Fixtures.X1000 10)])
    by (vm_compute; reflexivity).
  assert (Hh : eventHandlers s = [("A"%string, [1%nat])]) by (vm_compute; reflexivity).
  assert (Hcb : forall a, OMap.has a (holdingsCache s) = true ->
                          OMap.has a (eventHandlers s) = true).
  { intros a. rewrite Hc, Hh. unfold OMap.has. cbn [OMap.get].
    destruct (String.eqb a "A"); auto. }
  assert (Hnd : forall a, NoDup (map mint (read_tokens env' a))).
  { intros a. apply holds_unique. repeat constructor. simpl. tauto. }
  destruct (recovery_announces_nothing env env' env' s Hwf Hrun
              (fun _ => eq_refl) (fun _ => eq_refl) Hcb Hnd (fun _ => eq_refl))
    as [_ [_ [_ [Hr [Hd _]]]]].
  split; [vm_compute; reflexivity|]. split; [|exact Hd].
  apply Hr. rewrite Hc. reflexivity.
Defined.

(** ** The retry loop of [executeSwap] *)

Ltac swap_cases outcome :=
  unfold executeSwap, MAX_RETRIES; cbn [swap_loop Nat.ltb Nat.leb Nat.sub];
  destruct (outcome 0%nat) as [tx0|err0|[| |[|]] [|] msg0] eqn:O0;
  cbn [swap_loop Nat.ltb Nat.leb Nat.sub andb];
  try (destruct (outcome 1%nat) as [tx1|err1|[| |[|]] [|] msg1] eqn:O1;
       cbn [swap_loop Nat.ltb Nat.leb Nat.sub andb];
       try (destruct (outcome 2%nat) as [tx2|err2|[| |[|]] [|] msg2] eqn:O2;
            cbn [swap_loop Nat.ltb Nat.leb Nat.sub andb])).

(** X16. [executeSwap] always ends within three passes through its [try]
    block, and never by the [Max retries exceeded] error that follows its
    loop, whatever each pass comes to (an error whose logs cannot be read
    included: it ends the call at that pass).  The delays it awaits are those
    of the passes it retried after: 1000 ms after a failed confirmation, none
    after an expired transaction, 2000 ms then 4000 ms after other errors; at
    most 6000 ms in all. *)
Theorem executeSwap_bounded :
  forall outcome : nat -> AttemptOutcome,
    exists r,
      executeSwap outcome = Some r /\
      swap_result r <> MaxRetriesExceeded /\
      (1 <= swap_attempts r <= 3)%nat /\
      swap_waits r =
        flat_map (fun j => wait_after j (outcome j)) (seq 0 (swap_attempts r - 1)) /\
      0 <= sum_waits (swap_waits r) <= 6000.
Proof.
  intros outcome. swap_cases outcome;
    (eexists; split; [reflexivity|]; cbn [swap_result swap_attempts swap_waits];
     split; [discriminate|]; split; [lia|]; split;
     [ cbn [Nat.sub seq flat_map app]; rewrite ?O0, ?O1; reflexivity
     | vm_compute; split; discriminate ]).
Qed.

(** X17. The outcome of [executeSwap] is decided by the first pass that
    does not call for a retry.  A pass calls for a retry when its
    confirmation failed or when it threw a value that carries no logs or
    readable logs without a mention of insufficient funds.  If, after such
    passes, a pass among the first three lands, its transaction id is
    returned; if it meets logs mentioning insufficient funds, the swap stops
    at once with the insufficient-funds error; if it meets a [logs] property
    that cannot be read, the swap stops at once with the [TypeError] of its
    own [catch] block, and no later pass is made.  When all three passes call
    for a retry (the swap's own balance check failing included), the third
    failure is reported as the execution failure. *)
Theorem executeSwap_decided_by_first_final_pass :
  forall (outcome : nat -> AttemptOutcome) (k : nat),
    (k < 3)%nat ->
    (forall j, (j < k)%nat -> retryable (outcome j) = true) ->
    (forall txid, outcome k = Landed txid ->
       exists r, executeSwap outcome = Some r /\
                 swap_result r = SwapSent txid /\ swap_attempts r = S k) /\
    (forall expired message, outcome k = Threw (Logs true) expired message ->
       exists r, executeSwap outcome = Some r /\
                 swap_result r = InsufficientFundsForSwap /\ swap_attempts r = S k) /\
    (forall expired message, outcome k = Threw UnreadableLogs expired message ->
       exists r, executeSwap outcome = Some r /\
                 swap_result r = LogsTypeError /\ swap_attempts r = S k) /\
    (k = 2%nat -> retryable (outcome k) = true ->
       exists r, executeSwap outcome = Some r /\
                 swap_attempts r = 3%nat /\
                 swap_result r =
                   SwapExecutionFailed
                     match outcome k with
                     | ConfirmationFailed err => String.append "Transaction failed: " err
                     | Threw _ _ message => message
                     | Landed _ => EmptyString
                     end).
Proof.
  intros outcome k Hk Hretry.
  assert (H0 : (0 < k)%nat -> retryable (outcome 0%nat) = true) by (intros; apply Hretry; lia).
  assert (H1 : (1 < k)%nat -> retryable (outcome 1%nat) = true) by (intros; apply Hretry; lia).
  destruct k as [|[|[|k]]]; [| | |lia]; clear Hretry Hk;
    unfold executeSwap, MAX_RETRIES; cbn [swap_loop Nat.ltb Nat.leb Nat.sub andb].
  - split; [|split; [|split]].
    + intros txid E. rewrite E. (eexists; split; [reflexivity|]; split; reflexivity).
    + intros expired message E. rewrite E.
      (eexists; split; [reflexivity|]; split; reflexivity).
    + intros expired message E. rewrite E.
      (eexists; split; [reflexivity|]; split; reflexivity).
    + discriminate.
  - specialize (H0 ltac:(lia)).
    destruct (outcome 0%nat) as [tx0|err0|[| |[|]] [|] msg0]; try discriminate H0;
      cbn [swap_loop Nat.ltb Nat.leb Nat.sub andb];
      (split; [|split; [|split]];
       [ intros txid E; rewrite E; (eexists; split; [reflexivity|]; split; reflexivity)
       | intros expired message E; rewrite E;
         (eexists; split; [reflexivity|]; split; reflexivity)
       | intros expired message E; rewrite E;
         (eexists; split; [reflexivity|]; split; reflexivity)
       | discriminate ]).
  - specialize (H0 ltac:(lia)). specialize (H1 ltac:(lia)).
    destruct (outcome 0%nat) as [tx0|err0|[| |[|]] [|] msg0]; try discriminate H0;
      cbn [swap_loop Nat.ltb Nat.leb Nat.sub andb];
      (destruct (outcome 1%nat) as [tx1|err1|[| |[|]] [|] msg1]; try discriminate H1;
       cbn [swap_loop Nat.ltb Nat.leb Nat.sub andb];
       (split; [|split; [|split]];
        [ intros txid E; rewrite E; (eexists; split; [reflexivity|]; split; reflexivity)
        | intros expired message E; rewrite E;
          (eexists; split; [reflexivity|]; split; reflexivity)
        | intros expired message E; rewrite E;
          (eexists; split; [reflexivity|]; split; reflexivity)
        | intros _ H2;
          destruct (outcome 2%nat) as [tx2|err2|[| |[|]] [|] msg2]; try discriminate H2;
          cbn [swap_loop Nat.ltb Nat.leb Nat.sub andb];
          (eexists; split; [reflexivity|]; split; reflexivity) ])).
Qed.

(** The balance check fails on every pass: three passes, two waits, and the
    check's own message in the final error.  A first pass that throws an
    error whose [logs] is undefined ends the call there, although the second
    pass would have landed. *)
Lemma executeSwap_decided_by_first_final_pass_witness :
  let outcome := fun _ : nat => Threw NoLogs false "Insufficient balance" in
  let undefined_logs :=
    fun j : nat => match j with
                   | O => Threw UnreadableLogs false "failed to send transaction"
                   | _ => Landed "TX2"
                   end in
  executeSwap outcome =
    Some (mkSwapRun (SwapExecutionFailed "Insufficient balance") 3 [2000; 4000]) /\
  (exists r, executeSwap outcome = Some r /\ swap_attempts r = 3%nat /\
             swap_result r = SwapExecutionFailed "Insufficient balance") /\
  executeSwap undefined_logs = Some (mkSwapRun LogsTypeError 1 []).
Proof.
  intros outcome undefined_logs. split; [vm_compute; reflexivity|].
  split; [|vm_compute; reflexivity].
  refine (proj2 (proj2 (proj2 (executeSwap_decided_by_first_final_pass outcome 2 _ _)))
            eq_refl eq_refl).
  - lia.
  - intros j _. reflexivity.
Defined.

(** ** Printing an amount *)

Lemma length_append (s1 s2 : string) :
  String.length (String.append s1 s2) = (String.length s1 + String.length s2)%nat.
Proof. induction s1 as [|c s1 IH]; simpl; [reflexivity | now rewrite IH]. Qed.

Lemma length_repeat_char c n : String.length (repeat_char c n) = n.
Proof. induction n as [|n IH]; simpl; [reflexivity | now rewrite IH]. Qed.

Lemma substring_split (s : string) : forall k, (k <= String.length s)%nat ->
  String.append (substring 0 k s) (substring k (String.length s - k) s) = s /\
  String.length (substring 0 k s) = k /\
  String.length (substring k (String.length s - k) s) = (String.length s - k)%nat.
Proof.
  induction s as [|c s IH]; intros k Hk; simpl in Hk.
  - assert (k = O) by lia. subst k. simpl. auto.
  - destruct k as [|k].
    + simpl. repeat split.
      * f_equal. clear. induction s as [|c' s IH]; simpl; [reflexivity | now rewrite IH].
      * f_equal. clear. induction s as [|c' s IH]; simpl; [reflexivity | now rewrite IH].
    + destruct (IH k ltac:(lia)) as (E1 & E2 & E3).
      cbn [substring String.length String.append Nat.sub].
      repeat split; [now rewrite E1 | now rewrite E2 | exact E3].
Qed.

Lemma digits_of_nonneg (z : Z) : 0 <= z ->
  bigint_toString z <> EmptyString /\
  exists d, DecimalString.NilEmpty.uint_of_string (bigint_toString z) = Some d /\
            Z.of_uint d = z.
Proof.
  intros Hz. destruct z as [|p|p]; [| |lia].
  - split; [discriminate|]. exists (Decimal.D0 Decimal.Nil). split; reflexivity.
  - unfold bigint_toString. cbn [Z.to_int DecimalString.NilZero.string_of_int].
    pose proof (DecimalPos.Unsigned.to_uint_nonnil p) as Hn.
    unfold DecimalString.NilZero.string_of_uint.
    destruct (Pos.to_uint p) eqn:E; try congruence.
    all: rewrite <- E; split.
    all: try (rewrite E; discriminate).
    all: exists (Pos.to_uint p); split; [apply DecimalString.NilEmpty.usu|].
    all: unfold Z.of_uint; rewrite DecimalPos.Unsigned.of_to; reflexivity.
Qed.

Lemma uint_of_padded (k : nat) (s : string) (d : Decimal.uint) :
  DecimalString.NilEmpty.uint_of_string s = Some d ->
  exists d', DecimalString.NilEmpty.uint_of_string (String.append (repeat_char "0" k) s) = Some d' /\
             Z.of_uint d' = Z.of_uint d.
Proof.
  intros H. induction k as [|k IH].
  - exists d. split; [exact H | reflexivity].
  - destruct IH as (d' & E & V). exists (Decimal.D0 d'). split.
    + cbn [repeat_char String.append DecimalString.NilEmpty.uint_of_string]. rewrite E. reflexivity.
    + rewrite <- V. reflexivity.
Qed.

(** X18.  For an amount that is not negative, [formatAmount] prints a part
    before the point that is never empty, the point, and exactly [decimals]
    digits after it; the digits of the two parts, read together as one decimal
    number, give the amount back. *)
Theorem formatAmount_reads_back (amount : Z) (decimals : nat) (H : 0 <= amount) :
  exists before after d,
    formatAmount amount decimals = String.append before (String "." after) /\
    before <> EmptyString /\
    String.length after = decimals /\
    DecimalString.NilEmpty.uint_of_string (String.append before after) = Some d /\
    Z.of_uint d = amount.
Proof.
  destruct (digits_of_nonneg amount H) as (Hne & d & Hd & Hv).
  unfold formatAmount, slice, slice_from, padStart.
  set (k := (decimals + 1 - String.length (bigint_toString amount))%nat).
  set (amountStr := String.append (repeat_char "0" k) (bigint_toString amount)).
  assert (Hlen : (decimals + 1 <= String.length amountStr)%nat).
  { unfold amountStr. rewrite length_append, length_repeat_char. unfold k. lia. }
  cbv zeta. rewrite Nat.sub_0_r.
  assert (Hk : (String.length amountStr - decimals <= String.length amountStr)%nat) by lia.
  destruct (substring_split amountStr _ Hk) as (E1 & E2 & E3).
  destruct (uint_of_padded k _ d Hd) as (d' & Hd' & Hv').
  fold amountStr in Hd'.
  set (b := substring 0 (String.length amountStr - decimals) amountStr) in *.
  set (a := substring (String.length amountStr - decimals) _ amountStr) in *.
  assert (Hb : b <> EmptyString).
  { intros Eb. rewrite Eb in E2. simpl in E2. lia. }
  exists b, a, d'. split; [|split; [exact Hb|split; [lia|split]]].
  - destruct b; [congruence | reflexivity].
  - rewrite E1. exact Hd'.
  - congruence.
Qed.

Lemma formatAmount_reads_back_witness :
  0 <= 1500 /\
  exists before after d,
    formatAmount 1500 6 = String.append before (String "." after) /\
    before <> EmptyString /\
    String.length after = 6%nat /\
    DecimalString.NilEmpty.uint_of_string (String.append before after) = Some d /\
    Z.of_uint d = 1500.
Proof. split; [lia | apply (formatAmount_reads_back 1500 6); lia]. Defined.
